(** * Covariance, correlation, shift and autocorrelation kernels

    A shallow embedding of
    [cpp/src/arrow/compute/kernels/additional/cov_state.h],
    [cpp/src/arrow/compute/kernels/additional/corr.cc] and of the
    convenience entry points of [api_additional] ([AutoCorr], [PctChange]).

    The C++ [double] is kept abstract behind the interface [DoubleOps];
    every kernel is written once against that interface and is read at two
    carriers:
    - [float] (IEEE 754 binary64, the arithmetic the compiled code runs);
    - [Qc] (canonical rationals, the "exact arithmetic" the documentation
      of the merge identity refers to).

    Signed machine integers are [Z] with the two's complement wrap-around
    written out ([wrap64], [wrap128]). *)

From Stdlib Require Import ZArith List Bool Lia QArith Qcanon Floats String.
Import ListNotations.
Local Open Scope Z_scope.

(** ** Machine integers *)

Definition wrap_signed (w z : Z) : Z :=
  (z + 2 ^ (w - 1)) mod 2 ^ w - 2 ^ (w - 1).

Definition wrap64 : Z -> Z := wrap_signed 64.
Definition wrap128 : Z -> Z := wrap_signed 128.

Definition in_signed (w z : Z) : Prop :=
  - 2 ^ (w - 1) <= z < 2 ^ (w - 1).

Definition INT64_MAX : Z := 2 ^ 63 - 1.

Definition INT32_MIN : Z := - 2 ^ 31.
Definition INT32_MAX : Z := 2 ^ 31 - 1.

(** ** The arithmetic of [double] *)

Class DoubleOps (D : Type) : Type := {
  dzero : D;
  dadd : D -> D -> D;
  dsub : D -> D -> D;
  dmul : D -> D -> D;
  ddiv : D -> D -> D;
(** [static_cast<double>] of an integer of any width *)
  of_int : Z -> D
}.

(** [std::sqrt], used by the correlation kernel only. *)
Class DoubleSqrt (D : Type) : Type := dsqrt : D -> D.

Declare Scope dbl_scope.
Delimit Scope dbl_scope with dbl.
Infix "+" := dadd : dbl_scope.
Infix "-" := dsub : dbl_scope.
Infix "*" := dmul : dbl_scope.
Infix "/" := ddiv : dbl_scope.

(** IEEE 754 binary64, conversions from integers rounded to nearest even. *)
#[export] Instance ieee_ops : DoubleOps float := {
  dzero := 0%float;
  dadd := PrimFloat.add;
  dsub := PrimFloat.sub;
  dmul := PrimFloat.mul;
  ddiv := PrimFloat.div;
  of_int := fun z => SF2Prim (binary_normalize prec emax z 0 false)
}.

#[export] Instance ieee_sqrt : DoubleSqrt float := PrimFloat.sqrt.

(** Exact arithmetic on the rationals. *)
#[export] Instance exact_ops : DoubleOps Qc := {
  dzero := 0%Qc;
  dadd := Qcplus;
  dsub := Qcminus;
  dmul := Qcmult;
  ddiv := Qcdiv;
  of_int := fun z => Q2Qc (inject_Z z)
}.

(** ** Options *)

(** [VarianceOptions]: [ddof] is an [int], [min_count] a [uint32_t]. *)
Record VarianceOptions : Type := {
  ddof : Z;
  skip_nulls : bool;
  min_count : Z
}.

(** ** [CovarianceState]: the merge algebra *)

Module CovarianceState.
Section Carrier.
Context {D : Type} {ops : DoubleOps D}.

Record t : Type := mk {
  count : Z;
  mean_x : D;
  mean_y : D;
  m_xy : D;
  all_valid : bool;
  decimal_scale : Z;
  options : VarianceOptions
}.

(** The constructor [CovarianceState(decimal_scale, options)];
    [all_valid] has the default member initialiser [true]. *)
Definition init (scale : Z) (opts : VarianceOptions) : t :=
  mk 0 dzero dzero dzero true scale opts.

Definition set_all_valid (b : bool) (s : t) : t :=
  mk (count s) (mean_x s) (mean_y s) (m_xy s) b (decimal_scale s) (options s).

(** The local lambda [MergeMean]; it reads [this->count] after the
    assignment [this->count = count1 + count2]. *)
Definition MergeMean (new_count count1 count2 : Z) (mean1 mean2 : D) : D :=
  ((mean1 * of_int count1 + mean2 * of_int count2) / of_int new_count)%dbl.

Definition MergeFrom (this other : t) : t :=
  let this := set_all_valid (all_valid this && all_valid other) this in
  if count other =? 0 then this
  else if count this =? 0 then
    mk (count other) (mean_x other) (mean_y other) (m_xy other)
       (all_valid this) (decimal_scale this) (options this)
  else
    let count1 := count this in
    let count2 := count other in
    let new_count := wrap64 (count1 + count2) in
    let _mean_x := MergeMean new_count count1 count2 (mean_x this) (mean_x other) in
    let _mean_y := MergeMean new_count count1 count2 (mean_y this) (mean_y other) in
    let m22 := m_xy other in
    let new_m_xy :=
      (m_xy this +
       (m22
        + of_int count1 * (mean_x this - _mean_x) * (mean_y this - _mean_y)
        + of_int count2 * (mean_x other - _mean_x) * (mean_y other - _mean_y)))%dbl in
    mk new_count _mean_x _mean_y new_m_xy
       (all_valid this) (decimal_scale this) (options this).

End Carrier.
Arguments t D : clear implicits.
End CovarianceState.

(** ** [CorrelationState]: merge of the sums of squared deviations *)

Module CorrelationState.
Section Carrier.
Context {D : Type} {ops : DoubleOps D}.

Record t : Type := mk {
  mx2 : D;
  my2 : D;
  covarianceState : CovarianceState.t D
}.

Definition init (scale : Z) (opts : VarianceOptions) : t :=
  mk dzero dzero (CovarianceState.init scale opts).

(** [MergeVarStd2]; the result is the new content of [*out_m2]. *)
Definition MergeVarStd2 (count1 : Z) (mean1 : D) (count2 : Z) (mean2 : D)
    (m22 : D) (out_m2 : D) : D :=
  let mean :=
    ((mean1 * of_int count1 + mean2 * of_int count2)
     / of_int (wrap64 (count1 + count2)))%dbl in
  (out_m2 +
   (m22
    + of_int count1 * (mean1 - mean) * (mean1 - mean)
    + of_int count2 * (mean2 - mean) * (mean2 - mean)))%dbl.

Definition MergeFrom (this other : t) : t :=
  let count1 := CovarianceState.count (covarianceState this) in
  let meanx := CovarianceState.mean_x (covarianceState this) in
  let mean_y := CovarianceState.mean_y (covarianceState this) in
  let cov := CovarianceState.MergeFrom (covarianceState this) (covarianceState other) in
  let mx2' :=
    MergeVarStd2 count1 meanx
      (CovarianceState.count (covarianceState other))
      (CovarianceState.mean_x (covarianceState other)) (mx2 other) (mx2 this) in
  let my2' :=
    MergeVarStd2 count1 mean_y
      (CovarianceState.count (covarianceState other))
      (CovarianceState.mean_y (covarianceState other)) (my2 other) (my2 this) in
  mk mx2' my2' cov.

End Carrier.
Arguments t D : clear implicits.
End CorrelationState.

(** ** [IntegerCovariance]: exact accumulation for narrow integers *)

(** The element types with [sizeof(CType) <= 4]. *)
Inductive NarrowInt : Type :=
| Int8 | UInt8 | Int16 | UInt16 | Int32 | UInt32.

Definition bitwidth (ty : NarrowInt) : Z :=
match ty with
| Int8 | UInt8 => 8
| Int16 | UInt16 => 16
| Int32 | UInt32 => 32
end.

Definition is_signed (ty : NarrowInt) : bool :=
match ty with
| Int8 | Int16 | Int32 => true
| UInt8 | UInt16 | UInt32 => false
end.

(** The values of [c_type]. *)
Definition in_ctype (ty : NarrowInt) (v : Z) : Prop :=
if is_signed ty
then - 2 ^ (bitwidth ty - 1) <= v < 2 ^ (bitwidth ty - 1)
else 0 <= v < 2 ^ bitwidth ty.

Module IntegerCovariance.

Record t : Type := mk {
  count : Z;   (* int64_t *)
  sum_x : Z;   (* int64_t *)
  sum_y : Z;   (* int64_t *)
  sum_xy : Z   (* int128_t *)
}.

Definition init : t := mk 0 0 0 0.

Definition ConsumeOne (c : t) (value_x value_y : Z) : t :=
  mk (wrap64 (count c + 1))
     (wrap64 (sum_x c + value_x))
     (wrap64 (sum_y c + value_y))
     (wrap128 (sum_xy c + wrap128 (value_x * value_y))).

Section Carrier.
Context {D : Type} {ops : DoubleOps D}.

Definition mean_x (c : t) : D := (of_int (sum_x c) / of_int (count c))%dbl.

Definition mean_y (c : t) : D := (of_int (sum_y c) / of_int (count c))%dbl.

  (** [/] and [%] on [int128_t] truncate towards zero. *)
Definition m_xy (c : t) : D :=
    let sum_square := wrap128 (sum_x c * sum_y c) in
    let integers := Z.quot sum_square (count c) in
    let fractions := (of_int (Z.rem sum_square (count c)) / of_int (count c))%dbl in
    (of_int (wrap128 (sum_xy c - integers)) - fractions)%dbl.
End Carrier.

End IntegerCovariance.

(** ** Arrays *)

(** An [ArraySpan] seen from its offset: each slot has the entry of the
  values buffer and its validity bit. *)
Definition ArraySpan (C : Type) : Type := list (C * bool).

Module Span.
Section Elem.
Context {C : Type}.

Definition length (a : ArraySpan C) : Z := Z.of_nat (List.length a).

Definition GetNullCount (a : ArraySpan C) : Z :=
  Z.of_nat (List.length (filter (fun s => negb (snd s)) a)).

(** [SetSlice(offset, length)] relative to the offset of the parent. *)
Definition SetSlice (a : ArraySpan C) (offset len : Z) : ArraySpan C :=
  firstn (Z.to_nat len) (skipn (Z.to_nat offset) a).

Definition validity (a : ArraySpan C) : list bool := map snd a.

(** [GetValues<CType>(1)[i]]; [dflt] stands for a read past the end, which
    the columns of one batch (all of one length) never make. *)
Definition value_at (dflt : C) (a : ArraySpan C) (i : nat) : C :=
  fst (nth i a (dflt, false)).

(** Modelled from the spec: the host runtime's iteration over the maximal
    runs of valid positions of a bitmap ([VisitSetBitRunsVoid], declared in
    arrow/util/bit_run_reader.h), given as [(start_position, run_length)]
    pairs in increasing order. [cur] is the length of the run of set bits
    that ends just before [pos]. *)
Fixpoint set_bit_runs_from (pos cur : nat) (bits : list bool) : list (nat * nat) :=
  let flush := if Nat.eqb cur 0 then [] else [(pos - cur, cur)%nat] in
  match bits with
  | [] => flush
  | true :: bs => set_bit_runs_from (S pos) (S cur) bs
  | false :: bs => flush ++ set_bit_runs_from (S pos) 0 bs
  end.

Definition SetBitRuns (a : ArraySpan C) : list (nat * nat) :=
  set_bit_runs_from 0 0 (validity a).

End Elem.
End Span.

(** ** Results that may raise *)

(** A C++ call either returns or leaves by a thrown exception. *)
Inductive Raise (A : Type) : Type :=
  | Normal (a : A)
  | Throw (what : string).
Arguments Normal {A} a.
Arguments Throw {A} what.

(** ** [CovarianceState::Consume], narrow integer path *)

Module IntegerPath.
Section Carrier.
Context {D : Type} {ops : DoubleOps D}.
Variable ty : NarrowInt.

(** [constexpr int64_t max_length = 1ULL << (63 - sizeof(CType) * 8)]. *)
Definition max_length : Z := Z.shiftl 1 (63 - bitwidth ty).

(** The body of the visitor handed to [VisitSetBitRunsVoid]: the runs are
    those of [slice_x] alone, and both value buffers are read at them. *)
Definition visit_run (slice_x slice_y : ArraySpan Z)
    (cov : IntegerCovariance.t) (run : nat * nat) : IntegerCovariance.t :=
  let '(pos, len) := run in
  fold_left
    (fun cov i =>
       let value_x := Span.value_at 0 slice_x (pos + i) in
       let value_y := Span.value_at 0 slice_y (pos + i) in
       IntegerCovariance.ConsumeOne cov value_x value_y)
    (seq 0 len) cov.

(** A fresh [IntegerCovariance cov] filled from one pair of slices. *)
Definition accumulate (slice_x slice_y : ArraySpan Z) : IntegerCovariance.t :=
  fold_left (visit_run slice_x slice_y) (Span.SetBitRuns slice_x)
    IntegerCovariance.init.

(** The [while] loop of [Consume]. [on_chunk] is what the loop does with a
    pair of slices of positive valid counts; [fuel] bounds the number of
    iterations. *)
Fixpoint chunk_loop {S : Type} (on_chunk : S -> ArraySpan Z -> ArraySpan Z -> S)
    (fuel : nat) (array_x array_y : ArraySpan Z)
    (start_index_x start_index_y valid_count_x valid_count_y : Z) (this : S) : S :=
  match fuel with
  | O => this
  | Datatypes.S fuel' =>
    if (0 <? valid_count_x) && (0 <? valid_count_y) then
      let slice_x :=
        Span.SetSlice array_x start_index_x
          (Z.min max_length (Span.length array_x - start_index_x)) in
      let slice_y :=
        Span.SetSlice array_y start_index_y
          (Z.min max_length (Span.length array_y - start_index_y)) in
      let count_x := Span.length slice_x - Span.GetNullCount slice_x in
      let count_y := Span.length slice_y - Span.GetNullCount slice_y in
      let start_index_x := start_index_x + Span.length slice_x in
      let start_index_y := start_index_y + Span.length slice_y in
      let valid_count_x := valid_count_x - count_x in
      let valid_count_y := valid_count_y - count_y in
      let this :=
        if (0 <? count_x) && (0 <? count_y)
        then on_chunk this slice_x slice_y
        else this in
      chunk_loop on_chunk fuel' array_x array_y
        start_index_x start_index_y valid_count_x valid_count_y this
    else this
  end.

(** Every iteration takes at least one slot of [array_x], so its length
    bounds the number of iterations. *)
Definition loop_fuel (array_x : ArraySpan Z) : nat :=
  Datatypes.S (List.length array_x).

(** "merge variance": the chunk's exact moments go into a fresh state that
    is merged into [this]. *)
Definition merge_chunk (this : CovarianceState.t D)
    (slice_x slice_y : ArraySpan Z) : CovarianceState.t D :=
  let cov := accumulate slice_x slice_y in
  let state :=
    CovarianceState.mk (IntegerCovariance.count cov)
      (IntegerCovariance.mean_x cov) (IntegerCovariance.mean_y cov)
      (IntegerCovariance.m_xy cov) true
      (CovarianceState.decimal_scale this) (CovarianceState.options this) in
  CovarianceState.MergeFrom this state.

Definition Consume (this : CovarianceState.t D)
    (array_x array_y : ArraySpan Z) : CovarianceState.t D :=
  let this :=
    CovarianceState.set_all_valid
      ((Span.GetNullCount array_x =? 0) && (Span.GetNullCount array_y =? 0)) this in
  if negb (CovarianceState.all_valid this)
     && negb (skip_nulls (CovarianceState.options this))
  then this
  else
    let valid_count_x := Span.length array_x - Span.GetNullCount array_x in
    let valid_count_y := Span.length array_y - Span.GetNullCount array_y in
    chunk_loop merge_chunk (loop_fuel array_x) array_x array_y
      0 0 valid_count_x valid_count_y this.

(** The pairs of slices that [Consume] hands to a fresh accumulator, in
    order: the same loop, recording instead of merging. *)
Definition record_chunk (acc : list (ArraySpan Z * ArraySpan Z))
    (slice_x slice_y : ArraySpan Z) : list (ArraySpan Z * ArraySpan Z) :=
  acc ++ [(slice_x, slice_y)].

Definition chunks (array_x array_y : ArraySpan Z)
    : list (ArraySpan Z * ArraySpan Z) :=
  chunk_loop record_chunk
    (loop_fuel array_x) array_x array_y 0 0
    (Span.length array_x - Span.GetNullCount array_x)
    (Span.length array_y - Span.GetNullCount array_y) [].

End Carrier.
End IntegerPath.

(** ** [SumArray2WithCovariance]: block-wise cascade summation *)

Module Summation.
Section Carrier.
Context {D : Type} {ops : DoubleOps D}.
Context {CType : Type}.
(** What a read past the end of a values buffer yields; the columns of one
    batch have one length, so no such read is made on them. *)
Variable cnull : CType.

(** [constexpr int kBlockSize = 16]. *)
Definition kBlockSize : nat := 16.

(** The locals that the lambda [reduce] captures by reference: the
    per-level sums, the bit mask of the levels that hold a pending sum
    ([uint64_t]) and the level of the root. *)
Record levels : Type := mk_levels {
  sum : list D;
  mask : Z;
  root_level : nat
}.

Definition get_at (i : nat) (sum : list D) : D := nth i sum dzero.

Fixpoint set_at (i : nat) (v : D) (sum : list D) : list D :=
  match sum, i with
  | [], _ => []
  | _ :: rest, O => v :: rest
  | s :: rest, Datatypes.S i' => s :: set_at i' v rest
  end.

(** [sum[i] += v]. *)
Definition add_at (i : nat) (v : D) (sum : list D) : list D :=
  set_at i (get_at i sum + v)%dbl sum.

(** The [while ((mask & cur_level_mask) == 0)] loop of [reduce]: two sums
    pending at a level are carried into the next one. [fuel] is the number
    of bits of the mask. *)
Fixpoint carry (fuel cur_level : nat) (cur_level_mask : Z)
    (sum : list D) (mask : Z) : nat * list D * Z :=
  match fuel with
  | O => (cur_level, sum, mask)
  | Datatypes.S fuel' =>
    if Z.land mask cur_level_mask =? 0 then
      let block_sum := get_at cur_level sum in
      let sum := set_at cur_level dzero sum in
      let cur_level := Datatypes.S cur_level in
      let cur_level_mask := Z.shiftl cur_level_mask 1 mod 2 ^ 64 in
      let sum := add_at cur_level block_sum sum in
      let mask := Z.lxor mask cur_level_mask in
      carry fuel' cur_level cur_level_mask sum mask
    else (cur_level, sum, mask)
  end.

Definition reduce (st : levels) (block_sum : D) : levels :=
  let sum := add_at 0 block_sum (sum st) in
  let mask := Z.lxor (mask st) 1 in
  let '(cur_level, sum, mask) := carry 64 0 1 sum mask in
  mk_levels sum mask (Nat.max (root_level st) cur_level).

(** [block_sum = 0; for (j < n) block_sum += func(v1[j], v2[j])] with
    [v1 = &values1[start]], [v2 = &values2[start]]. *)
Definition block_sum (func : CType -> CType -> D)
    (data1 data2 : ArraySpan CType) (start n : nat) : D :=
  fold_left
    (fun acc j =>
       (acc + func (Span.value_at cnull data1 (start + j))
                   (Span.value_at cnull data2 (start + j)))%dbl)
    (seq 0 n) dzero.

(** The visitor: whole blocks, then the remaining elements of the run. *)
Definition visit_run (func : CType -> CType -> D)
    (data1 data2 : ArraySpan CType) (st : levels) (run : nat * nat) : levels :=
  let '(pos, len) := run in
  let blocks := (len / kBlockSize)%nat in
  let remains := (len mod kBlockSize)%nat in
  let st :=
    fold_left
      (fun st i =>
         reduce st (block_sum func data1 data2 (pos + i * kBlockSize) kBlockSize))
      (seq 0 blocks) st in
  if (0 <? remains)%nat
  then reduce st (block_sum func data1 data2 (pos + blocks * kBlockSize) remains)
  else st.

Definition SumArray2WithCovariance (data1 data2 : ArraySpan CType)
    (func : CType -> CType -> D) : D :=
  let data_size := Span.length data1 - Span.GetNullCount data1 in
  if data_size =? 0 then dzero
  else
    let levels := Z.log2_up data_size + 1 in
    let st :=
      fold_left (visit_run func data1 data2) (Span.SetBitRuns data1)
        (mk_levels (repeat dzero (Z.to_nat levels)) 0 0) in
    let sum :=
      fold_left (fun sum i => add_at i (get_at (i - 1) sum) sum)
        (seq 1 (root_level st)) (sum st) in
    get_at (root_level st) sum.

(** Modelled from the spec: [SumArray<CType, double>(data, func)] of
    arrow/compute/kernels/aggregate_internal.h is not among the sources; it
    is the same reducer over the valid runs of a single sequence, summing
    [func(value)]. *)
Definition SumArray (data : ArraySpan CType) (func : CType -> D) : D :=
  SumArray2WithCovariance data data (fun value _ => func value).

End Carrier.
End Summation.

(** ** [CovarianceState::Consume], floating-point and wide-integer path *)

Module FloatPath.
Section Carrier.
Context {D : Type} {ops : DoubleOps D}.
Context {CType : Type}.
Variable cnull : CType.
(** The overload of [ToDouble] for [CType]. *)
Variable ToDouble : CType -> D.
(** [internal::SumArray<CType, SumType, SimdLevel::NONE>] at the sum type
    [GetSumType<T>::SumType] of the element type (declared in
    aggregate_internal.h), and [ToDouble] at that sum type. *)
Context {SumType : Type}.
Variable SumArray : ArraySpan CType -> SumType.
Variable ToDoubleSum : SumType -> D.

Definition Consume (this : CovarianceState.t D)
    (array_x array_y : ArraySpan CType) : Raise (CovarianceState.t D) :=
  let this :=
    CovarianceState.set_all_valid
      ((Span.GetNullCount array_x =? 0) && (Span.GetNullCount array_y =? 0)) this in
  let count_x := Span.length array_x - Span.GetNullCount array_x in
  let count_y := Span.length array_y - Span.GetNullCount array_y in
  if negb (count_x =? count_y)
  then Throw "valid values from array1 must equal array2"
  else
    let _count := Span.length array_x - Span.GetNullCount array_x in
    if (_count =? 0)
       || (negb (CovarianceState.all_valid this)
           && negb (skip_nulls (CovarianceState.options this)))
    then Normal this
    else
      let sum_x := SumArray array_x in
      let sum_y := SumArray array_y in
      let _mean_x := (ToDoubleSum sum_x / of_int _count)%dbl in
      let _mean_y := (ToDoubleSum sum_y / of_int _count)%dbl in
      let _m_xy :=
        Summation.SumArray2WithCovariance cnull array_x array_y
          (fun value_x value_y =>
             let vX := ToDouble value_x in
             let vY := ToDouble value_y in
             ((vX - _mean_x) * (vY - _mean_y))%dbl) in
      Normal
        (CovarianceState.mk _count _mean_x _mean_y _m_xy
           (CovarianceState.all_valid this)
           (CovarianceState.decimal_scale this) (CovarianceState.options this)).

End Carrier.
End FloatPath.

(** ** [CorrelationState::Consume] *)

Module CorrelationConsume.
Section Carrier.
Context {D : Type} {ops : DoubleOps D}.
Context {CType : Type}.
Variable cnull : CType.
Variable ToDouble : CType -> D.
(** [covarianceState.Consume] as overload resolution picks it for the
    element type: [IntegerPath.Consume] or [FloatPath.Consume]. *)
Variable cov_Consume :
  CovarianceState.t D -> ArraySpan CType -> ArraySpan CType ->
  Raise (CovarianceState.t D).

Definition Consume (this : CorrelationState.t D)
    (x y : ArraySpan CType) : Raise (CorrelationState.t D) :=
  match cov_Consume (CorrelationState.covarianceState this) x y with
  | Throw what => Throw what
  | Normal cs =>
    let mx2 :=
      Summation.SumArray cnull x
        (fun value =>
           let v := ToDouble value in
           ((v - CovarianceState.mean_x cs) * (v - CovarianceState.mean_x cs))%dbl) in
    let my2 :=
      Summation.SumArray cnull y
        (fun value =>
           let v := ToDouble value in
           ((v - CovarianceState.mean_y cs) * (v - CovarianceState.mean_y cs))%dbl) in
    Normal (CorrelationState.mk mx2 my2 cs)
  end.

End Carrier.
End CorrelationConsume.

(** ** The aggregators [CovarianceImpl] and [CorrelationImpl] *)

Inductive Status : Type :=
  | OK
  | Invalid (msg : string)
  | NotImplemented (msg : string).

(** A value of an [ExecSpan]: an array or a scalar. *)
Inductive ExecValue (C : Type) : Type :=
  | ArrayValue (array : ArraySpan C)
  | ScalarValue.
Arguments ArrayValue {C} array.
Arguments ScalarValue {C}.

Module CovarianceImpl.
Section Carrier.
Context {D : Type} {ops : DoubleOps D}.
Context {CType : Type}.
(** [CovarianceState<ArrowType>::Consume] of the element type. *)
Variable state_Consume :
  CovarianceState.t D -> ArraySpan CType -> ArraySpan CType ->
  Raise (CovarianceState.t D).

(** The member function returns a [Status] and leaves the state changed, or
    is left by the exception that [state.Consume] throws. *)
Definition Consume (state : CovarianceState.t D)
    (batch0 batch1 : ExecValue CType) : Raise (Status * CovarianceState.t D) :=
  match batch0, batch1 with
  | ArrayValue x, ArrayValue y =>
    match state_Consume state x y with
    | Throw what => Throw what
    | Normal state => Normal (OK, state)
    end
  | _, _ => Normal (Invalid "Input must be arrays", state)
  end.

Definition MergeFrom (state src : CovarianceState.t D)
    : Status * CovarianceState.t D :=
  (OK, CovarianceState.MergeFrom state src).

(** The condition under which [Finalize] makes the null [DoubleScalar]. *)
Definition no_value (state : CovarianceState.t D) : bool :=
  let options := CovarianceState.options state in
  (CovarianceState.count state <=? ddof options)
  || (CovarianceState.count state <? min_count options)
  || (negb (CovarianceState.all_valid state) && negb (skip_nulls options)).

(** [None] is the null [DoubleScalar]; the returned status is always OK. *)
Definition Finalize (state : CovarianceState.t D) : option D :=
  if no_value state then None
  else
    let options := CovarianceState.options state in
    let covar :=
      (CovarianceState.m_xy state
       / of_int (wrap64 (CovarianceState.count state - ddof options)))%dbl in
    Some covar.

End Carrier.
End CovarianceImpl.

Module CorrelationImpl.
Section Carrier.
Context {D : Type} {ops : DoubleOps D} {sq : DoubleSqrt D}.

Definition MergeFrom (state src : CorrelationState.t D)
    : Status * CorrelationState.t D :=
  (OK, CorrelationState.MergeFrom state src).

Definition Finalize (state : CorrelationState.t D) : option D :=
  let cov_state := CorrelationState.covarianceState state in
  let options := CovarianceState.options cov_state in
  if (CovarianceState.count cov_state <=? ddof options)
     || (CovarianceState.count cov_state <? min_count options)
     || (negb (CovarianceState.all_valid cov_state) && negb (skip_nulls options))
  then None
  else
    let n := of_int (wrap64 (CovarianceState.count cov_state - ddof options)) in
    let std_x := dsqrt (CorrelationState.mx2 state / n)%dbl in
    let std_y := dsqrt (CorrelationState.my2 state / n)%dbl in
    let covar := (CovarianceState.m_xy cov_state / n)%dbl in
    let corr := (covar / (std_x * std_y))%dbl in
    Some corr.

End Carrier.
End CorrelationImpl.

(** ** [ShiftImpl] *)

Module ShiftImpl.
Section Elem.
Context {A : Type}.

(** An array as its scalars: [None] is a null. *)
Definition GetScalar (x : list (option A)) (i : nat) : option A :=
  nth i x None.

(** [replace_value_] is a possibly empty pointer to a scalar, which may
    itself be the null scalar: [AppendNulls(n)] and [AppendScalar(s, n)]. *)
Definition fill (replace_value_ : option (option A)) (shift_len : Z)
    : list (option A) :=
  match replace_value_ with
  | Some scalar => repeat scalar (Z.to_nat shift_len)
  | None => repeat None (Z.to_nat shift_len)
  end.

(** [std::abs] of an [int32_t]: the behaviour is undefined when the result
    is not an [int], that is at [INT32_MIN]. [None] stands for undefined
    behaviour, here and below. *)
Definition abs_int32 (v : Z) : option Z :=
  if v =? INT32_MIN then None else Some (Z.abs v).

(** The values of the counter of [for (int i = 0; i < bound; i++)], with
    [bound] an [int64_t]: when [bound] is above [INT32_MAX] the body runs at
    [i = INT32_MAX] and the increment after it overflows the [int]. *)
Definition int_counter (bound : Z) : option (list nat) :=
  if INT32_MAX <? bound then None else Some (seq 0 (Z.to_nat bound)).

(** The content of the builder at [FinishInternal]. [shift_value_] is an
    [int32_t]; the first loop counts with an [int], the second with an
    [int64_t] that starts at [shift_len] and stays below the length. *)
Definition Execute (shift_value_ : Z) (replace_value_ : option (option A))
    (x : list (option A)) : option (list (option A)) :=
  let N := Z.of_nat (List.length x) in
  match abs_int32 shift_value_ with
  | None => None
  | Some shift_len =>
    if 0 <? shift_value_ then
      match int_counter (N - shift_len) with
      | None => None
      | Some indices =>
        Some (fill replace_value_ shift_len ++ map (GetScalar x) indices)
      end
    else
      Some (map (GetScalar x) (seq (Z.to_nat shift_len) (Z.to_nat (N - shift_len)))
            ++ fill replace_value_ shift_len)
  end.

End Elem.
End ShiftImpl.

(** ** [AutoCorr] *)

(** [arrow::Result<T>]. *)
Inductive Result (A : Type) : Type :=
  | Ok (value : A)
  | Err (status : Status).
Arguments Ok {A} value.
Arguments Err {A} status.

(** Modelled from the spec: the options [{ddof, skip_nulls, min_count}] of
    section 3 at [VarianceOptions::Defaults()], which is declared in
    arrow/compute/api_aggregate.h and is not among the sources. The spec
    does not give the three values; they are the defaults of the upstream
    constructor, [ddof = 0], [skip_nulls = true], [min_count = 0]. The
    kernels below take the registered default as a parameter. *)
Definition VarianceOptions_Defaults : VarianceOptions :=
  {| ddof := 0; skip_nulls := true; min_count := 0 |}.

Module Api.
Section Carrier.
Context {D : Type} {ops : DoubleOps D}.
Context {CType : Type}.
(** What the array builder stores in the values buffer under a null. *)
Variable null_slot : CType.
Variable state_Consume :
  CovarianceState.t D -> ArraySpan CType -> ArraySpan CType ->
  Raise (CovarianceState.t D).
(** [static auto default_std_options = VarianceOptions::Defaults()], the
    options of a call of "cov" that passes none. *)
Variable default_std_options : VarianceOptions.

Definition ToArray (a : ArraySpan CType) : list (option CType) :=
  map (fun s : CType * bool => if snd s then Some (fst s) else None) a.

Definition ToSpan (a : list (option CType)) : ArraySpan CType :=
  map (fun s : option CType =>
         match s with Some v => (v, true) | None => (null_slot, false) end) a.

(** [CallFunction("shift", {input}, &options)]; [None] where the behaviour
    of [ShiftImpl::Execute] is undefined. *)
Definition Shift (values : ArraySpan CType) (periods : Z)
    (fill_value : option (option CType)) : option (ArraySpan CType) :=
  option_map ToSpan (ShiftImpl.Execute periods fill_value (ToArray values)).

(** Modelled from the spec: the host's execution of a scalar aggregate
    function on one batch (section 3, lifecycle): a state is created from
    the options, the batch is consumed into a second fresh state, that state
    is merged into the first, and the first is finalized. *)
Definition CallCov (options : VarianceOptions)
    (x y : ArraySpan CType) : Raise (Result (option D)) :=
  let state := CovarianceState.init 0 options in
  let batch_state := CovarianceState.init 0 options in
  match CovarianceImpl.Consume state_Consume batch_state (ArrayValue x) (ArrayValue y) with
  | Throw what => Throw what
  | Normal (OK, batch_state) =>
    let '(_, state) := CovarianceImpl.MergeFrom state batch_state in
    Normal (Ok (CovarianceImpl.Finalize state))
  | Normal (status, _) => Normal (Err status)
  end.

(** Modelled from the spec: [Variance] (arrow/compute/api_aggregate.h) is
    not among the sources; section 8 has it equal to the self-covariance
    under the same options. *)
Definition Variance (input : ArraySpan CType) : Raise (Result (option D)) :=
  CallCov default_std_options input input.

(** Modelled from the spec: the host's "divide" on double scalars, null in
    either operand giving null (section 4.5). *)
Definition divide (a b : option D) : Raise (Result (option D)) :=
  match a, b with
  | Some a, Some b => Normal (Ok (Some (a / b)%dbl))
  | _, _ => Normal (Ok None)
  end.

(** [ARROW_ASSIGN_OR_RAISE]. *)
Definition assign_or_raise {A B : Type} (r : Raise (Result A))
    (k : A -> Raise (Result B)) : Raise (Result B) :=
  match r with
  | Throw what => Throw what
  | Normal (Err status) => Normal (Err status)
  | Normal (Ok value) => k value
  end.

(** [lag] is an [int]; the result is [None] where the shift is undefined. *)
Definition AutoCorr (input : ArraySpan CType) (lag : Z)
    : option (Raise (Result (option D))) :=
  if Span.length input <? lag then
    Some (Normal (Err (Invalid "Lag cannot be greater than the length of the array")))
  else
    match Shift input lag (Some None) with
    | None => None
    | Some shifted_array =>
      Some
        (assign_or_raise (CallCov default_std_options input shifted_array)
           (fun covariance =>
         assign_or_raise (Variance input)
           (fun variance =>
         assign_or_raise (divide covariance variance)
           (fun correlation =>
         divide correlation
           (Some (of_int (wrap64 (Span.length input - 1 - lag))))))))
    end.

End Carrier.
End Api.

(** The instantiations of the kernels used below: the narrow integer types
    (a [void] member function, which always returns), among them
    [Int32Type], and [DoubleType] on the other path, where
    [GetSumType] is [double] and [SumArray] sums the values themselves. *)
Definition Narrow_Consume {D : Type} {ops : DoubleOps D} (ty : NarrowInt)
    (this : CovarianceState.t D) (x y : ArraySpan Z) : Raise (CovarianceState.t D) :=
  Normal (IntegerPath.Consume ty this x y).

Definition Int32_Consume {D : Type} {ops : DoubleOps D}
    : CovarianceState.t D -> ArraySpan Z -> ArraySpan Z -> Raise (CovarianceState.t D) :=
  Narrow_Consume Int32.

Definition Double_Consume {D : Type} {ops : DoubleOps D}
    (this : CovarianceState.t D) (x y : ArraySpan D) : Raise (CovarianceState.t D) :=
  FloatPath.Consume (dzero : D) (fun v : D => v)
    (fun a => Summation.SumArray (dzero : D) a (fun v : D => v)) (fun s : D => s)
    this x y.

(** ** Vocabulary of the statements *)

(** The valid elements of an array, [length - GetNullCount()], and "no
    null in either operand". *)
Definition valid_count {C : Type} (a : ArraySpan C) : Z :=
  Span.length a - Span.GetNullCount a.

Definition no_nulls {C : Type} (x y : ArraySpan C) : bool :=
  (Span.GetNullCount x =? 0) && (Span.GetNullCount y =? 0).

(** The exact moments of a paired sample, on the rationals. *)
Module Moments.

Definition total (l : list Qc) : Qc := fold_right Qcplus 0%Qc l.

Definition size (l : list (Qc * Qc)) : Qc := of_int (Z.of_nat (List.length l)).

Definition mean_of (proj : Qc * Qc -> Qc) (l : list (Qc * Qc)) : Qc :=
  (total (map proj l) / size l)%Qc.

(** The sum of the products of the deviations from [(mx, my)]. *)
Definition co_moment (mx my : Qc) (l : list (Qc * Qc)) : Qc :=
  total (map (fun p => ((fst p - mx) * (snd p - my))%Qc) l).

(** [s] holds the count, the means and the centred cross-moment of [l]. *)
Definition summarises (s : CovarianceState.t Qc) (l : list (Qc * Qc)) : Prop :=
  CovarianceState.count s = Z.of_nat (List.length l)
  /\ CovarianceState.mean_x s = mean_of fst l
  /\ CovarianceState.mean_y s = mean_of snd l
  /\ CovarianceState.m_xy s = co_moment (mean_of fst l) (mean_of snd l) l.

End Moments.

(** The exact integer sums of a list of pairs. *)
Module ExactSums.

Definition sum_x (l : list (Z * Z)) : Z := fold_right Z.add 0 (map fst l).

Definition sum_y (l : list (Z * Z)) : Z := fold_right Z.add 0 (map snd l).

Definition sum_xy (l : list (Z * Z)) : Z :=
  fold_right Z.add 0 (map (fun p => fst p * snd p) l).

End ExactSums.

(** [ConsumeOne] on each pair of [l] in turn. *)
Definition consume_all (c : IntegerCovariance.t) (l : list (Z * Z))
    : IntegerCovariance.t :=
  fold_left (fun c p => IntegerCovariance.ConsumeOne c (fst p) (snd p)) l c.

(** No operation of [ConsumeOne(value_x, value_y)] on [c] leaves its type:
    the three 64-bit additions, the 128-bit product and the 128-bit
    addition. *)
Definition no_overflow (c : IntegerCovariance.t) (value_x value_y : Z) : Prop :=
  in_signed 64 (IntegerCovariance.count c + 1)
  /\ in_signed 64 (IntegerCovariance.sum_x c + value_x)
  /\ in_signed 64 (IntegerCovariance.sum_y c + value_y)
  /\ in_signed 128 (value_x * value_y)
  /\ in_signed 128 (IntegerCovariance.sum_xy c + value_x * value_y).

(** ... at every step of [consume_all c l]. *)
Fixpoint never_overflows (c : IntegerCovariance.t) (l : list (Z * Z)) : Prop :=
  match l with
  | [] => True
  | p :: rest =>
    no_overflow c (fst p) (snd p)
    /\ never_overflows (IntegerCovariance.ConsumeOne c (fst p) (snd p)) rest
  end.

(** The least and the greatest value of [c_type]. *)
Definition ctype_min (ty : NarrowInt) : Z :=
  if is_signed ty then - 2 ^ (bitwidth ty - 1) else 0.

Definition ctype_max (ty : NarrowInt) : Z :=
  if is_signed ty then 2 ^ (bitwidth ty - 1) - 1 else 2 ^ bitwidth ty - 1.

(** After [k] elements of [c_type] the sums are within [k] times the
    extreme values. *)
Definition within (ty : NarrowInt) (k : Z) (c : IntegerCovariance.t) : Prop :=
  IntegerCovariance.count c = k
  /\ k * ctype_min ty <= IntegerCovariance.sum_x c <= k * ctype_max ty
  /\ k * ctype_min ty <= IntegerCovariance.sum_y c <= k * ctype_max ty
  /\ - (k * 2 ^ (2 * bitwidth ty)) <= IntegerCovariance.sum_xy c
     <= k * 2 ^ (2 * bitwidth ty).

(** The pairs that [IntegerPath.accumulate] passes to [ConsumeOne], in
    order: those at the valid positions of [slice_x]. *)
Definition run_pairs (slice_x slice_y : ArraySpan Z) (run : nat * nat)
    : list (Z * Z) :=
  map (fun i => (Span.value_at 0 slice_x (fst run + i),
                 Span.value_at 0 slice_y (fst run + i)))
      (seq 0 (snd run)).

Definition visited (slice_x slice_y : ArraySpan Z) : list (Z * Z) :=
  flat_map (run_pairs slice_x slice_y) (Span.SetBitRuns slice_x).

(** Every entry of the values buffer is a value of [c_type], under a null
    too. *)
Definition slots_in (ty : NarrowInt) (a : ArraySpan Z) : Prop :=
  Forall (fun s => in_ctype ty (fst s)) a.

(** A sequence of [Consume] and [MergeFrom] calls on one accumulator. *)
Inductive call (C D : Type) : Type :=
  | CallConsume (x y : ArraySpan C)
  | CallMergeFrom (other : CovarianceState.t D).
Arguments CallConsume {C D} x y.
Arguments CallMergeFrom {C D} other.

Section Calls.
Context {D : Type} {ops : DoubleOps D} {C : Type}.
Variable state_Consume :
  CovarianceState.t D -> ArraySpan C -> ArraySpan C -> Raise (CovarianceState.t D).

Definition run_call (r : Raise (CovarianceState.t D)) (c : call C D)
    : Raise (CovarianceState.t D) :=
  match r with
  | Throw what => Throw what
  | Normal s =>
    match c with
    | CallConsume x y => state_Consume s x y
    | CallMergeFrom other => Normal (CovarianceState.MergeFrom s other)
    end
  end.

Definition run_calls (s : CovarianceState.t D) (calls : list (call C D))
    : Raise (CovarianceState.t D) :=
  fold_left run_call calls (Normal s).

(** "That chunk contained no null in either operand"; for a merged state,
    its own flag. *)
Definition call_flag (c : call C D) : bool :=
  match c with
  | CallConsume x y => no_nulls x y
  | CallMergeFrom other => CovarianceState.all_valid other
  end.

(** The flag as the calls leave it: a [Consume] replaces it, a [MergeFrom]
    conjoins. *)
Definition flag_after (initial : bool) (calls : list (call C D)) : bool :=
  fold_left
    (fun flag c =>
       match c with
       | CallConsume x y => no_nulls x y
       | CallMergeFrom other => flag && CovarianceState.all_valid other
       end)
    calls initial.

Definition is_merge (c : call C D) : bool :=
  match c with CallConsume _ _ => false | CallMergeFrom _ => true end.

(** No [Consume] after the first call. *)
Definition consume_first_only (calls : list (call C D)) : bool :=
  match calls with
  | [] => true
  | _ :: rest => forallb is_merge rest
  end.

End Calls.


Definition fill_scalar {A : Type} (replace_value_ : option (option A)) : option A :=
  match replace_value_ with Some scalar => scalar | None => None end.

(** ** Sample inputs *)

Definition strict_options : VarianceOptions :=
  {| ddof := 0; skip_nulls := false; min_count := 0 |}.

(** The exact state of the one-element sample [(x, y)]. *)
Definition sample_state (x y : Z) : CovarianceState.t Qc :=
  CovarianceState.mk 1 (of_int x) (of_int y) 0%Qc true 0 VarianceOptions_Defaults.

(** A state of two pairs under [ddof = -1], in binary64. *)
Definition negative_ddof_state : CovarianceState.t float :=
  CovarianceState.mk 2 1%float 1%float 6%float true 0
    {| ddof := -1; skip_nulls := true; min_count := 0 |}.

(** Arrays without nulls. *)
Definition ints (l : list Z) : ArraySpan Z := map (fun v => (v, true)) l.

Definition doubles (l : list float) : ArraySpan float := map (fun v => (v, true)) l.

(** A chunk of two [int32] pairs consumed under [skip_nulls = false]: once
    without nulls, once with a null in [x]. *)
Definition strict_clean : CovarianceState.t float :=
  IntegerPath.Consume Int32 (CovarianceState.init 0 strict_options)
    (ints [1; 2]) (ints [3; 4]).

Definition strict_nully : CovarianceState.t float :=
  IntegerPath.Consume Int32 (CovarianceState.init 0 strict_options)
    [(1, true); (0, false)] (ints [3; 4]).

(** The same two chunks consumed one after the other into one state. *)
Definition two_consumes : list (call Z float) :=
  [CallConsume [(1, true); (0, false)] (ints [3; 4]);
   CallConsume (ints [1; 2]) (ints [3; 4])].

(** A [double] chunk consumed under [skip_nulls = false], and a second chunk
    with one valid pair and one null pair. *)
Definition first_chunk : CovarianceState.t float :=
  match Double_Consume (CovarianceState.init 0 strict_options)
          (doubles [1; 2]%float) (doubles [3; 4]%float) with
  | Normal s => s
  | Throw _ => CovarianceState.init 0 strict_options
  end.

Definition nully_x : ArraySpan float := [(1%float, true); (0%float, false)].

Definition nully_y : ArraySpan float := [(3%float, true); (0%float, false)].

(** ** [PctChange] *)

Module PctChange.
Section Carrier.
Context {D : Type} {ops : DoubleOps D}.

(** What the host answers to a call of "divide" on arrays of different
    lengths: neither the sources nor the specification say. [PctChange]
    divides arrays of one length whenever [|periods| <= length]. *)
Variable on_length_mismatch : Raise (Result (list (option D))).

(** Modelled from the spec: the host's element-wise "divide" and "subtract"
    on [double] arrays (arrow/compute/api_scalar.h) are not among the
    sources; section 4.5 has them null-propagating, a null in either operand
    giving a null. *)
Definition pointwise (op : D -> D -> D) (a b : option D) : option D :=
  match a, b with
  | Some a, Some b => Some (op a b)
  | _, _ => None
  end.

(** [a / b - 1.0] on two elements. *)
Definition pct (a b : option D) : option D :=
  pointwise dsub (pointwise ddiv a b) (Some (of_int 1)).

Definition divide (a b : list (option D)) : Raise (Result (list (option D))) :=
  if Nat.eqb (List.length a) (List.length b)
  then Normal (Ok (map (fun p => pointwise ddiv (fst p) (snd p)) (combine a b)))
  else on_length_mismatch.

(** [subtract] with the scalar [MakeScalar(1.0)] on the right. *)
Definition subtract_scalar (a : list (option D)) (b : D)
    : Raise (Result (list (option D))) :=
  Normal (Ok (map (fun v => pointwise dsub v (Some b)) a)).

(** [periods] is an [int]; the result is [None] where the shift is
    undefined. *)
Definition PctChange (input : list (option D)) (periods : Z)
    : option (Raise (Result (list (option D)))) :=
  if Z.of_nat (List.length input) <? periods then
    Some (Normal (Err (Invalid "Periods cannot be greater than the length of the array")))
  else
    match ShiftImpl.Execute periods (Some None) input with
    | None => None
    | Some shifted_array =>
      Some
        (Api.assign_or_raise (divide input shifted_array)
           (fun divided_array => subtract_scalar divided_array (of_int 1)))
    end.

End Carrier.
End PctChange.
(** ** Vocabulary of the further properties *)

(** What [Finalize] reads of a state: the count, the means, the
    cross-moment and the flag. *)
Definition moments {D : Type} (s : CovarianceState.t D) : Z * D * D * D * bool :=
  (CovarianceState.count s, CovarianceState.mean_x s, CovarianceState.mean_y s,
   CovarianceState.m_xy s, CovarianceState.all_valid s).

(** The exact sums of squared deviations of the two operands, and a
    correlation state that holds them for a sample. *)
Module CorrMoments.

Definition sq_moment (m : Qc) (l : list Qc) : Qc :=
  Moments.total (map (fun v => ((v - m) * (v - m))%Qc) l).

(** The sample of one operand paired with itself: its cross-moment is the
    sum of squared deviations. *)
Definition diag (proj : Qc * Qc -> Qc) (l : list (Qc * Qc)) : list (Qc * Qc) :=
  map (fun p => (proj p, proj p)) l.

Definition summarises (cs : CorrelationState.t Qc) (l : list (Qc * Qc)) : Prop :=
  Moments.summarises (CorrelationState.covarianceState cs) l
  /\ CorrelationState.mx2 cs = sq_moment (Moments.mean_of fst l) (map fst l)
  /\ CorrelationState.my2 cs = sq_moment (Moments.mean_of snd l) (map snd l).

End CorrMoments.

(** A one-element sample [(x, y)] as a correlation state. *)
Definition sample_corr_state (x y : Z) : CorrelationState.t Qc :=
  CorrelationState.mk 0%Qc 0%Qc (sample_state x y).

(** ** Vocabulary of the summation *)

Module Cascade.
Section Carrier.
Context {D : Type} {ops : DoubleOps D}.
Context {CType : Type}.
Variable cnull : CType.

(** The positions of the set bits of a bitmap, counted from [pos]. *)
Fixpoint true_positions (pos : nat) (bits : list bool) : list nat :=
  match bits with
  | [] => []
  | true :: bs => pos :: true_positions (S pos) bs
  | false :: bs => true_positions (S pos) bs
  end.

(** The term of position [i], and the terms that [SumArray2WithCovariance]
    is to add: those of the valid positions of [data1], in order. *)
Definition term (func : CType -> CType -> D) (data1 data2 : ArraySpan CType)
    (i : nat) : D :=
  func (Span.value_at cnull data1 i) (Span.value_at cnull data2 i).

Definition terms (func : CType -> CType -> D) (data1 data2 : ArraySpan CType)
    : list D :=
  map (term func data1 data2) (true_positions 0 (Span.validity data1)).

(** The sums of the blocks of one run, in the order in which the visitor
    hands them to [reduce]. *)
Definition run_block_sums (func : CType -> CType -> D)
    (data1 data2 : ArraySpan CType) (run : nat * nat) : list D :=
  let '(pos, len) := run in
  let blocks := (len / Summation.kBlockSize)%nat in
  let remains := (len mod Summation.kBlockSize)%nat in
  map (fun i =>
         Summation.block_sum cnull func data1 data2
           (pos + i * Summation.kBlockSize) Summation.kBlockSize)
      (seq 0 blocks)
  ++ (if (0 <? remains)%nat
      then [Summation.block_sum cnull func data1 data2
              (pos + blocks * Summation.kBlockSize) remains]
      else []).

(** The locals of [SumArray2WithCovariance] before the first block and
    after the last run. *)
Definition levels_of (data1 : ArraySpan CType) : Z :=
  Z.log2_up (Span.length data1 - Span.GetNullCount data1) + 1.

Definition initial (data1 : ArraySpan CType) : Summation.levels :=
  Summation.mk_levels (repeat dzero (Z.to_nat (levels_of data1))) 0 0.

Definition final (func : CType -> CType -> D) (data1 data2 : ArraySpan CType)
    : Summation.levels :=
  fold_left (Summation.visit_run cnull func data1 data2)
    (Span.SetBitRuns data1) (initial data1).

(** The buffer has [L] levels, the mask counts [k] blocks, the root is a
    level of the buffer and nothing is pending above it. *)
Definition invariant (L : nat) (k : Z) (st : Summation.levels) : Prop :=
  Summation.mask st = k
  /\ List.length (Summation.sum st) = L
  /\ (Summation.root_level st < L)%nat
  /\ (forall j : nat, (Summation.root_level st < j)%nat ->
       Summation.get_at j (Summation.sum st) = dzero).

End Carrier.
End Cascade.

(** The sum of [func] over the pairs of slots at which the first array is
    valid. *)
Definition sum_where_valid {CType : Type} (func : CType -> CType -> Qc)
    (data1 data2 : ArraySpan CType) : Qc :=
  Moments.total
    (map (fun s => func (fst (fst s)) (fst (snd s)))
       (filter (fun s => snd (fst s)) (combine data1 data2))).

(** The pairs of values at the slots at which the first array is valid, and
    integer pairs read as rationals. *)
Definition valid_pairs {CType : Type} (x y : ArraySpan CType) : list (CType * CType) :=
  map (fun s => (fst (fst s), fst (snd s)))
    (filter (fun s => snd (fst s)) (combine x y)).

Definition exact_pairs (l : list (Z * Z)) : list (Qc * Qc) :=
  map (fun p => (of_int (fst p), of_int (snd p))) l.

(** The covariance of a paired sample with [ddof] delta degrees of freedom:
    the sum of the products of the deviations from the two means over
    [n - ddof]. *)
Definition sample_covariance (ddof : Z) (l : list (Qc * Qc)) : Qc :=
  (Moments.co_moment (Moments.mean_of fst l) (Moments.mean_of snd l) l
   / of_int (Z.of_nat (List.length l) - ddof))%Qc.

(** * Properties *)

(** ** Machine integers and the exact carrier *)

Lemma wrap_signed_id (w z : Z) :
  0 < w -> in_signed w z -> wrap_signed w z = z.
Proof.
  unfold in_signed, wrap_signed. intros Hw Hz.
  assert (E : 2 ^ w = 2 * 2 ^ (w - 1)).
  { replace w with (Z.succ (w - 1)) at 1 by lia. apply Z.pow_succ_r. lia. }
  rewrite Z.mod_small; lia.
Qed.

Lemma wrap64_id (z : Z) : - 2 ^ 63 <= z < 2 ^ 63 -> wrap64 z = z.
Proof. intros. apply wrap_signed_id; [lia | exact H]. Qed.

Lemma wrap128_id (z : Z) : - 2 ^ 127 <= z < 2 ^ 127 -> wrap128 z = z.
Proof. intros. apply wrap_signed_id; [lia | exact H]. Qed.

Lemma of_int_add (a b : Z) :
  of_int (D := Qc) (a + b) = (of_int a + of_int b)%Qc.
Proof.
  change (Q2Qc (inject_Z (a + b)) = (Q2Qc (inject_Z a) + Q2Qc (inject_Z b))%Qc).
  apply Qc_is_canon. unfold Qcplus, Q2Qc. cbn [this].
  rewrite !Qred_correct, inject_Z_plus. reflexivity.
Qed.

Lemma of_int_mul (a b : Z) :
  of_int (D := Qc) (a * b) = (of_int a * of_int b)%Qc.
Proof.
  change (Q2Qc (inject_Z (a * b)) = (Q2Qc (inject_Z a) * Q2Qc (inject_Z b))%Qc).
  apply Qc_is_canon. unfold Qcmult, Q2Qc. cbn [this].
  rewrite !Qred_correct, inject_Z_mult. reflexivity.
Qed.

Lemma of_int_neq0 (a : Z) : a <> 0 -> of_int (D := Qc) a <> 0%Qc.
Proof.
  intros Ha E. apply Ha.
  change (Q2Qc (inject_Z a) = Q2Qc 0) in E.
  apply (f_equal this) in E. unfold Q2Qc in E. cbn [this] in E.
  assert (H : (inject_Z a == 0)%Q).
  { rewrite <- (Qred_correct (inject_Z a)), E. apply Qred_correct. }
  unfold Qeq in H. simpl in H. lia.
Qed.

Lemma of_int_succ (n : nat) :
  of_int (D := Qc) (Z.of_nat (S n)) = (of_int (Z.of_nat n) + 1)%Qc.
Proof. rewrite Nat2Z.inj_succ. unfold Z.succ. rewrite of_int_add. reflexivity. Qed.

Lemma of_int_sub (a b : Z) :
  of_int (D := Qc) (a - b) = (of_int a - of_int b)%Qc.
Proof.
  assert (E : (of_int (a - b) + of_int b = of_int a)%Qc).
  { rewrite <- of_int_add. f_equal. lia. }
  rewrite <- E. ring.
Qed.

(** ** The merge identity *)

Section AnyCarrier.
Context {D : Type} {ops : DoubleOps D}.
Import CovarianceState.

(** The general branch of [MergeFrom], whatever the arithmetic. *)
Lemma MergeFrom_general (s1 s2 : t D) :
  0 < count s1 -> 0 < count s2 -> count s1 + count s2 <= INT64_MAX ->
  MergeFrom s1 s2 =
  let n := count s1 + count s2 in
  let mx := MergeMean n (count s1) (count s2) (mean_x s1) (mean_x s2) in
  let my := MergeMean n (count s1) (count s2) (mean_y s1) (mean_y s2) in
  mk n mx my
    (m_xy s1 +
      (m_xy s2
       + of_int (count s1) * (mean_x s1 - mx) * (mean_y s1 - my)
       + of_int (count s2) * (mean_x s2 - mx) * (mean_y s2 - my)))%dbl
    (all_valid s1 && all_valid s2) (decimal_scale s1) (options s1).
Proof.
  intros H1 H2 H3. unfold MergeFrom.
  cbn [count set_all_valid mean_x mean_y m_xy all_valid decimal_scale options].
  destruct (Z.eqb_spec (count s2) 0) as [E|_]; [lia|].
  destruct (Z.eqb_spec (count s1) 0) as [E|_]; [lia|].
  rewrite wrap64_id by (unfold INT64_MAX in H3; lia).
  reflexivity.
Qed.
End AnyCarrier.

(** In exact arithmetic. *)

Section MergeIdentity.
Import Moments.
Import CovarianceState.
Local Open Scope Qc_scope.

Lemma total_nil : total [] = 0.
Proof. reflexivity. Qed.

Lemma total_cons (a : Qc) (l : list Qc) : total (a :: l) = a + total l.
Proof. reflexivity. Qed.

Lemma total_app (l1 l2 : list Qc) : total (l1 ++ l2) = total l1 + total l2.
Proof.
  induction l1 as [|a l1 IH].
  - rewrite app_nil_l, total_nil. ring.
  - rewrite <- app_comm_cons, !total_cons, IH. ring.
Qed.

Lemma size_app (l1 l2 : list (Qc * Qc)) : size (l1 ++ l2) = size l1 + size l2.
Proof.
  unfold size. rewrite length_app, Nat2Z.inj_add. apply of_int_add.
Qed.

Lemma size_neq0 (l : list (Qc * Qc)) : l <> [] -> size l <> 0.
Proof.
  intros Hl. apply of_int_neq0. destruct l; [congruence | simpl; lia].
Qed.

Lemma co_moment_app (a b : Qc) (l1 l2 : list (Qc * Qc)) :
  co_moment a b (l1 ++ l2) = co_moment a b l1 + co_moment a b l2.
Proof. unfold co_moment. rewrite map_app. apply total_app. Qed.

(** The cross-moment about any centre, through the raw sums. *)
Lemma co_moment_expand (a b : Qc) (l : list (Qc * Qc)) :
  co_moment a b l =
  total (map (fun p => fst p * snd p) l)
  - a * total (map snd l) - b * total (map fst l) + size l * a * b.
Proof.
  unfold co_moment, size. induction l as [|[x y] l IH].
  - cbn [map List.length]. rewrite !total_nil.
    change (of_int (D := Qc) (Z.of_nat 0)) with 0. ring.
  - cbn [map List.length fst snd]. rewrite !total_cons, of_int_succ, IH. ring.
Qed.

(** Moving the centre away from the means of the sample. *)
Lemma co_moment_recentre (a b : Qc) (l : list (Qc * Qc)) :
  l <> [] ->
  co_moment a b l =
  co_moment (mean_of fst l) (mean_of snd l) l
  + size l * (mean_of fst l - a) * (mean_of snd l - b).
Proof.
  intros Hl. pose proof (size_neq0 l Hl) as Hn.
  rewrite !co_moment_expand. unfold mean_of. field. exact Hn.
Qed.

Lemma mean_of_app (proj : Qc * Qc -> Qc) (l1 l2 : list (Qc * Qc)) :
  l1 <> [] -> l2 <> [] ->
  mean_of proj (l1 ++ l2) =
  (mean_of proj l1 * size l1 + mean_of proj l2 * size l2) / (size l1 + size l2).
Proof.
  intros H1 H2. pose proof (size_neq0 l1 H1) as Hn1.
  pose proof (size_neq0 l2 H2) as Hn2.
  assert (Hn : size l1 + size l2 <> 0).
  { rewrite <- size_app. apply size_neq0. destruct l1; [congruence | discriminate]. }
  unfold mean_of. rewrite map_app, total_app, size_app. field. auto.
Qed.

(** C1. For states with [count1 > 0] and [count2 > 0] (whose sum is an
    [int64_t]), [MergeFrom] sets the count to [count1 + count2], each mean to
    [(mean1 * count1 + mean2 * count2) / (count1 + count2)], and [m_xy] to
    [m_xy1 + m_xy2 + count1 * (mean_x1 - mean_x) * (mean_y1 - mean_y)
     + count2 * (mean_x2 - mean_x) * (mean_y2 - mean_y)]; in exact arithmetic
    the merged state is the state of the concatenation of the two samples. *)
Theorem MergeFrom_merge_identity (s1 s2 : t Qc) :
  (0 < count s1)%Z -> (0 < count s2)%Z ->
  (count s1 + count s2 <= INT64_MAX)%Z ->
  let r := MergeFrom s1 s2 in
  let c1 := of_int (count s1) in
  let c2 := of_int (count s2) in
  count r = (count s1 + count s2)%Z
  /\ mean_x r = (mean_x s1 * c1 + mean_x s2 * c2) / of_int (count s1 + count s2)
  /\ mean_y r = (mean_y s1 * c1 + mean_y s2 * c2) / of_int (count s1 + count s2)
  /\ m_xy r =
     m_xy s1 + m_xy s2
     + c1 * (mean_x s1 - mean_x r) * (mean_y s1 - mean_y r)
     + c2 * (mean_x s2 - mean_x r) * (mean_y s2 - mean_y r)
  /\ (forall l1 l2 : list (Qc * Qc),
        summarises s1 l1 -> summarises s2 l2 -> summarises r (l1 ++ l2)).
Proof.
  intros H1 H2 H3 r c1 c2. subst r.
  rewrite (MergeFrom_general s1 s2 H1 H2 H3).
  cbv zeta. cbn [count mean_x mean_y m_xy].
  unfold MergeMean. change (@dadd Qc _) with Qcplus. change (@dsub Qc _) with Qcminus.
  change (@dmul Qc _) with Qcmult. change (@ddiv Qc _) with Qcdiv.
  fold c1 c2.
  split; [reflexivity|]. split; [reflexivity|]. split; [reflexivity|].
  split; [ring|].
  intros l1 l2 (Hc1 & Hx1 & Hy1 & Hm1) (Hc2 & Hx2 & Hy2 & Hm2).
  assert (N1 : l1 <> []) by (intros ->; simpl in Hc1; lia).
  assert (N2 : l2 <> []) by (intros ->; simpl in Hc2; lia).
  unfold summarises. cbn [count mean_x mean_y m_xy].
  rewrite (mean_of_app fst l1 l2 N1 N2), (mean_of_app snd l1 l2 N1 N2).
  rewrite co_moment_app.
  rewrite (co_moment_recentre _ _ l1 N1), (co_moment_recentre _ _ l2 N2).
  rewrite of_int_add. subst c1 c2.
  rewrite Hm1, Hm2, Hx1, Hx2, Hy1, Hy2, Hc1, Hc2. unfold size.
  split; [rewrite length_app; lia|].
  split; [reflexivity|]. split; [reflexivity|]. ring.
Qed.

Lemma MergeFrom_merge_identity_witness :
  (0 < count (sample_state 1 2))%Z
  /\ (0 < count (sample_state 3 4))%Z
  /\ (count (sample_state 1 2) + count (sample_state 3 4) <= INT64_MAX)%Z
  /\ count (MergeFrom (sample_state 1 2) (sample_state 3 4)) = 2%Z.
Proof.
  assert (H : (count (sample_state 1 2) + count (sample_state 3 4) <= INT64_MAX)%Z)
    by discriminate.
  split; [reflexivity|]. split; [reflexivity|]. split; [exact H|].
  exact (proj1 (MergeFrom_merge_identity (sample_state 1 2) (sample_state 3 4)
                  eq_refl eq_refl H)).
Defined.

End MergeIdentity.

(** ** The empty state in [MergeFrom] *)

Section EmptyState.
Context {D : Type} {ops : DoubleOps D}.
Import CovarianceState.

Lemma set_all_valid_same (s : t D) : set_all_valid (all_valid s) s = s.
Proof. destruct s; reflexivity. Qed.

(** C2, as amended. Merging a state [e] of count 0 into [s] leaves the
    count, the means and [m_xy] of [s] as they are and sets [all_valid] to
    the conjunction of the two flags, so it changes nothing when [e] carries
    no null; merging a non-empty [o] into a receiver [r] of count 0 gives [r]
    the count, the means and [m_xy] of [o], with the conjunction of the flags
    and the receiver's own options; a correlation state merges its wrapped
    covariance state in exactly this way. *)
Theorem MergeFrom_empty_identity (s e r o : t D) :
  count e = 0 -> count r = 0 -> count o <> 0 ->
  MergeFrom s e = set_all_valid (all_valid s && all_valid e) s
  /\ (MergeFrom s e = s <-> all_valid s && all_valid e = all_valid s)
  /\ (all_valid e = true -> MergeFrom s e = s)
  /\ MergeFrom r o =
     mk (count o) (mean_x o) (mean_y o) (m_xy o)
        (all_valid r && all_valid o) (decimal_scale r) (options r)
  /\ (forall cs ce : CorrelationState.t D,
        CorrelationState.covarianceState (CorrelationState.MergeFrom cs ce) =
        MergeFrom (CorrelationState.covarianceState cs)
                  (CorrelationState.covarianceState ce)).
Proof.
  intros He Hr Ho.
  assert (E : MergeFrom s e = set_all_valid (all_valid s && all_valid e) s).
  { unfold MergeFrom. rewrite He. reflexivity. }
  split; [exact E|]. split; [|split].
  - rewrite E. split; intros H.
    + apply (f_equal all_valid) in H. destruct s. exact H.
    + rewrite H. apply set_all_valid_same.
  - intros Hv. rewrite E, Hv, andb_true_r. apply set_all_valid_same.
  - split.
    + unfold MergeFrom.
      destruct (Z.eqb_spec (count o) 0) as [Z0|_]; [contradiction|].
      cbn [count set_all_valid all_valid decimal_scale options].
      rewrite Hr. reflexivity.
    + intros cs ce. reflexivity.
Qed.

End EmptyState.

Lemma MergeFrom_empty_identity_witness :
  CovarianceState.count strict_nully = 0
  /\ CovarianceState.count (CovarianceState.init (D := float) 0 strict_options) = 0
  /\ CovarianceState.count strict_clean <> 0
  /\ CovarianceState.MergeFrom strict_clean strict_nully =
     CovarianceState.set_all_valid false strict_clean.
Proof.
  assert (He : CovarianceState.count strict_nully = 0) by reflexivity.
  assert (Hr : CovarianceState.count (CovarianceState.init (D := float) 0 strict_options) = 0)
    by reflexivity.
  assert (Ho : CovarianceState.count strict_clean <> 0) by discriminate.
  split; [exact He|]. split; [exact Hr|]. split; [exact Ho|].
  exact (proj1 (MergeFrom_empty_identity strict_clean strict_nully
                  (CovarianceState.init 0 strict_options) strict_clean He Hr Ho)).
Defined.

(** C2 as stated fails: the state left by a chunk that has a null under
    [skip_nulls = false] has count 0, and merging it is not a no-op. *)
Lemma MergeFrom_empty_not_noop :
  CovarianceState.count strict_nully = 0
  /\ CovarianceState.all_valid strict_clean = true
  /\ CovarianceState.all_valid
       (CovarianceState.MergeFrom strict_clean strict_nully) = false
  /\ CovarianceState.MergeFrom strict_clean strict_nully <> strict_clean.
Proof.
  split; [reflexivity|]. split; [reflexivity|]. split; [reflexivity|].
  intros H. apply (f_equal CovarianceState.all_valid) in H.
  vm_compute in H. discriminate H.
Qed.

(** The sums of squared deviations are outside C2: [MergeVarStd2] has no
    test of the counts. In binary64 the merge of two fresh correlation
    states divides zero by zero. *)
Lemma CorrelationState_MergeFrom_fresh :
  CorrelationState.mx2
    (CorrelationState.MergeFrom
       (CorrelationState.init (D := float) 0 VarianceOptions_Defaults)
       (CorrelationState.init 0 VarianceOptions_Defaults)) = nan.
Proof. reflexivity. Qed.

(** ** [Finalize] *)

Section Finalize.
Context {D : Type} {ops : DoubleOps D} {sq : DoubleSqrt D}.
Import CovarianceState.

(** The three reasons for "no value", as a proposition. *)
Lemma no_value_iff (s : t D) :
  CovarianceImpl.no_value s = true <->
  count s <= ddof (options s)
  \/ count s < min_count (options s)
  \/ (all_valid s = false /\ skip_nulls (options s) = false).
Proof.
  unfold CovarianceImpl.no_value.
  rewrite !orb_true_iff, andb_true_iff, !negb_true_iff, Z.leb_le, Z.ltb_lt.
  tauto.
Qed.

(** C5. [Finalize] gives "no value" exactly when [count <= ddof], or
    [count < min_count], or [all_valid] is false while [skip_nulls] is false;
    otherwise the covariance aggregator gives [m_xy / (count - ddof)]. With
    the other conditions met, [count = ddof] gives "no value" and
    [count = ddof + 1] a number. The correlation aggregator has the same
    gate; past it, it gives [covar / (std_x * std_y)] with
    [covar = m_xy / (count - ddof)] and [std = sqrt (m2 / (count - ddof))].
    [ddof] may be negative; the values are read where [count - ddof] is an
    [int64_t]. *)
Theorem Finalize_no_value_iff (s : t D) (cs : CorrelationState.t D) :
  let gate (s : t D) :=
    count s <= ddof (options s)
    \/ count s < min_count (options s)
    \/ (all_valid s = false /\ skip_nulls (options s) = false) in
  let n (s : t D) := of_int (count s - ddof (options s)) in
  let cov := CorrelationState.covarianceState cs in
  (CovarianceImpl.Finalize s = None <-> gate s)
  /\ (~ gate s -> count s - ddof (options s) <= INT64_MAX ->
      CovarianceImpl.Finalize s = Some (m_xy s / n s)%dbl)
  /\ (count s = ddof (options s) -> CovarianceImpl.Finalize s = None)
  /\ (count s = ddof (options s) + 1 ->
      min_count (options s) <= count s ->
      all_valid s = true \/ skip_nulls (options s) = true ->
      CovarianceImpl.Finalize s = Some (m_xy s / of_int 1)%dbl)
  /\ (CorrelationImpl.Finalize cs = None <-> gate cov)
  /\ (~ gate cov -> count cov - ddof (options cov) <= INT64_MAX ->
      CorrelationImpl.Finalize cs =
      Some ((m_xy cov / n cov)
            / (dsqrt (CorrelationState.mx2 cs / n cov)
               * dsqrt (CorrelationState.my2 cs / n cov)))%dbl).
Proof.
  intros gate n cov.
  assert (G : forall s, CovarianceImpl.no_value s = true <-> gate s)
    by exact no_value_iff.
  assert (W : forall s : t D,
            ~ gate s -> count s - ddof (options s) <= INT64_MAX ->
            wrap64 (count s - ddof (options s)) = count s - ddof (options s)).
  { intros s0 Hg Hfit. apply wrap64_id.
    assert (~ count s0 <= ddof (options s0)) by (intros H; apply Hg; left; exact H).
    unfold INT64_MAX in Hfit. lia. }
  assert (V : ~ gate s -> count s - ddof (options s) <= INT64_MAX ->
              CovarianceImpl.Finalize s = Some (m_xy s / n s)%dbl).
  { intros Hg Hfit. unfold CovarianceImpl.Finalize.
    destruct (CovarianceImpl.no_value s) eqn:E.
    - apply G in E. contradiction.
    - rewrite (W s Hg Hfit). reflexivity. }
  split; [|split; [exact V|split; [|split; [|split]]]].
  - unfold CovarianceImpl.Finalize.
    destruct (CovarianceImpl.no_value s) eqn:E.
    + apply G in E. split; [intros _; exact E | reflexivity].
    + split; [discriminate|]. intros Hg. apply G in Hg. congruence.
  - intros E. unfold CovarianceImpl.Finalize.
    replace (CovarianceImpl.no_value s) with true; [reflexivity|].
    symmetry. apply no_value_iff. left. lia.
  - intros E Hm Hv. rewrite V.
    + unfold n. replace (count s - ddof (options s)) with 1 by lia. reflexivity.
    + intros [H|[H|[H1 H2]]]; [lia|lia|].
      destruct Hv as [Hv|Hv]; congruence.
    + unfold INT64_MAX. lia.
  - subst cov. unfold CorrelationImpl.Finalize.
    fold (CovarianceImpl.no_value (CorrelationState.covarianceState cs)).
    destruct (CovarianceImpl.no_value (CorrelationState.covarianceState cs)) eqn:E.
    + apply G in E. split; [intros _; exact E | reflexivity].
    + split; [discriminate|]. intros Hg. apply G in Hg. congruence.
  - subst cov. intros Hg Hfit. unfold CorrelationImpl.Finalize.
    fold (CovarianceImpl.no_value (CorrelationState.covarianceState cs)).
    destruct (CovarianceImpl.no_value (CorrelationState.covarianceState cs)) eqn:E.
    + apply G in E. contradiction.
    + cbv zeta. rewrite (W _ Hg Hfit). reflexivity.
Qed.

End Finalize.

Lemma Finalize_no_value_iff_witness :
  CovarianceState.count negative_ddof_state
    - ddof (CovarianceState.options negative_ddof_state) <= INT64_MAX
  /\ CovarianceImpl.Finalize negative_ddof_state = Some 2%float
  /\ CorrelationImpl.Finalize (CorrelationState.mk 12%float 3%float negative_ddof_state)
     = Some 1%float.
Proof.
  assert (Hfit : CovarianceState.count negative_ddof_state
                 - ddof (CovarianceState.options negative_ddof_state) <= INT64_MAX)
    by discriminate.
  assert (Hg : ~ (CovarianceState.count negative_ddof_state
                    <= ddof (CovarianceState.options negative_ddof_state)
                  \/ CovarianceState.count negative_ddof_state
                     < min_count (CovarianceState.options negative_ddof_state)
                  \/ (CovarianceState.all_valid negative_ddof_state = false
                      /\ skip_nulls (CovarianceState.options negative_ddof_state) = false))).
  { intros [H|[H|[H _]]]; [apply H; reflexivity|discriminate H|discriminate H]. }
  split; [exact Hfit|]. split.
  - exact (proj1 (proj2 (Finalize_no_value_iff negative_ddof_state
                           (CorrelationState.mk 12%float 3%float negative_ddof_state))) Hg Hfit).
  - exact (proj2 (proj2 (proj2 (proj2 (proj2
             (Finalize_no_value_iff negative_ddof_state
                (CorrelationState.mk 12%float 3%float negative_ddof_state)))))) Hg Hfit).
Defined.

(** ** The exact integer accumulator *)

Section IntegerBounds.
Import IntegerCovariance.
Variable ty : NarrowInt.

Lemma in_ctype_bounds (v : Z) :
  in_ctype ty v <-> ctype_min ty <= v <= ctype_max ty.
Proof. unfold in_ctype, ctype_min, ctype_max. destruct (is_signed ty); lia. Qed.

Lemma product_bound (x y : Z) :
  in_ctype ty x -> in_ctype ty y ->
  - 2 ^ (2 * bitwidth ty) <= x * y <= 2 ^ (2 * bitwidth ty).
Proof.
  intros Hx Hy.
  assert (Ax : Z.abs x <= 2 ^ bitwidth ty).
  { unfold in_ctype in Hx. destruct ty; cbn in Hx; cbn; lia. }
  assert (Ay : Z.abs y <= 2 ^ bitwidth ty).
  { unfold in_ctype in Hy. destruct ty; cbn in Hy; cbn; lia. }
  assert (P : Z.abs (x * y) <= 2 ^ bitwidth ty * 2 ^ bitwidth ty).
  { rewrite Z.abs_mul. apply Z.mul_le_mono_nonneg; lia. }
  replace (2 * bitwidth ty) with (bitwidth ty + bitwidth ty) by lia.
  rewrite Z.pow_add_r by (destruct ty; cbn; lia). lia.
Qed.

Lemma ConsumeOne_within (k : Z) (c : t) (x y : Z) :
  0 <= k < IntegerPath.max_length ty ->
  within ty k c -> in_ctype ty x -> in_ctype ty y ->
  no_overflow c x y
  /\ ConsumeOne c x y = mk (count c + 1) (sum_x c + x) (sum_y c + y) (sum_xy c + x * y)
  /\ within ty (k + 1) (ConsumeOne c x y).
Proof.
  intros Hk (Hc & Hsx & Hsy & Hsxy) Hx Hy.
  pose proof (product_bound x y Hx Hy) as Hp.
  apply in_ctype_bounds in Hx. apply in_ctype_bounds in Hy.
  unfold IntegerPath.max_length in Hk. rewrite Z.shiftl_1_l in Hk.
  assert (O : no_overflow c x y).
  { unfold no_overflow, in_signed. rewrite Hc.
    unfold ctype_min, ctype_max in *.
    destruct ty; cbn in *; lia. }
  split; [exact O|].
  destruct O as (O1 & O2 & O3 & O4 & O5).
  assert (E : ConsumeOne c x y =
              mk (count c + 1) (sum_x c + x) (sum_y c + y) (sum_xy c + x * y)).
  { unfold ConsumeOne, wrap64, wrap128.
    rewrite (wrap_signed_id 128 (x * y)) by (try lia; exact O4).
    rewrite !wrap_signed_id by (try lia; assumption). reflexivity. }
  split; [exact E|]. rewrite E. unfold within. cbn [count sum_x sum_y sum_xy].
  unfold ctype_min, ctype_max in *.
  destruct ty; cbn in *; lia.
Qed.

Lemma within_init : within ty 0 init.
Proof. unfold within, init. cbn. lia. Qed.

Lemma consume_all_within (l : list (Z * Z)) : forall (k : Z) (c : t),
  0 <= k -> k + Z.of_nat (List.length l) <= IntegerPath.max_length ty ->
  within ty k c ->
  Forall (fun p => in_ctype ty (fst p) /\ in_ctype ty (snd p)) l ->
  never_overflows c l
  /\ consume_all c l =
     mk (count c + Z.of_nat (List.length l)) (sum_x c + ExactSums.sum_x l)
        (sum_y c + ExactSums.sum_y l) (sum_xy c + ExactSums.sum_xy l)
  /\ within ty (k + Z.of_nat (List.length l)) (consume_all c l).
Proof.
  induction l as [|[x y] l IH]; intros k c Hk Hlen Hw Hr.
  - cbn [never_overflows consume_all fold_left List.length Z.of_nat].
    unfold ExactSums.sum_x, ExactSums.sum_y, ExactSums.sum_xy. cbn [map fold_right].
    rewrite !Z.add_0_r. destruct c. split; [exact I|]. split; [reflexivity|exact Hw].
  - inversion Hr as [|p l' [Hx Hy] Hr']; subst. cbn [fst snd] in Hx, Hy.
    rewrite length_cons, Nat2Z.inj_succ in *.
    destruct (ConsumeOne_within k c x y ltac:(lia) Hw Hx Hy) as (O & E & W).
    destruct (IH (k + 1) (ConsumeOne c x y) ltac:(lia) ltac:(lia) W Hr') as (N & E' & W').
    cbn [never_overflows consume_all fold_left fst snd].
    split; [split; assumption|].
    fold (consume_all (ConsumeOne c x y) l).
    split.
    + rewrite E'. rewrite E. cbn [count sum_x sum_y sum_xy].
      unfold ExactSums.sum_x, ExactSums.sum_y, ExactSums.sum_xy.
      cbn [map fold_right fst snd]. f_equal; lia.
    + replace (k + Z.succ (Z.of_nat (List.length l))) with (k + 1 + Z.of_nat (List.length l)) by lia.
      exact W'.
Qed.

End IntegerBounds.

Section ExactMoment.
Import IntegerCovariance.

Lemma quot_abs_le (a n : Z) : 0 < n -> Z.abs (Z.quot a n) <= Z.abs a.
Proof.
  intros Hn. rewrite <- (Z.abs_eq n) at 1 by lia.
  rewrite <- Z.quot_abs by lia. rewrite (Z.abs_eq n) by lia.
  rewrite <- (Z.quot_1_r (Z.abs a)) at 2.
  apply Z.quot_le_compat_l; lia.
Qed.

(** [m_xy] on a state whose fields are the exact sums of [n] pairs. *)
Lemma m_xy_of_sums {D : Type} {ops : DoubleOps D} (n sx sy sxy : Z) :
  0 < n -> in_signed 64 sx -> in_signed 64 sy -> in_signed 127 sxy ->
  m_xy (mk n sx sy sxy) =
  (of_int (sxy - Z.quot (sx * sy) n) - of_int (Z.rem (sx * sy) n) / of_int n)%dbl.
Proof.
  unfold in_signed. cbn [Z.sub]. intros Hn Hx Hy Hxy.
  assert (P : Z.abs (sx * sy) <= 2 ^ 63 * 2 ^ 63).
  { rewrite Z.abs_mul. apply Z.mul_le_mono_nonneg; lia. }
  unfold m_xy. cbn [sum_x sum_y sum_xy count].
  rewrite (wrap128_id (sx * sy)) by lia.
  pose proof (quot_abs_le (sx * sy) n Hn) as Q.
  rewrite wrap128_id by lia. reflexivity.
Qed.

End ExactMoment.

(** C6. For an [IntegerCovariance] built by [ConsumeOne] from a non-empty
    chunk of values of a narrow integer type (no longer than the chunk bound
    of [Consume]), the fields are the exact count and sums, and [m_xy()] is
    [double(sum_xy - q) - double(r) / count] with [q] and [r] the exact
    quotient and remainder of [sum_x * sum_y] by [count], [|r| < count]; only
    [sum_xy - q], [r] and [count] are converted to [double]. In exact
    arithmetic this is [sum x_i y_i - (sum x_i) (sum y_i) / count]. *)
Theorem m_xy_exact_quotient_remainder (ty : NarrowInt) (l : list (Z * Z)) :
  l <> [] ->
  Z.of_nat (List.length l) <= IntegerPath.max_length ty ->
  Forall (fun p => in_ctype ty (fst p) /\ in_ctype ty (snd p)) l ->
  let c := consume_all IntegerCovariance.init l in
  let n := Z.of_nat (List.length l) in
  let q := Z.quot (ExactSums.sum_x l * ExactSums.sum_y l) n in
  let r := Z.rem (ExactSums.sum_x l * ExactSums.sum_y l) n in
  c = IntegerCovariance.mk n (ExactSums.sum_x l) (ExactSums.sum_y l) (ExactSums.sum_xy l)
  /\ ExactSums.sum_x l * ExactSums.sum_y l = n * q + r
  /\ Z.abs r < n
  /\ (forall (D : Type) (ops : DoubleOps D),
        IntegerCovariance.m_xy c =
        (of_int (ExactSums.sum_xy l - q) - of_int r / of_int n)%dbl)
  /\ IntegerCovariance.m_xy (D := Qc) c =
     (of_int (ExactSums.sum_xy l)
      - of_int (ExactSums.sum_x l) * of_int (ExactSums.sum_y l) / of_int n)%Qc.
Proof.
  intros Hl Hlen Hr c n q r.
  assert (Hn : 0 < n) by (subst n; destruct l; [congruence | cbn; lia]).
  destruct (consume_all_within ty l 0 IntegerCovariance.init ltac:(lia) ltac:(lia)
              (within_init ty) Hr) as (_ & E & W).
  cbn [IntegerCovariance.init IntegerCovariance.count IntegerCovariance.sum_x
       IntegerCovariance.sum_y IntegerCovariance.sum_xy Z.add] in E.
  fold c n in E, W.
  split; [exact E|].
  assert (QR : ExactSums.sum_x l * ExactSums.sum_y l = n * q + r)
    by (apply Z.quot_rem'; lia).
  split; [exact QR|].
  split.
  { pose proof (Z.rem_bound_abs (ExactSums.sum_x l * ExactSums.sum_y l) n ltac:(lia)).
    fold r in H. lia. }
  assert (B : in_signed 64 (ExactSums.sum_x l) /\ in_signed 64 (ExactSums.sum_y l)
              /\ in_signed 127 (ExactSums.sum_xy l)).
  { destruct W as (_ & Wx & Wy & Wxy). rewrite E in Wx, Wy, Wxy.
    cbn [IntegerCovariance.sum_x IntegerCovariance.sum_y IntegerCovariance.sum_xy] in *.
    unfold IntegerPath.max_length in Hlen. rewrite Z.shiftl_1_l in Hlen.
    fold n in Hlen. rewrite Z.add_0_l in *.
    unfold in_signed, ctype_min, ctype_max in *.
    clearbody n q r. clear QR.
    destruct ty; cbn in *; lia. }
  destruct B as (Bx & By & Bxy).
  assert (M : forall (D : Type) (ops : DoubleOps D),
            IntegerCovariance.m_xy c =
            (of_int (ExactSums.sum_xy l - q) - of_int r / of_int n)%dbl).
  { intros D ops. rewrite E. apply m_xy_of_sums; assumption. }
  split; [exact M|].
  rewrite (M Qc exact_ops).
  change (@dsub Qc _) with Qcminus. change (@ddiv Qc _) with Qcdiv.
  rewrite <- (of_int_mul (ExactSums.sum_x l)), QR.
  rewrite of_int_sub, of_int_add, of_int_mul.
  field. apply of_int_neq0. lia.
Qed.

Lemma m_xy_exact_quotient_remainder_witness :
  [(1, 3); (2, 4)] <> []
  /\ Z.of_nat (List.length [(1, 3); (2, 4)]) <= IntegerPath.max_length Int32
  /\ Forall (fun p => in_ctype Int32 (fst p) /\ in_ctype Int32 (snd p))
       [(1, 3); (2, 4)]
  /\ consume_all IntegerCovariance.init [(1, 3); (2, 4)] =
     IntegerCovariance.mk 2 3 7 11.
Proof.
  assert (H1 : [(1, 3); (2, 4)] <> []) by discriminate.
  assert (H2 : Z.of_nat (List.length [(1, 3); (2, 4)]) <= IntegerPath.max_length Int32)
    by discriminate.
  assert (H3 : Forall (fun p => in_ctype Int32 (fst p) /\ in_ctype Int32 (snd p))
                 [(1, 3); (2, 4)]).
  { repeat constructor; discriminate. }
  split; [exact H1|]. split; [exact H2|]. split; [exact H3|].
  exact (proj1 (m_xy_exact_quotient_remainder Int32 [(1, 3); (2, 4)] H1 H2 H3)).
Defined.

(** ** The chunks of the narrow integer path *)

Section Visited.

Lemma consume_all_app (c : IntegerCovariance.t) (l1 l2 : list (Z * Z)) :
  consume_all c (l1 ++ l2) = consume_all (consume_all c l1) l2.
Proof. apply fold_left_app. Qed.

Lemma visit_run_pairs (slice_x slice_y : ArraySpan Z) (cov : IntegerCovariance.t)
    (run : nat * nat) :
  IntegerPath.visit_run slice_x slice_y cov run =
  consume_all cov (run_pairs slice_x slice_y run).
Proof.
  destruct run as [pos len]. unfold IntegerPath.visit_run, run_pairs, consume_all.
  cbn [fst snd]. generalize (seq 0 len) as idx. intros idx. revert cov.
  induction idx as [|i idx IH]; intros cov; [reflexivity|].
  cbn [map fold_left fst snd]. apply IH.
Qed.

Lemma accumulate_visited (slice_x slice_y : ArraySpan Z) :
  IntegerPath.accumulate slice_x slice_y =
  consume_all IntegerCovariance.init (visited slice_x slice_y).
Proof.
  unfold IntegerPath.accumulate, visited.
  generalize (Span.SetBitRuns slice_x) as runs. generalize IntegerCovariance.init as c.
  intros c runs. revert c. induction runs as [|r runs IH]; intros c; [reflexivity|].
  cbn [fold_left flat_map]. rewrite consume_all_app, <- visit_run_pairs. apply IH.
Qed.

(** The runs of set bits cover exactly the set bits. *)
Lemma set_bit_runs_total (bits : list bool) : forall pos cur : nat,
  list_sum (map snd (Span.set_bit_runs_from pos cur bits)) =
  (cur + List.length (filter (fun b => b) bits))%nat.
Proof.
  induction bits as [|b bits IH]; intros pos cur.
  - cbn [Span.set_bit_runs_from filter List.length].
    destruct (Nat.eqb_spec cur 0) as [-> | _]; cbn; lia.
  - destruct b; cbn [Span.set_bit_runs_from filter List.length].
    + rewrite IH. cbn [List.length]. lia.
    + rewrite map_app, list_sum_app, IH.
      destruct (Nat.eqb_spec cur 0) as [-> | _]; cbn; lia.
Qed.

Lemma visited_length (slice_x slice_y : ArraySpan Z) :
  (List.length (visited slice_x slice_y) <= List.length slice_x)%nat.
Proof.
  unfold visited. rewrite length_flat_map.
  assert (E : map (fun r => List.length (run_pairs slice_x slice_y r)) (Span.SetBitRuns slice_x)
              = map snd (Span.SetBitRuns slice_x)).
  { apply map_ext. intros r. unfold run_pairs. rewrite length_map, length_seq. reflexivity. }
  rewrite E. unfold Span.SetBitRuns. rewrite set_bit_runs_total.
  pose proof (filter_length_le (fun b : bool => b) (Span.validity slice_x)) as H.
  unfold Span.validity in *. rewrite length_map in H. lia.
Qed.

Lemma zero_in_ctype ty : in_ctype ty 0.
Proof. unfold in_ctype. destruct ty; cbn; lia. Qed.

Lemma value_at_in ty (a : ArraySpan Z) (i : nat) :
  slots_in ty a -> in_ctype ty (Span.value_at 0 a i).
Proof.
  intros Ha. unfold Span.value_at.
  destruct (nth_in_or_default i a (0, false)) as [Hin | ->].
  - unfold slots_in in Ha. rewrite Forall_forall in Ha. apply Ha. exact Hin.
  - apply zero_in_ctype.
Qed.

Lemma visited_in ty (slice_x slice_y : ArraySpan Z) :
  slots_in ty slice_x -> slots_in ty slice_y ->
  Forall (fun p => in_ctype ty (fst p) /\ in_ctype ty (snd p)) (visited slice_x slice_y).
Proof.
  intros Hx Hy. apply Forall_forall. intros p Hp.
  unfold visited in Hp. apply in_flat_map in Hp. destruct Hp as (r & _ & Hp).
  unfold run_pairs in Hp. apply in_map_iff in Hp. destruct Hp as (i & <- & _).
  cbn [fst snd]. split; apply value_at_in; assumption.
Qed.

End Visited.

Lemma In_firstn {A : Type} (n : nat) (l : list A) (a : A) :
  In a (firstn n l) -> In a l.
Proof. intros H. rewrite <- (firstn_skipn n l). apply in_or_app. left. exact H. Qed.

Lemma In_skipn {A : Type} (n : nat) (l : list A) (a : A) :
  In a (skipn n l) -> In a l.
Proof. intros H. rewrite <- (firstn_skipn n l). apply in_or_app. right. exact H. Qed.

Section Chunks.
Variable ty : NarrowInt.

Lemma max_length_pow : IntegerPath.max_length ty = 2 ^ (63 - bitwidth ty).
Proof. unfold IntegerPath.max_length. apply Z.shiftl_1_l. Qed.

Lemma max_length_pos : 0 < IntegerPath.max_length ty.
Proof. rewrite max_length_pow. destruct ty; cbn; lia. Qed.

(** What the loop does with its chunks does not change which chunks it
    makes: running it with [on_chunk] is folding [on_chunk] over the record. *)
Lemma chunk_loop_record {S : Type} (on_chunk : S -> ArraySpan Z -> ArraySpan Z -> S)
    (x y : ArraySpan Z) (fuel : nat) :
  forall (sx sy vx vy : Z) (this : S) (acc : list (ArraySpan Z * ArraySpan Z)),
  IntegerPath.chunk_loop ty IntegerPath.record_chunk fuel x y sx sy vx vy acc =
    acc ++ IntegerPath.chunk_loop ty IntegerPath.record_chunk fuel x y sx sy vx vy []
  /\ IntegerPath.chunk_loop ty on_chunk fuel x y sx sy vx vy this =
     fold_left (fun s c => on_chunk s (fst c) (snd c))
       (IntegerPath.chunk_loop ty IntegerPath.record_chunk fuel x y sx sy vx vy []) this.
Proof.
  induction fuel as [|fuel IH]; intros sx sy vx vy this acc.
  - cbn [IntegerPath.chunk_loop]. rewrite app_nil_r. split; reflexivity.
  - cbn [IntegerPath.chunk_loop].
    destruct ((0 <? vx) && (0 <? vy)); [|rewrite app_nil_r; split; reflexivity].
    cbv zeta.
    match goal with |- context [if ?b then _ else _] => destruct b end.
    + split.
      * rewrite (proj1 (IH _ _ _ _ this (IntegerPath.record_chunk acc _ _))).
        rewrite (proj1 (IH _ _ _ _ this (IntegerPath.record_chunk [] _ _))).
        unfold IntegerPath.record_chunk.
        rewrite <- !app_assoc. reflexivity.
      * rewrite (proj2 (IH _ _ _ _ _ [])).
        rewrite (proj1 (IH _ _ _ _ this (IntegerPath.record_chunk [] _ _))).
        unfold IntegerPath.record_chunk.
        rewrite fold_left_app. reflexivity.
    + apply IH.
Qed.

(** Every recorded chunk is a pair of slices no longer than [max_length]. *)
Lemma chunk_loop_slices (P : ArraySpan Z * ArraySpan Z -> Prop) (x y : ArraySpan Z) :
  (forall ox lx oy ly,
     P (Span.SetSlice x ox (Z.min (IntegerPath.max_length ty) lx), Span.SetSlice y oy (Z.min (IntegerPath.max_length ty) ly))) ->
  forall (fuel : nat) (sx sy vx vy : Z) (acc : list (ArraySpan Z * ArraySpan Z)),
  Forall P acc ->
  Forall P (IntegerPath.chunk_loop ty IntegerPath.record_chunk fuel x y sx sy vx vy acc).
Proof.
  intros HP. induction fuel as [|fuel IH]; intros sx sy vx vy acc Hacc.
  - exact Hacc.
  - cbn [IntegerPath.chunk_loop].
    destruct ((0 <? vx) && (0 <? vy)); [|exact Hacc].
    cbv zeta. apply IH.
    match goal with |- context [if ?b then _ else _] => destruct b end; [|exact Hacc].
    unfold IntegerPath.record_chunk.
    apply Forall_app. split; [exact Hacc|]. constructor; [apply HP|constructor].
Qed.

Lemma SetSlice_length (a : ArraySpan Z) (off len : Z) :
  0 <= Span.length (Span.SetSlice a off (Z.min (IntegerPath.max_length ty) len))
  <= IntegerPath.max_length ty.
Proof.
  pose proof max_length_pos as HM. unfold Span.length, Span.SetSlice.
  rewrite length_firstn. lia.
Qed.

Lemma SetSlice_slots_in (a : ArraySpan Z) (off len : Z) :
  slots_in ty a -> slots_in ty (Span.SetSlice a off len).
Proof.
  unfold slots_in, Span.SetSlice. intros Ha.
  apply Forall_forall. intros s Hs. rewrite Forall_forall in Ha. apply Ha.
  apply In_firstn in Hs. apply In_skipn in Hs. exact Hs.
Qed.

End Chunks.

Section Fuel.
Variable ty : NarrowInt.

Lemma GetNullCount_app {C : Type} (a b : ArraySpan C) :
  Span.GetNullCount (a ++ b) = Span.GetNullCount a + Span.GetNullCount b.
Proof. unfold Span.GetNullCount. rewrite filter_app, length_app. lia. Qed.

Lemma valid_count_app {C : Type} (a b : ArraySpan C) :
  valid_count (a ++ b) = valid_count a + valid_count b.
Proof.
  unfold valid_count, Span.length. rewrite GetNullCount_app, length_app. lia.
Qed.

Lemma valid_count_bounds {C : Type} (a : ArraySpan C) :
  0 <= valid_count a <= Span.length a.
Proof.
  unfold valid_count, Span.length, Span.GetNullCount.
  pose proof (filter_length_le (fun s : C * bool => negb (snd s)) a). lia.
Qed.

Lemma valid_count_split {C : Type} (n : nat) (a : ArraySpan C) :
  valid_count a = valid_count (firstn n a) + valid_count (skipn n a).
Proof. rewrite <- valid_count_app, firstn_skipn. reflexivity. Qed.

(** The loop leaves by its own condition: any fuel above the number of
    slots of [array_x] still to be sliced gives the same result. *)
Lemma chunk_loop_fuel {S : Type} (on_chunk : S -> ArraySpan Z -> ArraySpan Z -> S)
    (x y : ArraySpan Z) (fuel1 : nat) :
  forall (fuel2 : nat) (sx sy vx vy : Z) (this : S),
  0 <= sx <= Span.length x ->
  vx <= valid_count (skipn (Z.to_nat sx) x) ->
  Span.length x - sx < Z.of_nat fuel1 ->
  Span.length x - sx < Z.of_nat fuel2 ->
  IntegerPath.chunk_loop ty on_chunk fuel1 x y sx sy vx vy this =
  IntegerPath.chunk_loop ty on_chunk fuel2 x y sx sy vx vy this.
Proof.
  induction fuel1 as [|fuel1 IH]; intros fuel2 sx sy vx vy this Hsx Hvx H1 H2.
  - unfold Span.length in *. lia.
  - destruct fuel2 as [|fuel2]; [unfold Span.length in *; lia|].
    cbn [IntegerPath.chunk_loop].
    destruct ((0 <? vx) && (0 <? vy)) eqn:Hcond; [|reflexivity].
    cbv zeta. apply andb_true_iff in Hcond. destruct Hcond as [Hv _].
    apply Z.ltb_lt in Hv.
    pose proof (max_length_pos ty) as HM.
    pose proof (valid_count_bounds (skipn (Z.to_nat sx) x)) as Hb.
    assert (Hrem : Span.length (skipn (Z.to_nat sx) x) = Span.length x - sx).
    { unfold Span.length in *. rewrite length_skipn. lia. }
    assert (Hlen : Span.length
                     (Span.SetSlice x sx (Z.min (IntegerPath.max_length ty) (Span.length x - sx)))
                   = Z.min (IntegerPath.max_length ty) (Span.length x - sx)).
    { unfold Span.SetSlice. unfold Span.length in *. rewrite length_firstn. lia. }
    apply IH.
    + rewrite Hlen. lia.
    + rewrite Hlen.
      rewrite (valid_count_split
                 (Z.to_nat (Z.min (IntegerPath.max_length ty) (Span.length x - sx)))
                 (skipn (Z.to_nat sx) x)) in Hvx.
      rewrite skipn_skipn in Hvx.
      replace (Z.to_nat (sx + Z.min (IntegerPath.max_length ty) (Span.length x - sx)))
        with (Z.to_nat (Z.min (IntegerPath.max_length ty) (Span.length x - sx)) + Z.to_nat sx)%nat.
      2:{ rewrite Z2Nat.inj_add by lia. apply Nat.add_comm. }
      unfold valid_count at 1 in Hvx. unfold Span.SetSlice in *.
      rewrite Hlen in Hvx. lia.
    + rewrite Hlen. lia.
    + rewrite Hlen. lia.
Qed.

Lemma Consume_fuel {S : Type} (on_chunk : S -> ArraySpan Z -> ArraySpan Z -> S)
    (x y : ArraySpan Z) (extra : nat) (this : S) :
  IntegerPath.chunk_loop ty on_chunk (IntegerPath.loop_fuel x + extra) x y 0 0
    (valid_count x) (valid_count y) this =
  IntegerPath.chunk_loop ty on_chunk (IntegerPath.loop_fuel x) x y 0 0
    (valid_count x) (valid_count y) this.
Proof.
  apply chunk_loop_fuel.
  - unfold Span.length. lia.
  - cbn [Z.to_nat skipn]. lia.
  - unfold IntegerPath.loop_fuel, Span.length. lia.
  - unfold IntegerPath.loop_fuel, Span.length. lia.
Qed.

End Fuel.

Lemma Consume_by_chunks {D : Type} {ops : DoubleOps D} (ty : NarrowInt)
    (this : CovarianceState.t D) (x y : ArraySpan Z) :
  IntegerPath.Consume ty this x y =
  let this := CovarianceState.set_all_valid (no_nulls x y) this in
  if negb (CovarianceState.all_valid this)
     && negb (skip_nulls (CovarianceState.options this))
  then this
  else fold_left (fun s c => IntegerPath.merge_chunk s (fst c) (snd c))
         (IntegerPath.chunks ty x y) this.
Proof.
  unfold IntegerPath.Consume, IntegerPath.chunks, no_nulls. cbv zeta.
  match goal with |- context [if ?b then _ else _] => destruct b end; [reflexivity|].
  apply (chunk_loop_record ty IntegerPath.merge_chunk x y _ 0 0 _ _ _ []).
Qed.

(** C7. On the narrow integer path every pair of slices handed to a fresh
    [IntegerCovariance] has at most [2 ^ (63 - bitwidth)] slots, and for all
    element values of the type no addition into [sum_x], [sum_y] (64 bits)
    or [sum_xy] (128 bits) and no product overflows on it: the accumulator
    holds the exact sums. [Consume] is the fold of these chunks into the
    state and always returns; the aggregator answers with the OK status. *)
Theorem narrow_chunks_never_overflow (ty : NarrowInt) (array_x array_y : ArraySpan Z) :
  slots_in ty array_x -> slots_in ty array_y ->
  Forall
    (fun c =>
       let pairs := visited (fst c) (snd c) in
       Span.length (fst c) <= 2 ^ (63 - bitwidth ty)
       /\ never_overflows IntegerCovariance.init pairs
       /\ IntegerPath.accumulate (fst c) (snd c) =
          IntegerCovariance.mk (Z.of_nat (List.length pairs)) (ExactSums.sum_x pairs)
            (ExactSums.sum_y pairs) (ExactSums.sum_xy pairs))
    (IntegerPath.chunks ty array_x array_y)
  /\ (forall (D : Type) (ops : DoubleOps D) (this : CovarianceState.t D),
        let this' := CovarianceState.set_all_valid (no_nulls array_x array_y) this in
        IntegerPath.Consume ty this array_x array_y =
        (if negb (CovarianceState.all_valid this')
            && negb (skip_nulls (CovarianceState.options this'))
         then this'
         else fold_left (fun s c => IntegerPath.merge_chunk s (fst c) (snd c))
                (IntegerPath.chunks ty array_x array_y) this')
        /\ CovarianceImpl.Consume (Narrow_Consume ty) this
             (ArrayValue array_x) (ArrayValue array_y) =
           Normal (OK, IntegerPath.Consume ty this array_x array_y)).
Proof.
  intros Hx Hy. split.
  - unfold IntegerPath.chunks.
    apply chunk_loop_slices; [|constructor].
    intros ox lx oy ly. cbn [fst snd]. cbv zeta.
    pose proof (SetSlice_length ty array_x ox lx) as Hlen.
    split; [rewrite <- max_length_pow; apply Hlen|].
    set (sx := Span.SetSlice array_x ox (Z.min (IntegerPath.max_length ty) lx)) in *.
    set (sy := Span.SetSlice array_y oy (Z.min (IntegerPath.max_length ty) ly)).
    assert (Hsx : slots_in ty sx) by (apply SetSlice_slots_in; exact Hx).
    assert (Hsy : slots_in ty sy) by (apply SetSlice_slots_in; exact Hy).
    pose proof (visited_length sx sy) as Hv.
    destruct (consume_all_within ty (visited sx sy) 0 IntegerCovariance.init)
      as (N & E & _).
    + lia.
    + unfold Span.length in Hlen. lia.
    + apply within_init.
    + apply visited_in; assumption.
    + split; [exact N|]. rewrite accumulate_visited, E. reflexivity.
  - intros D ops this. split.
    + apply Consume_by_chunks.
    + reflexivity.
Qed.

Lemma narrow_chunks_never_overflow_witness :
  slots_in Int32 (ints [1; 2])
  /\ slots_in Int32 (ints [3; 4])
  /\ Forall (fun c => Span.length (fst c) <= 2 ^ (63 - bitwidth Int32))
       (IntegerPath.chunks Int32 (ints [1; 2]) (ints [3; 4])).
Proof.
  assert (Hx : slots_in Int32 (ints [1; 2])) by (repeat constructor; discriminate).
  assert (Hy : slots_in Int32 (ints [3; 4])) by (repeat constructor; discriminate).
  split; [exact Hx|]. split; [exact Hy|].
  exact (Forall_impl _ (fun c H => proj1 H)
           (proj1 (narrow_chunks_never_overflow Int32 (ints [1; 2]) (ints [3; 4]) Hx Hy))).
Defined.

(** ** The flag [all_valid] *)

Section AllValid.
Context {D : Type} {ops : DoubleOps D}.
Import CovarianceState.

Lemma MergeFrom_all_valid (s o : t D) :
  all_valid (MergeFrom s o) = all_valid s && all_valid o.
Proof.
  unfold MergeFrom. cbn [count set_all_valid all_valid].
  destruct (count o =? 0); [reflexivity|].
  destruct (count s =? 0); reflexivity.
Qed.

Lemma MergeFrom_options (s o : t D) :
  options (MergeFrom s o) = options s /\ decimal_scale (MergeFrom s o) = decimal_scale s.
Proof.
  unfold MergeFrom. cbn [count set_all_valid options decimal_scale].
  destruct (count o =? 0); [split; reflexivity|].
  destruct (count s =? 0); split; reflexivity.
Qed.

Lemma merge_chunk_all_valid (s : t D) (a b : ArraySpan Z) :
  all_valid (IntegerPath.merge_chunk s a b) = all_valid s.
Proof.
  unfold IntegerPath.merge_chunk. rewrite MergeFrom_all_valid.
  cbn [all_valid]. apply andb_true_r.
Qed.

Lemma IntegerPath_Consume_all_valid (ty : NarrowInt) (s : t D) (x y : ArraySpan Z) :
  all_valid (IntegerPath.Consume ty s x y) = no_nulls x y.
Proof.
  rewrite Consume_by_chunks. cbv zeta.
  match goal with |- context [if ?b then _ else _] => destruct b end; [reflexivity|].
  generalize (IntegerPath.chunks ty x y) as cs.
  assert (G : forall cs (s0 : t D),
            all_valid (fold_left (fun s c => IntegerPath.merge_chunk s (fst c) (snd c)) cs s0)
            = all_valid s0).
  { induction cs as [|c cs IH]; intros s0; [reflexivity|].
    cbn [fold_left]. rewrite IH. apply merge_chunk_all_valid. }
  intros cs. rewrite G. reflexivity.
Qed.

Section FloatPath.
Context {CType SumType : Type}.
Variables (cnull : CType) (ToDouble : CType -> D)
  (SumArray : ArraySpan CType -> SumType) (ToDoubleSum : SumType -> D).

Lemma FloatPath_Consume_all_valid (s s' : t D) (x y : ArraySpan CType) :
  FloatPath.Consume cnull ToDouble SumArray ToDoubleSum s x y = Normal s' ->
  all_valid s' = no_nulls x y.
Proof.
  unfold FloatPath.Consume. cbv zeta.
  destruct (negb _); [discriminate|].
  match goal with |- context [if ?b then _ else _] => destruct b end;
    intros E; injection E as <-; reflexivity.
Qed.

End FloatPath.

Lemma run_calls_flag {C : Type}
    (K : t D -> ArraySpan C -> ArraySpan C -> Raise (t D)) :
  (forall s s' x y, K s x y = Normal s' -> all_valid s' = no_nulls x y) ->
  forall (calls : list (call C D)) (s s' : t D),
    run_calls K s calls = Normal s' ->
    all_valid s' = flag_after (all_valid s) calls.
Proof.
  intros HK calls. unfold run_calls, flag_after.
  induction calls as [|c calls IH] using rev_ind; intros s s' E.
  - cbn in E. injection E as <-. reflexivity.
  - rewrite fold_left_app in E |- *. cbn [fold_left] in E |- *.
    destruct (fold_left (run_call K) calls (Normal s)) as [m|w] eqn:Em;
      [|discriminate E].
    cbn [run_call] in E. destruct c as [x y|o].
    + apply HK in E. exact E.
    + injection E as <-. rewrite MergeFrom_all_valid. f_equal.
      apply IH. exact Em.
Qed.

Lemma run_calls_Narrow (ty : NarrowInt) (calls : list (call Z D)) (s : t D) :
  exists s', run_calls (Narrow_Consume ty) s calls = Normal s'.
Proof.
  unfold run_calls. induction calls as [|c calls IH] using rev_ind.
  - exists s. reflexivity.
  - destruct IH as (m & Em). rewrite fold_left_app, Em. cbn [fold_left run_call].
    destruct c; eexists; reflexivity.
Qed.

Lemma flag_after_merges {C : Type} (merges : list (call C D)) : forall b : bool,
  forallb is_merge merges = true ->
  flag_after b merges = b && forallb call_flag merges.
Proof.
  unfold flag_after.
  induction merges as [|c merges IH]; intros b Hm.
  - cbn. rewrite andb_true_r. reflexivity.
  - cbn [forallb] in Hm. apply andb_true_iff in Hm. destruct Hm as [Hc Hm].
    destruct c as [x y|o]; [discriminate Hc|].
    cbn [fold_left forallb call_flag]. rewrite IH by exact Hm.
    rewrite andb_assoc. reflexivity.
Qed.

Lemma flag_after_discipline {C : Type} (calls : list (call C D)) :
  consume_first_only calls = true ->
  flag_after true calls = forallb call_flag calls.
Proof.
  destruct calls as [|c rest]; [reflexivity|]. cbn [consume_first_only]. intros Hm.
  destruct c as [x y|o].
  - change (flag_after true (CallConsume x y :: rest))
      with (flag_after (no_nulls x y) rest).
    rewrite flag_after_merges by exact Hm. reflexivity.
  - change (flag_after true (CallMergeFrom o :: rest))
      with (flag_after (true && all_valid o) rest).
    rewrite flag_after_merges by exact Hm. reflexivity.
Qed.

(** C3, as amended. [Consume] sets [all_valid] to "this chunk has no null
    in either operand", whatever the flag was, and [MergeFrom] sets it to the
    conjunction of the two flags; so after any sequence of calls the flag is
    [flag_after], the conjunction over the last chunk consumed and the states
    merged since. On the narrow integer path every sequence returns. When
    only the first call is a [Consume] the flag of a fresh accumulator is the
    conjunction over every chunk consumed or merged. While [all_valid] is
    false and [skip_nulls] is false, [Finalize] gives "no value". *)
Theorem all_valid_after_calls :
  (forall (ty : NarrowInt) (calls : list (call Z D)) (s : t D),
     exists s', run_calls (Narrow_Consume ty) s calls = Normal s'
                /\ all_valid s' = flag_after (all_valid s) calls)
  /\ (forall (CType SumType : Type) (cnull : CType) (ToDouble : CType -> D)
        (SumArray : ArraySpan CType -> SumType) (ToDoubleSum : SumType -> D)
        (calls : list (call CType D)) (s s' : t D),
        run_calls (FloatPath.Consume cnull ToDouble SumArray ToDoubleSum) s calls
          = Normal s' ->
        all_valid s' = flag_after (all_valid s) calls)
  /\ (forall (C : Type) (calls : list (call C D)),
        consume_first_only calls = true ->
        flag_after true calls = forallb call_flag calls)
  /\ (forall s : t D,
        all_valid s = false -> skip_nulls (options s) = false ->
        CovarianceImpl.Finalize s = None).
Proof.
  split; [|split; [|split]].
  - intros ty calls s. destruct (run_calls_Narrow ty calls s) as (s' & E).
    exists s'. split; [exact E|].
    apply (run_calls_flag (Narrow_Consume ty)); [|exact E].
    intros s0 s1 x y H. injection H as <-. apply IntegerPath_Consume_all_valid.
  - intros CType SumType cnull ToDouble SumArray ToDoubleSum calls s s' E.
    apply (run_calls_flag (FloatPath.Consume cnull ToDouble SumArray ToDoubleSum));
      [|exact E].
    intros s0 s1 x y H. apply (FloatPath_Consume_all_valid _ _ _ _ _ _ _ _ H).
  - intros C calls. apply flag_after_discipline.
  - intros s Hv Hs. unfold CovarianceImpl.Finalize, CovarianceImpl.no_value.
    rewrite Hv, Hs. cbn [negb andb]. rewrite orb_true_r. reflexivity.
Qed.

End AllValid.

(** C3 as stated fails: two chunks consumed in a row under
    [skip_nulls = false], the first with a null, leave [all_valid] true and
    [Finalize] gives a number. *)
Lemma all_valid_not_conjunction :
  run_calls Int32_Consume (CovarianceState.init 0 strict_options) two_consumes
    = Normal strict_clean
  /\ CovarianceState.all_valid strict_clean = true
  /\ forallb call_flag two_consumes = false
  /\ skip_nulls (CovarianceState.options strict_clean) = false
  /\ CovarianceImpl.Finalize strict_clean = Some 0.25%float.
Proof. vm_compute. repeat split; reflexivity. Qed.

Lemma all_valid_after_calls_witness :
  exists s',
    run_calls Int32_Consume (CovarianceState.init (D := float) 0 strict_options)
      two_consumes = Normal s'
    /\ CovarianceState.all_valid s' = true.
Proof.
  destruct (proj1 (all_valid_after_calls (D := float)) Int32
              two_consumes (CovarianceState.init 0 strict_options)) as (s' & E & F).
  exists s'. split; [exact E|]. rewrite F. reflexivity.
Defined.

(** ** A second [Consume] on the floating-point path *)

Section Overwrite.
Context {D : Type} {ops : DoubleOps D}.
Context {CType SumType : Type}.
Variables (cnull : CType) (ToDouble : CType -> D)
  (SumArray : ArraySpan CType -> SumType) (ToDoubleSum : SumType -> D).
Import CovarianceState.

(** C10, as amended. On the floating-point and wide-integer path, when the
    chunk has a valid element and either has no null or nulls are skipped,
    [Consume] assigns [count], [mean_x], [mean_y] and [m_xy] from the chunk
    alone: the state afterwards is the one that consuming the chunk into a
    fresh accumulator (same scale and options) gives, also when both throw;
    [CorrelationState::Consume] likewise leaves nothing of the earlier [mx2]
    and [my2]. Nothing is said of an empty chunk or of a chunk with nulls
    under [skip_nulls = false], on which the numeric fields of the earlier
    chunk stay. *)
Theorem Consume_overwrites (s : t D) (cs : CorrelationState.t D)
    (x y : ArraySpan CType) :
  valid_count x <> 0 ->
  no_nulls x y = true
  \/ (skip_nulls (options s) = true
      /\ skip_nulls (options (CorrelationState.covarianceState cs)) = true) ->
  FloatPath.Consume cnull ToDouble SumArray ToDoubleSum s x y =
  FloatPath.Consume cnull ToDouble SumArray ToDoubleSum
    (init (decimal_scale s) (options s)) x y
  /\ CorrelationConsume.Consume cnull ToDouble
       (FloatPath.Consume cnull ToDouble SumArray ToDoubleSum) cs x y =
     CorrelationConsume.Consume cnull ToDouble
       (FloatPath.Consume cnull ToDouble SumArray ToDoubleSum)
       (CorrelationState.init
          (decimal_scale (CorrelationState.covarianceState cs))
          (options (CorrelationState.covarianceState cs))) x y.
Proof.
  intros Hv Hn.
  assert (E : forall s0 : t D,
            no_nulls x y = true \/ skip_nulls (options s0) = true ->
            FloatPath.Consume cnull ToDouble SumArray ToDoubleSum s0 x y =
            FloatPath.Consume cnull ToDouble SumArray ToDoubleSum
              (init (decimal_scale s0) (options s0)) x y).
  { intros s0 H0. unfold FloatPath.Consume. cbv zeta. fold (no_nulls x y).
    cbn [set_all_valid all_valid options decimal_scale init].
    destruct (negb _); [reflexivity|].
    fold (valid_count x).
    destruct (Z.eqb_spec (valid_count x) 0) as [Z0|_]; [contradiction|].
    cbn [orb].
    destruct (negb (no_nulls x y) && negb (skip_nulls (options s0))) eqn:G.
    - apply andb_true_iff in G. destruct G as [G1 G2].
      apply negb_true_iff in G1, G2. destruct H0; congruence.
    - reflexivity. }
  split.
  - apply E. tauto.
  - unfold CorrelationConsume.Consume.
    cbn [CorrelationState.init CorrelationState.covarianceState].
    rewrite E by tauto. reflexivity.
Qed.

End Overwrite.

Lemma Consume_overwrites_witness :
  valid_count (doubles [5; 6]%float) <> 0
  /\ (no_nulls (doubles [5; 6]%float) (doubles [7; 8]%float) = true
      \/ (skip_nulls (CovarianceState.options first_chunk) = true
          /\ skip_nulls
               (CovarianceState.options
                  (CorrelationState.covarianceState
                     (CorrelationState.mk 0%float 0%float first_chunk))) = true))
  /\ Double_Consume first_chunk (doubles [5; 6]%float) (doubles [7; 8]%float) =
     Double_Consume (CovarianceState.init 0 strict_options)
       (doubles [5; 6]%float) (doubles [7; 8]%float).
Proof.
  assert (Hv : valid_count (doubles [5; 6]%float) <> 0) by discriminate.
  assert (Hn : no_nulls (doubles [5; 6]%float) (doubles [7; 8]%float) = true
               \/ (skip_nulls (CovarianceState.options first_chunk) = true
                   /\ skip_nulls
                        (CovarianceState.options
                           (CorrelationState.covarianceState
                              (CorrelationState.mk 0%float 0%float first_chunk))) = true))
    by (left; reflexivity).
  split; [exact Hv|]. split; [exact Hn|].
  exact (proj1 (Consume_overwrites (D := float) 0%float (fun v => v)
                  (fun a => Summation.SumArray 0%float a (fun v => v)) (fun v => v)
                  first_chunk (CorrelationState.mk 0%float 0%float first_chunk)
                  (doubles [5; 6]%float) (doubles [7; 8]%float) Hv Hn)).
Defined.

(** C10 as stated fails: a second chunk with one valid pair and one null
    pair, consumed under [skip_nulls = false], leaves the count, the means
    and [m_xy] of the first chunk in the state, where a fresh accumulator
    stays at count 0. *)
Lemma Consume_keeps_first_chunk :
  valid_count nully_x = 1
  /\ Double_Consume first_chunk nully_x nully_y
     = Normal (CovarianceState.set_all_valid false first_chunk)
  /\ CovarianceState.count first_chunk = 2
  /\ Double_Consume (CovarianceState.init 0 strict_options) nully_x nully_y
     = Normal (CovarianceState.set_all_valid false (CovarianceState.init 0 strict_options)).
Proof. vm_compute. repeat split; reflexivity. Qed.

(** ** Chunks whose valid counts differ *)

(** C4. The code at two chunks of valid counts 2 and 1: on the
    floating-point path [Consume] is left by a thrown [std::runtime_error],
    which the aggregator lets through; on the narrow integer path nothing is
    checked and the aggregator answers OK with a count of 2, the slot under
    the null having been read. Neither returns an InvalidArgument status. *)
Lemma Consume_mismatch_not_returned :
  valid_count (doubles [1; 2]%float) = 2
  /\ valid_count nully_y = 1
  /\ CovarianceImpl.Consume Double_Consume
       (CovarianceState.init 0 VarianceOptions_Defaults)
       (ArrayValue (doubles [1; 2]%float)) (ArrayValue nully_y)
     = Throw "valid values from array1 must equal array2"
  /\ valid_count (ints [1; 2]) = 2
  /\ valid_count [(3, true); (0, false)] = 1
  /\ exists s,
       CovarianceImpl.Consume Int32_Consume
         (CovarianceState.init (D := float) 0 VarianceOptions_Defaults)
         (ArrayValue (ints [1; 2])) (ArrayValue [(3, true); (0, false)])
       = Normal (OK, s)
       /\ CovarianceState.count s = 2.
Proof.
  repeat (split; [reflexivity|]).
  eexists. split; vm_compute; reflexivity.
Qed.

(** ** [Shift] and [AutoCorr] *)

Section Shift.
Context {A : Type}.
Import ShiftImpl.

Lemma nth_error_map_seq {B : Type} (f : nat -> B) (a n i : nat) :
  (i < n)%nat -> nth_error (map f (seq a n)) i = Some (f (a + i)%nat).
Proof.
  intros Hi. rewrite nth_error_map.
  rewrite (nth_error_nth' _ 0%nat) by (rewrite length_seq; exact Hi).
  rewrite seq_nth by exact Hi. reflexivity.
Qed.

Lemma GetScalar_nth_error (x : list (option A)) (i : nat) :
  (i < List.length x)%nat -> Some (GetScalar x i) = nth_error x i.
Proof. intros Hi. symmetry. apply nth_error_nth'. exact Hi. Qed.

Lemma fill_repeat (r : option (option A)) (n : Z) :
  fill r n = repeat (fill_scalar r) (Z.to_nat n).
Proof. destruct r; reflexivity. Qed.

(** Where the behaviour is defined, the builder holds the fill and the
    elements that the loop appends. *)
Lemma Execute_defined (periods : Z) (r : option (option A)) (x : list (option A)) :
  INT32_MIN < periods ->
  (0 < periods -> Z.of_nat (List.length x) - periods <= INT32_MAX) ->
  Execute periods r x =
  Some (if 0 <? periods
        then fill r (Z.abs periods)
             ++ map (GetScalar x)
                  (seq 0 (Z.to_nat (Z.of_nat (List.length x) - Z.abs periods)))
        else map (GetScalar x)
               (seq (Z.to_nat (Z.abs periods))
                  (Z.to_nat (Z.of_nat (List.length x) - Z.abs periods)))
             ++ fill r (Z.abs periods)).
Proof.
  intros Hmin Hloop. unfold Execute, abs_int32, int_counter.
  destruct (Z.eqb_spec periods INT32_MIN) as [E|_]; [lia|].
  destruct (Z.ltb_spec 0 periods) as [Hpos|_]; [|reflexivity].
  rewrite (Z.abs_eq periods) by lia.
  destruct (Z.ltb_spec INT32_MAX (Z.of_nat (List.length x) - periods)) as [H|_];
    [specialize (Hloop Hpos); lia|reflexivity].
Qed.


End Shift.



Section AutoCorr.
Context {D : Type} {ops : DoubleOps D} {CType : Type}.
Variable null_slot : CType.
Variable state_Consume :
  CovarianceState.t D -> ArraySpan CType -> ArraySpan CType ->
  Raise (CovarianceState.t D).
Variable default_std_options : VarianceOptions.

(** [Shift] on an array span, where [ShiftImpl::Execute] is defined. *)
Lemma Shift_defined (input : ArraySpan CType) (lag : Z)
    (fill_value : option (option CType)) :
  INT32_MIN < lag ->
  (0 < lag -> Span.length input - lag <= INT32_MAX) ->
  exists shifted : ArraySpan CType,
    Api.Shift null_slot input lag fill_value = Some shifted.
Proof.
  intros Hmin Hloop. unfold Api.Shift.
  rewrite Execute_defined.
  - eexists. reflexivity.
  - exact Hmin.
  - unfold Api.ToArray. rewrite length_map. exact Hloop.
Qed.

(** C9, as amended. [AutoCorr] fails with the Invalid status when
    [lag > length]. For [lag <= length], where the shift is defined
    ([lag > INT32_MIN], and [length - lag <= INT32_MAX] for a positive lag)
    and [length - 1 - lag] is an [int64_t]: when the covariance of the input
    with [Shift(input, lag, null)] and the variance of the input are
    returned, the result is [(cov / var) / (length - 1 - lag)], the final
    division included, and null when the covariance or the variance is null;
    it need not be finite. A failure status of the covariance or of the
    variance is the result. *)
Theorem AutoCorr_composition (input : ArraySpan CType) (lag : Z)
    (covariance variance : option D) :
  (Span.length input < lag ->
   Api.AutoCorr null_slot state_Consume default_std_options input lag =
   Some (Normal (Err (Invalid "Lag cannot be greater than the length of the array"))))
  /\ (lag <= Span.length input ->
      INT32_MIN < lag ->
      (0 < lag -> Span.length input - lag <= INT32_MAX) ->
      Span.length input - 1 - lag <= INT64_MAX ->
      exists shifted : ArraySpan CType,
        Api.Shift null_slot input lag (Some None) = Some shifted
        /\ (Api.CallCov state_Consume default_std_options input shifted
              = Normal (Ok covariance) ->
            Api.Variance state_Consume default_std_options input
              = Normal (Ok variance) ->
            Api.AutoCorr null_slot state_Consume default_std_options input lag =
            Some (Normal (Ok
              match covariance, variance with
              | Some cov, Some var =>
                Some ((cov / var) / of_int (Span.length input - 1 - lag))%dbl
              | _, _ => None
              end)))
        /\ (forall status : Status,
              Api.CallCov state_Consume default_std_options input shifted
                = Normal (Err status)
              \/ (Api.CallCov state_Consume default_std_options input shifted
                    = Normal (Ok covariance)
                  /\ Api.Variance state_Consume default_std_options input
                     = Normal (Err status)) ->
              Api.AutoCorr null_slot state_Consume default_std_options input lag =
              Some (Normal (Err status)))).
Proof.
  unfold Api.AutoCorr. split.
  - intros H. apply Z.ltb_lt in H. rewrite H. reflexivity.
  - intros H Hmin Hloop Hfit.
    destruct (Z.ltb_spec (Span.length input) lag) as [|_]; [lia|].
    destruct (Shift_defined input lag (Some None) Hmin Hloop) as [shifted E].
    exists shifted. rewrite E. split; [exact eq_refl|]. split.
    + intros Hc Hv. rewrite Hc, Hv. cbn [Api.assign_or_raise].
      rewrite wrap64_id by (unfold INT64_MAX in Hfit; lia).
      destruct covariance as [cov|]; destruct variance as [var|]; reflexivity.
    + intros status [Hc|[Hc Hv]].
      * rewrite Hc. reflexivity.
      * rewrite Hc, Hv. reflexivity.
Qed.

End AutoCorr.

(** C9 as stated fails: with [lag = length - 1] the last division is by
    zero and the result is infinite; on the empty input the result is null;
    on a [double] input with [lag = 1] the covariance kernel throws. *)
Lemma AutoCorr_not_finite :
  Span.length (ints [1; 2; 3]) = 3
  /\ Api.AutoCorr (D := float) 0 Int32_Consume VarianceOptions_Defaults (ints [1; 2; 3]) 2
     = Some (Normal (Ok (Some infinity)))
  /\ PrimFloat.is_finite infinity = false
  /\ Api.AutoCorr (D := float) 0 Int32_Consume VarianceOptions_Defaults (ints []) 0
     = Some (Normal (Ok None))
  /\ Api.AutoCorr (D := float) 0%float Double_Consume VarianceOptions_Defaults (doubles [1; 2; 3]%float) 1
     = Some (Throw "valid values from array1 must equal array2").
Proof. vm_compute. repeat split; reflexivity. Qed.

Lemma AutoCorr_composition_witness :
  1 <= Span.length (ints [1; 2; 3])
  /\ INT32_MIN < 1
  /\ Span.length (ints [1; 2; 3]) - 1 <= INT32_MAX
  /\ Span.length (ints [1; 2; 3]) - 1 - 1 <= INT64_MAX
  /\ Api.AutoCorr (D := float) 0 Int32_Consume VarianceOptions_Defaults (ints [1; 2; 3]) 1
     = Some (Normal (Ok (Some 1%float))).
Proof.
  assert (H1 : 1 <= Span.length (ints [1; 2; 3])) by discriminate.
  assert (H2 : INT32_MIN < 1) by reflexivity.
  assert (H3 : Span.length (ints [1; 2; 3]) - 1 <= INT32_MAX) by discriminate.
  assert (H4 : Span.length (ints [1; 2; 3]) - 1 - 1 <= INT64_MAX) by discriminate.
  split; [exact H1|]. split; [exact H2|]. split; [exact H3|]. split; [exact H4|].
  destruct (proj2 (AutoCorr_composition (D := float) 0 Int32_Consume
                     VarianceOptions_Defaults (ints [1; 2; 3]) 1
                     (Some 0x1.5555555555555p-1%float)
                     (Some 0x1.5555555555555p-1%float))
              H1 H2 (fun _ => H3) H4) as (shifted & E & Hv & _).
  injection E as <-. exact (Hv eq_refl eq_refl).
Defined.

(** ** The examples of the specification, on the embedding *)

Example Covariance_int32_example :
  Api.CallCov (D := float) Int32_Consume
    {| ddof := 1; skip_nulls := true; min_count := 0 |}
    (ints [1; 2; 3; 4; 5]) (ints [2; 4; 6; 8; 10])
  = Normal (Ok (Some 5%float)).
Proof. vm_compute. reflexivity. Qed.

Example Covariance_double_example :
  Api.CallCov (D := float) Double_Consume
    {| ddof := 1; skip_nulls := true; min_count := 0 |}
    (doubles [1; 2; 3; 4; 5]%float) (doubles [2; 4; 6; 8; 10]%float)
  = Normal (Ok (Some 5%float)).
Proof. vm_compute. reflexivity. Qed.

(** One hundred values go through six whole blocks, a remainder and three
    levels of the cascade. *)
Example SumArray_cascade_example :
  Summation.SumArray (D := float) 0%float
    (doubles (map (fun n => of_int (Z.of_nat n)) (seq 1 100))) (fun v => v)
  = 5050%float.
Proof. vm_compute. reflexivity. Qed.

Example Shift_example :
  Api.Shift 0 (ints [1; 2; 3; 4; 5]) 1 None
  = Some [(0, false); (1, true); (2, true); (3, true); (4, true)].
Proof. reflexivity. Qed.

(** * Further properties *)

(** ** [ShiftImpl::Execute] as a list operation *)

Section ShiftLists.
Context {A : Type}.
Import ShiftImpl.

Lemma map_GetScalar_seq (x : list (option A)) (a n : nat) :
  (a + n <= List.length x)%nat ->
  map (GetScalar x) (seq a n) = firstn n (skipn a x).
Proof.
  intros H. apply nth_error_ext. intros i.
  destruct (Nat.lt_ge_cases i n) as [Hi|Hi].
  - rewrite nth_error_map_seq by exact Hi.
    rewrite nth_error_firstn.
    destruct (Nat.ltb_spec i n) as [_|]; [|lia].
    rewrite nth_error_skipn. apply GetScalar_nth_error. lia.
  - rewrite (proj2 (nth_error_None _ _)) by (rewrite length_map, length_seq; exact Hi).
    symmetry. apply nth_error_None. rewrite length_firstn. lia.
Qed.

(** A right shift within the length: the fill, then the input without its
    last elements. A left shift: the input without its first elements, then
    the fill. *)
Lemma Execute_right (k : Z) (r : option (option A)) (x : list (option A)) :
  0 < k <= Z.of_nat (List.length x) ->
  Z.of_nat (List.length x) - k <= INT32_MAX ->
  Execute k r x =
  Some (repeat (fill_scalar r) (Z.to_nat k) ++ firstn (List.length x - Z.to_nat k) x).
Proof.
  intros Hk Hloop. rewrite Execute_defined by (unfold INT32_MIN; lia).
  rewrite fill_repeat.
  destruct (Z.ltb_spec 0 k) as [_|]; [|lia].
  rewrite Z.abs_eq by lia. do 2 f_equal.
  rewrite map_GetScalar_seq by lia. cbn [skipn]. f_equal. lia.
Qed.

Lemma Execute_left (k : Z) (r : option (option A)) (x : list (option A)) :
  - Z.of_nat (List.length x) <= k <= 0 ->
  INT32_MIN < k ->
  Execute k r x =
  Some (skipn (Z.to_nat (- k)) x ++ repeat (fill_scalar r) (Z.to_nat (- k))).
Proof.
  intros Hk Hmin. rewrite Execute_defined by (exact Hmin || lia).
  rewrite fill_repeat.
  destruct (Z.ltb_spec 0 k) as [|_]; [lia|].
  replace (Z.abs k) with (- k) by lia. do 2 f_equal.
  rewrite map_GetScalar_seq by lia.
  apply firstn_all2. rewrite length_skipn. lia.
Qed.

(** X1. Shifting by [k] and back by [-k], for [|k| <= length] and where
    both shifts are defined ([k] an [int] above [INT32_MIN], and
    [length - |k| <= INT32_MAX] for the one of the two that shifts to the
    right), gives the input back at the positions that were not shifted out:
    for [k >= 0] the first [length - k] elements followed by [k] fill values,
    for [k < 0] the fill values followed by the elements from position [|k|]
    on. *)
Theorem Shift_there_and_back (k : Z) (r r' : option (option A)) (x : list (option A)) :
  Z.abs k <= Z.of_nat (List.length x) ->
  INT32_MIN < k <= INT32_MAX ->
  (k <> 0 -> Z.of_nat (List.length x) - Z.abs k <= INT32_MAX) ->
  exists y : list (option A),
    Execute k r x = Some y
    /\ Execute (- k) r' y =
       Some (if 0 <=? k
             then firstn (List.length x - Z.to_nat k) x
                  ++ repeat (fill_scalar r') (Z.to_nat k)
             else repeat (fill_scalar r') (Z.to_nat (- k))
                  ++ skipn (Z.to_nat (- k)) x).
Proof.
  intros Hk Hint Hloop. unfold INT32_MIN, INT32_MAX in Hint.
  destruct (Z.leb_spec 0 k) as [Hpos|Hneg].
  - destruct (Z.eq_dec k 0) as [-> | Hnz].
    + eexists. split; [apply Execute_left; [lia|reflexivity]|].
      cbn [Z.opp]. rewrite Execute_left; [|lia|reflexivity].
      cbn [Z.opp Z.to_nat skipn repeat]. rewrite !app_nil_r, Nat.sub_0_r.
      rewrite firstn_all. reflexivity.
    + eexists. split; [apply Execute_right; [lia|]|].
      * specialize (Hloop Hnz). lia.
      * rewrite Execute_left.
        -- rewrite Z.opp_involutive. do 2 f_equal.
           rewrite skipn_app, repeat_length, Nat.sub_diag. cbn [skipn].
           rewrite skipn_all2 by (rewrite repeat_length; lia). reflexivity.
        -- rewrite length_app, repeat_length, length_firstn. lia.
        -- unfold INT32_MIN. lia.
  - eexists. split; [apply Execute_left; [lia|unfold INT32_MIN; lia]|].
    rewrite Execute_right.
    + do 2 f_equal. rewrite length_app, repeat_length, length_skipn.
      replace (List.length x - Z.to_nat (- k) + Z.to_nat (- k) - Z.to_nat (- k))%nat
        with (List.length (skipn (Z.to_nat (- k)) x))
        by (rewrite length_skipn; lia).
      rewrite firstn_app, firstn_all, Nat.sub_diag. cbn [firstn].
      apply app_nil_r.
    + rewrite length_app, repeat_length, length_skipn. lia.
    + rewrite length_app, repeat_length, length_skipn.
      assert (k <> 0) as Hnz by lia. specialize (Hloop Hnz). lia.
Qed.

(** X2. A shift by at least the length, other than by [INT32_MIN], keeps
    nothing of the input: the output is [|periods|] copies of the fill
    value. *)
Theorem Shift_beyond_length (periods : Z) (r : option (option A)) (x : list (option A)) :
  Z.of_nat (List.length x) <= Z.abs periods ->
  INT32_MIN < periods ->
  Execute periods r x = Some (repeat (fill_scalar r) (Z.to_nat (Z.abs periods))).
Proof.
  intros H Hmin. rewrite Execute_defined by (exact Hmin || (unfold INT32_MAX; lia)).
  rewrite fill_repeat.
  replace (Z.to_nat (Z.of_nat (List.length x) - Z.abs periods)) with 0%nat by lia.
  cbn [seq map]. destruct (0 <? periods); [rewrite app_nil_r|]; reflexivity.
Qed.

End ShiftLists.

Lemma Shift_there_and_back_witness :
  Z.abs 2 <= Z.of_nat (List.length [Some 1; Some 2; Some 3; Some 4; Some 5])
  /\ INT32_MIN < 2 <= INT32_MAX
  /\ Z.of_nat (List.length [Some 1; Some 2; Some 3; Some 4; Some 5]) - Z.abs 2
     <= INT32_MAX
  /\ (exists y : list (option Z),
        ShiftImpl.Execute 2 None [Some 1; Some 2; Some 3; Some 4; Some 5] = Some y
        /\ ShiftImpl.Execute (- 2) None y = Some [Some 1; Some 2; Some 3; None; None]).
Proof.
  assert (H : Z.abs 2 <= Z.of_nat (List.length [Some 1; Some 2; Some 3; Some 4; Some 5]))
    by discriminate.
  assert (Hint : INT32_MIN < 2 <= INT32_MAX) by (split; [reflexivity|discriminate]).
  assert (Hloop : Z.of_nat (List.length [Some 1; Some 2; Some 3; Some 4; Some 5])
                  - Z.abs 2 <= INT32_MAX) by discriminate.
  split; [exact H|]. split; [exact Hint|]. split; [exact Hloop|].
  exact (Shift_there_and_back 2 None None [Some 1; Some 2; Some 3; Some 4; Some 5]
           H Hint (fun _ => Hloop)).
Defined.

Lemma Shift_beyond_length_witness :
  Z.of_nat (List.length [Some 1; Some 2]) <= Z.abs (- 2)
  /\ INT32_MIN < - 2
  /\ ShiftImpl.Execute (- 2) (Some (Some 7)) [Some 1; Some 2] = Some [Some 7; Some 7].
Proof.
  assert (H : Z.of_nat (List.length [Some 1; Some 2]) <= Z.abs (- 2)) by discriminate.
  assert (Hmin : INT32_MIN < - 2) by reflexivity.
  split; [exact H|]. split; [exact Hmin|].
  exact (Shift_beyond_length (- 2) (Some (Some 7)) [Some 1; Some 2] H Hmin).
Defined.

(** ** [PctChange] *)

Lemma combine_app_same {A B : Type} (l1 l2 : list A) (r1 r2 : list B) :
  List.length l1 = List.length r1 ->
  combine (l1 ++ l2) (r1 ++ r2) = combine l1 r1 ++ combine l2 r2.
Proof.
  revert r1. induction l1 as [|a l1 IH]; intros [|b r1] H; try discriminate H.
  - reflexivity.
  - cbn [app combine]. f_equal. apply IH. injection H as H. exact H.
Qed.

Section PctChangeLists.
Context {D : Type} {ops : DoubleOps D}.
Variable on_length_mismatch : Raise (Result (list (option D))).
Import PctChange.

Lemma pct_null_right (l : list (option D)) (n : nat) :
  List.length l = n ->
  map (fun p => pct (fst p) (snd p)) (combine l (repeat None n)) = repeat None n.
Proof.
  intros <-. induction l as [|a l IH]; [reflexivity|].
  cbn [List.length repeat combine map]. f_equal; [|exact IH].
  unfold pct, pointwise. cbn [fst snd]. destruct a; reflexivity.
Qed.

Lemma pct_null_left (l : list (option D)) (n : nat) :
  List.length l = n ->
  map (fun p => pct (fst p) (snd p)) (combine (repeat None n) l) = repeat None n.
Proof.
  intros <-. induction l as [|a l IH]; [reflexivity|].
  cbn [List.length repeat combine map]. f_equal; exact IH.
Qed.

(** X3. [PctChange] refuses [periods > length] with the Invalid status. For
    [0 < periods <= length] with [length - periods <= INT32_MAX] (the bound
    of the [int] counter of the shift) the result has the length of the
    input: [periods] nulls, then [input[i] / input[i - periods] - 1] for the
    later positions, null where either element is null. For
    [- length <= periods <= 0], [periods] above [INT32_MIN], it is
    [input[i] / input[i + |periods|] - 1] followed by [|periods|] nulls.
    Whatever the host does with arrays of different lengths, it is not
    reached. *)
Theorem PctChange_values (input : list (option D)) (periods : Z) :
  let N := List.length input in
  (Z.of_nat N < periods ->
   PctChange on_length_mismatch input periods =
   Some (Normal (Err (Invalid "Periods cannot be greater than the length of the array"))))
  /\ (0 < periods <= Z.of_nat N ->
      Z.of_nat N - periods <= INT32_MAX ->
      PctChange on_length_mismatch input periods =
      Some (Normal (Ok (repeat None (Z.to_nat periods)
                  ++ map (fun p => pct (fst p) (snd p))
                       (combine (skipn (Z.to_nat periods) input)
                                (firstn (N - Z.to_nat periods) input))))))
  /\ (- Z.of_nat N <= periods <= 0 ->
      INT32_MIN < periods ->
      PctChange on_length_mismatch input periods =
      Some (Normal (Ok (map (fun p => pct (fst p) (snd p))
                    (combine (firstn (N - Z.to_nat (- periods)) input)
                             (skipn (Z.to_nat (- periods)) input))
                  ++ repeat None (Z.to_nat (- periods)))))).
Proof.
  intros N. unfold PctChange. split; [|split].
  - intros H. apply Z.ltb_lt in H. fold N. rewrite H. reflexivity.
  - intros H Hloop. fold N. destruct (Z.ltb_spec (Z.of_nat N) periods) as [|_]; [lia|].
    rewrite Execute_right by (fold N; lia). cbn [fill_scalar]. fold N.
    unfold divide.
    rewrite length_app, repeat_length, length_firstn.
    replace (Nat.eqb (List.length input)
               (Z.to_nat periods + Nat.min (N - Z.to_nat periods) (List.length input)))
      with true by (symmetry; apply Nat.eqb_eq; subst N; lia).
    cbn [Api.assign_or_raise]. unfold subtract_scalar. do 3 f_equal.
    rewrite map_map. fold (@pct D ops).
    change (fun x : option D * option D =>
              pointwise dsub (pointwise ddiv (fst x) (snd x)) (Some (of_int 1)))
      with (fun p : option D * option D => pct (fst p) (snd p)).
    rewrite <- (firstn_skipn (Z.to_nat periods) input) at 1.
    rewrite combine_app_same
      by (rewrite length_firstn, repeat_length; subst N; lia).
    rewrite map_app. f_equal.
    apply (pct_null_right (firstn (Z.to_nat periods) input)).
    rewrite length_firstn. subst N. lia.
  - intros H Hmin. fold N. destruct (Z.ltb_spec (Z.of_nat N) periods) as [|_]; [lia|].
    rewrite Execute_left by (fold N; (exact Hmin || lia)). cbn [fill_scalar]. fold N.
    unfold divide.
    rewrite length_app, repeat_length, length_skipn.
    replace (Nat.eqb (List.length input)
               (List.length input - Z.to_nat (- periods) + Z.to_nat (- periods)))
      with true by (symmetry; apply Nat.eqb_eq; subst N; lia).
    cbn [Api.assign_or_raise]. unfold subtract_scalar. do 3 f_equal.
    rewrite map_map. fold (@pct D ops).
    change (fun x : option D * option D =>
              pointwise dsub (pointwise ddiv (fst x) (snd x)) (Some (of_int 1)))
      with (fun p : option D * option D => pct (fst p) (snd p)).
    rewrite <- (firstn_skipn (N - Z.to_nat (- periods)) input) at 1.
    rewrite combine_app_same
      by (rewrite length_firstn, length_skipn; subst N; lia).
    rewrite map_app. f_equal.
    apply (pct_null_right (skipn (N - Z.to_nat (- periods)) input)).
    rewrite length_skipn. subst N. lia.
Qed.

End PctChangeLists.

Lemma PctChange_values_witness :
  0 < 1 <= Z.of_nat (List.length [Some 1; Some 2; Some 4]%float)
  /\ Z.of_nat (List.length [Some 1; Some 2; Some 4]%float) - 1 <= INT32_MAX
  /\ PctChange.PctChange (Throw "lengths") [Some 1; Some 2; Some 4]%float 1
     = Some (Normal (Ok [None; Some 1; Some 1]%float)).
Proof.
  assert (H : 0 < 1 <= Z.of_nat (List.length [Some 1; Some 2; Some 4]%float))
    by (split; [reflexivity | discriminate]).
  assert (Hloop : Z.of_nat (List.length [Some 1; Some 2; Some 4]%float) - 1 <= INT32_MAX)
    by discriminate.
  split; [exact H|]. split; [exact Hloop|].
  exact (proj1 (proj2 (PctChange_values (Throw "lengths")
                         [Some 1; Some 2; Some 4]%float 1)) H Hloop).
Defined.

(** ** [AutoCorr] on the floating-point path *)

Section AutoCorrThrows.
Context {D : Type} {ops : DoubleOps D}.
Context {CType SumType : Type}.
Variables (null_slot cnull : CType) (ToDouble : CType -> D)
  (SumArray : ArraySpan CType -> SumType) (ToDoubleSum : SumType -> D).
Variable default_std_options : VarianceOptions.

Lemma valid_count_le_length {C : Type} (a : ArraySpan C) :
  valid_count a <= Z.of_nat (List.length a).
Proof. pose proof (valid_count_bounds a). unfold Span.length in *. lia. Qed.

Lemma valid_count_nulls (n : nat) :
  valid_count (Api.ToSpan null_slot (repeat None n)) = 0.
Proof.
  induction n as [|n IH]; [reflexivity|].
  change (Api.ToSpan null_slot (repeat None (S n)))
    with ([(null_slot, false)] ++ Api.ToSpan null_slot (repeat None n)).
  rewrite valid_count_app, IH. reflexivity.
Qed.

(** Of the shifted array at most [length - |lag|] elements are valid. *)
Lemma valid_count_Shift (input : ArraySpan CType) (lag : Z)
    (shifted : ArraySpan CType) :
  Api.Shift null_slot input lag (Some None) = Some shifted ->
  valid_count shifted <= Z.max 0 (Span.length input - Z.abs lag).
Proof.
  unfold Api.Shift, ShiftImpl.Execute, ShiftImpl.abs_int32, ShiftImpl.int_counter,
    Api.ToSpan.
  cbn [ShiftImpl.fill].
  set (N := Z.of_nat (List.length (Api.ToArray input))).
  assert (HN : N = Span.length input).
  { subst N. unfold Api.ToArray, Span.length. rewrite length_map. reflexivity. }
  set (kept := map (ShiftImpl.GetScalar (Api.ToArray input))).
  assert (K : forall a n,
            valid_count (Api.ToSpan null_slot (kept (seq a (Z.to_nat n))))
            <= Z.max 0 n).
  { intros a n. etransitivity; [apply valid_count_le_length|].
    unfold Api.ToSpan, kept. rewrite !length_map, length_seq. lia. }
  destruct (lag =? INT32_MIN); [discriminate|].
  destruct (0 <? lag).
  - destruct (INT32_MAX <? N - Z.abs lag); [discriminate|].
    cbn [option_map]. intros E. injection E as <-.
    rewrite map_app, valid_count_app.
    fold (Api.ToSpan null_slot (repeat None (Z.to_nat (Z.abs lag)))).
    rewrite valid_count_nulls, <- HN, Z.add_0_l. apply K.
  - cbn [option_map]. intros E. injection E as <-.
    rewrite map_app, valid_count_app.
    fold (Api.ToSpan null_slot (repeat None (Z.to_nat (Z.abs lag)))).
    rewrite valid_count_nulls, <- HN, Z.add_0_r. apply K.
Qed.

(** X4. On the floating-point path [AutoCorr] never returns for a non-empty
    input without nulls and a lag other than zero with [|lag| <= length] on
    which the shift is defined: the shifted array has the length of the
    input and fewer valid elements, and [Consume] throws. *)
Theorem AutoCorr_throws_on_float_path (input : ArraySpan CType) (lag : Z) :
  Span.GetNullCount input = 0 ->
  0 < Span.length input ->
  lag <> 0 ->
  - Span.length input <= lag <= Span.length input ->
  INT32_MIN < lag ->
  (0 < lag -> Span.length input - lag <= INT32_MAX) ->
  Api.AutoCorr null_slot (FloatPath.Consume cnull ToDouble SumArray ToDoubleSum)
    default_std_options input lag
  = Some (Throw "valid values from array1 must equal array2").
Proof.
  intros Hnull Hlen Hlag Hle Hmin Hloop. unfold Api.AutoCorr.
  destruct (Z.ltb_spec (Span.length input) lag) as [|_]; [lia|].
  destruct (Shift_defined null_slot input lag (Some None) Hmin Hloop) as [shifted E].
  rewrite E. pose proof (valid_count_Shift input lag shifted E) as Hs.
  unfold Api.CallCov, CovarianceImpl.Consume, FloatPath.Consume. cbv zeta.
  fold (valid_count input). fold (valid_count shifted).
  replace (valid_count input =? valid_count shifted) with false; [reflexivity|].
  symmetry. apply Z.eqb_neq. unfold valid_count at 1. rewrite Hnull. lia.
Qed.

End AutoCorrThrows.

Lemma AutoCorr_throws_on_float_path_witness :
  Span.GetNullCount (doubles [1; 2; 3]%float) = 0
  /\ 0 < Span.length (doubles [1; 2; 3]%float)
  /\ 1 <> 0
  /\ - Span.length (doubles [1; 2; 3]%float) <= 1 <= Span.length (doubles [1; 2; 3]%float)
  /\ INT32_MIN < 1
  /\ Span.length (doubles [1; 2; 3]%float) - 1 <= INT32_MAX
  /\ Api.AutoCorr 0%float Double_Consume VarianceOptions_Defaults
       (doubles [1; 2; 3]%float) 1
     = Some (Throw "valid values from array1 must equal array2").
Proof.
  assert (H1 : Span.GetNullCount (doubles [1; 2; 3]%float) = 0) by reflexivity.
  assert (H2 : 0 < Span.length (doubles [1; 2; 3]%float)) by reflexivity.
  assert (H3 : 1 <> 0) by discriminate.
  assert (H4 : - Span.length (doubles [1; 2; 3]%float) <= 1
               <= Span.length (doubles [1; 2; 3]%float))
    by (split; discriminate).
  assert (H5 : INT32_MIN < 1) by reflexivity.
  assert (H6 : Span.length (doubles [1; 2; 3]%float) - 1 <= INT32_MAX) by discriminate.
  split; [exact H1|]. split; [exact H2|]. split; [exact H3|]. split; [exact H4|].
  split; [exact H5|]. split; [exact H6|].
  exact (AutoCorr_throws_on_float_path (D := float) 0%float 0%float (fun v => v)
           (fun a => Summation.SumArray 0%float a (fun v => v)) (fun v => v)
           VarianceOptions_Defaults (doubles [1; 2; 3]%float) 1 H1 H2 H3 H4 H5
           (fun _ => H6)).
Defined.

(** ** The merge algebra in exact arithmetic *)

Section MergeAlgebra.
Import Moments.
Import CovarianceState.
Local Open Scope Qc_scope.

Lemma of_int_pos_neq0 (a : Z) : (0 < a)%Z -> of_int (D := Qc) a <> 0.
Proof. intros H. apply of_int_neq0. lia. Qed.

(** X5. [MergeFrom] is commutative on non-empty states in exact
    arithmetic: the count, the means, the cross-moment and the flag do not
    depend on which state is merged into which. *)
Theorem MergeFrom_commutative (s1 s2 : t Qc) :
  (0 < count s1)%Z -> (0 < count s2)%Z ->
  (count s1 + count s2 <= INT64_MAX)%Z ->
  moments (MergeFrom s1 s2) = moments (MergeFrom s2 s1).
Proof.
  intros H1 H2 H3.
  rewrite (MergeFrom_general s1 s2 H1 H2 H3).
  rewrite (MergeFrom_general s2 s1 H2 H1) by lia.
  cbv zeta. unfold moments. cbn [count mean_x mean_y m_xy all_valid].
  unfold MergeMean. change (@dadd Qc _) with Qcplus. change (@dsub Qc _) with Qcminus.
  change (@dmul Qc _) with Qcmult. change (@ddiv Qc _) with Qcdiv.
  rewrite (Z.add_comm (count s2) (count s1)), (andb_comm (all_valid s2)).
  assert (Ex : forall m1 m2 : Qc,
            (m1 * of_int (count s1) + m2 * of_int (count s2))
            / of_int (count s1 + count s2)
            = (m2 * of_int (count s2) + m1 * of_int (count s1))
              / of_int (count s1 + count s2)).
  { intros m1 m2. f_equal. ring. }
  rewrite <- (Ex (mean_x s1) (mean_x s2)), <- (Ex (mean_y s1) (mean_y s2)).
  f_equal. f_equal. ring.
Qed.

Lemma MergeFrom_commutative_witness :
  (0 < count (sample_state 1 2))%Z
  /\ (0 < count (sample_state 3 4))%Z
  /\ (count (sample_state 1 2) + count (sample_state 3 4) <= INT64_MAX)%Z
  /\ moments (MergeFrom (sample_state 1 2) (sample_state 3 4))
     = moments (MergeFrom (sample_state 3 4) (sample_state 1 2)).
Proof.
  assert (H : (count (sample_state 1 2) + count (sample_state 3 4) <= INT64_MAX)%Z)
    by discriminate.
  split; [reflexivity|]. split; [reflexivity|]. split; [exact H|].
  exact (MergeFrom_commutative (sample_state 1 2) (sample_state 3 4) eq_refl eq_refl H).
Defined.

(** X6. [MergeFrom] is associative on non-empty states in exact
    arithmetic. *)
Theorem MergeFrom_associative (s1 s2 s3 : t Qc) :
  (0 < count s1)%Z -> (0 < count s2)%Z -> (0 < count s3)%Z ->
  (count s1 + count s2 + count s3 <= INT64_MAX)%Z ->
  moments (MergeFrom (MergeFrom s1 s2) s3) = moments (MergeFrom s1 (MergeFrom s2 s3)).
Proof.
  intros H1 H2 H3 H.
  assert (E12 := MergeFrom_general s1 s2 H1 H2 ltac:(lia)).
  assert (E23 := MergeFrom_general s2 s3 H2 H3 ltac:(lia)).
  cbv zeta in E12, E23.
  assert (C12 : count (MergeFrom s1 s2) = (count s1 + count s2)%Z)
    by (rewrite E12; reflexivity).
  assert (C23 : count (MergeFrom s2 s3) = (count s2 + count s3)%Z)
    by (rewrite E23; reflexivity).
  rewrite (MergeFrom_general (MergeFrom s1 s2) s3) by (try rewrite C12; lia).
  rewrite (MergeFrom_general s1 (MergeFrom s2 s3)) by (try rewrite C23; lia).
  clear C12 C23.
  cbv zeta. rewrite E12, E23. clear E12 E23. unfold moments.
  cbn [count mean_x mean_y m_xy all_valid].
  unfold MergeMean. change (@dadd Qc _) with Qcplus. change (@dsub Qc _) with Qcminus.
  change (@dmul Qc _) with Qcmult. change (@ddiv Qc _) with Qcdiv.
  rewrite !of_int_add.
  pose proof (of_int_pos_neq0 _ H1) as N1.
  pose proof (of_int_pos_neq0 _ H2) as N2.
  pose proof (of_int_pos_neq0 _ H3) as N3.
  assert (N12 : of_int (count s1) + of_int (count s2) <> 0)
    by (rewrite <- of_int_add; apply of_int_pos_neq0; lia).
  assert (N23 : of_int (count s2) + of_int (count s3) <> 0)
    by (rewrite <- of_int_add; apply of_int_pos_neq0; lia).
  assert (N123 : of_int (count s1) + of_int (count s2) + of_int (count s3) <> 0)
    by (rewrite <- !of_int_add; apply of_int_pos_neq0; lia).
  assert (N123' : of_int (count s1) + (of_int (count s2) + of_int (count s3)) <> 0)
    by (rewrite Qcplus_assoc; exact N123).
  generalize dependent (of_int (D := Qc) (count s1)). intros a1.
  generalize dependent (of_int (D := Qc) (count s2)). intros a2.
  generalize dependent (of_int (D := Qc) (count s3)). intros a3.
  intros.
  rewrite Z.add_assoc, andb_assoc.
  assert (Em : forall m1 m2 m3 : Qc,
            ((m1 * a1 + m2 * a2) / (a1 + a2) * (a1 + a2) + m3 * a3)
            / (a1 + a2 + a3)
            = (m1 * a1 + (m2 * a2 + m3 * a3) / (a2 + a3) * (a2 + a3))
              / (a1 + (a2 + a3))).
  { intros m1 m2 m3. field. auto. }
  rewrite !Em.
  f_equal. f_equal. field. auto.
Qed.

Lemma MergeFrom_associative_witness :
  (0 < count (sample_state 1 2))%Z
  /\ (0 < count (sample_state 3 4))%Z
  /\ (0 < count (sample_state 5 7))%Z
  /\ (count (sample_state 1 2) + count (sample_state 3 4) + count (sample_state 5 7)
      <= INT64_MAX)%Z
  /\ moments (MergeFrom (MergeFrom (sample_state 1 2) (sample_state 3 4))
                (sample_state 5 7))
     = moments (MergeFrom (sample_state 1 2)
                  (MergeFrom (sample_state 3 4) (sample_state 5 7))).
Proof.
  assert (H : (count (sample_state 1 2) + count (sample_state 3 4)
               + count (sample_state 5 7) <= INT64_MAX)%Z) by discriminate.
  split; [reflexivity|]. split; [reflexivity|]. split; [reflexivity|].
  split; [exact H|].
  exact (MergeFrom_associative (sample_state 1 2) (sample_state 3 4) (sample_state 5 7)
           eq_refl eq_refl eq_refl H).
Defined.

(** The merge of two states that hold the moments of [l1] and [l2] holds
    those of [l1 ++ l2]; an empty sample is held by a state of count 0 with
    zero means and cross-moment. *)
Lemma MergeFrom_summarises_app (s1 s2 : t Qc) (l1 l2 : list (Qc * Qc)) :
  summarises s1 l1 -> summarises s2 l2 ->
  (Z.of_nat (List.length (l1 ++ l2)) <= INT64_MAX)%Z ->
  summarises (MergeFrom s1 s2) (l1 ++ l2).
Proof.
  intros S1 S2 Hlen. rewrite length_app in Hlen.
  pose proof S1 as (Hc1 & Hx1 & Hy1 & Hm1). pose proof S2 as (Hc2 & Hx2 & Hy2 & Hm2).
  destruct l2 as [|p2 l2].
  - rewrite app_nil_r. unfold MergeFrom. rewrite Hc2. cbn [List.length Z.of_nat Z.eqb].
    exact S1.
  - destruct l1 as [|p1 l1].
    + rewrite app_nil_l. unfold MergeFrom. cbn [count set_all_valid].
      destruct (Z.eqb_spec (count s2) 0) as [Z2|_];
        [rewrite Hc2 in Z2; discriminate Z2|].
      destruct (Z.eqb_spec (count s1) 0) as [_|Z1];
        [|rewrite Hc1 in Z1; contradiction].
      unfold summarises. cbn [count mean_x mean_y m_xy].
      exact (conj Hc2 (conj Hx2 (conj Hy2 Hm2))).
    + set (L1 := p1 :: l1) in *. set (L2 := p2 :: l2) in *.
      assert (N1 : L1 <> []) by discriminate.
      assert (N2 : L2 <> []) by discriminate.
      assert (P1 : (0 < count s1)%Z) by (rewrite Hc1; subst L1; cbn; lia).
      assert (P2 : (0 < count s2)%Z) by (rewrite Hc2; subst L2; cbn; lia).
      rewrite (MergeFrom_general s1 s2 P1 P2) by (rewrite Hc1, Hc2; lia).
      cbv zeta. unfold summarises. cbn [count mean_x mean_y m_xy].
      unfold MergeMean. change (@dadd Qc _) with Qcplus.
      change (@dsub Qc _) with Qcminus.
      change (@dmul Qc _) with Qcmult. change (@ddiv Qc _) with Qcdiv.
      rewrite (mean_of_app fst L1 L2 N1 N2), (mean_of_app snd L1 L2 N1 N2).
      rewrite co_moment_app.
      rewrite (co_moment_recentre _ _ L1 N1), (co_moment_recentre _ _ L2 N2).
      rewrite of_int_add.
      rewrite Hm1, Hm2, Hx1, Hx2, Hy1, Hy2, Hc1, Hc2. unfold size.
      split; [rewrite length_app; lia|].
      split; [reflexivity|]. split; [reflexivity|]. ring.
Qed.

End MergeAlgebra.

(** ** The merge of correlation states in exact arithmetic *)

Section CorrelationMerge.
Import Moments.
Import CorrMoments.
Local Open Scope Qc_scope.

Lemma sq_moment_diag (proj : Qc * Qc -> Qc) (m : Qc) (l : list (Qc * Qc)) :
  CorrMoments.sq_moment m (map proj l) = co_moment m m (diag proj l).
Proof.
  unfold sq_moment, co_moment, diag. rewrite !map_map. reflexivity.
Qed.

Lemma mean_of_diag (proj : Qc * Qc -> Qc) (l : list (Qc * Qc)) :
  mean_of fst (diag proj l) = mean_of proj l
  /\ mean_of snd (diag proj l) = mean_of proj l.
Proof.
  unfold mean_of, diag, size. rewrite !map_map, length_map. split; reflexivity.
Qed.

Lemma diag_app (proj : Qc * Qc -> Qc) (l1 l2 : list (Qc * Qc)) :
  diag proj (l1 ++ l2) = diag proj l1 ++ diag proj l2.
Proof. apply map_app. Qed.

(** [MergeVarStd2] on the sums of squared deviations of two non-empty
    samples gives that of their concatenation. *)
Lemma MergeVarStd2_app (proj : Qc * Qc -> Qc) (l1 l2 : list (Qc * Qc)) :
  l1 <> [] -> l2 <> [] ->
  (Z.of_nat (List.length (l1 ++ l2)) <= INT64_MAX)%Z ->
  CorrelationState.MergeVarStd2
    (Z.of_nat (List.length l1)) (mean_of proj l1)
    (Z.of_nat (List.length l2)) (mean_of proj l2)
    (CorrMoments.sq_moment (mean_of proj l2) (map proj l2))
    (CorrMoments.sq_moment (mean_of proj l1) (map proj l1))
  = CorrMoments.sq_moment (mean_of proj (l1 ++ l2)) (map proj (l1 ++ l2)).
Proof.
  intros N1 N2 Hlen. rewrite length_app in Hlen.
  unfold CorrelationState.MergeVarStd2. cbv zeta.
  rewrite wrap64_id by (unfold INT64_MAX in Hlen; lia).
  change (@dadd Qc _) with Qcplus. change (@dsub Qc _) with Qcminus.
  change (@dmul Qc _) with Qcmult. change (@ddiv Qc _) with Qcdiv.
  rewrite !sq_moment_diag, diag_app, co_moment_app.
  assert (D1 : diag proj l1 <> []) by (destruct l1; [congruence | discriminate]).
  assert (D2 : diag proj l2 <> []) by (destruct l2; [congruence | discriminate]).
  rewrite (co_moment_recentre (mean_of proj (l1 ++ l2)) _ (diag proj l1) D1).
  rewrite (co_moment_recentre (mean_of proj (l1 ++ l2)) _ (diag proj l2) D2).
  destruct (mean_of_diag proj l1) as [-> ->].
  destruct (mean_of_diag proj l2) as [-> ->].
  rewrite (mean_of_app proj l1 l2 N1 N2).
  rewrite of_int_add.
  unfold size, diag. rewrite !length_map. ring.
Qed.

(** X7. The merge of two correlation states that hold the moments of two
    non-empty samples holds the moments of the concatenation: the wrapped
    covariance state and both sums of squared deviations. *)
Theorem CorrelationState_MergeFrom_app (cs1 cs2 : CorrelationState.t Qc)
    (l1 l2 : list (Qc * Qc)) :
  l1 <> [] -> l2 <> [] ->
  (Z.of_nat (List.length (l1 ++ l2)) <= INT64_MAX)%Z ->
  CorrMoments.summarises cs1 l1 -> CorrMoments.summarises cs2 l2 ->
  CorrMoments.summarises (CorrelationState.MergeFrom cs1 cs2) (l1 ++ l2).
Proof.
  intros N1 N2 Hlen (S1 & X1 & Y1) (S2 & X2 & Y2).
  pose proof S1 as (Hc1 & Hx1 & Hy1 & _). pose proof S2 as (Hc2 & Hx2 & Hy2 & _).
  unfold CorrMoments.summarises, CorrelationState.MergeFrom.
  cbn [CorrelationState.covarianceState CorrelationState.mx2 CorrelationState.my2].
  split; [apply MergeFrom_summarises_app; assumption|].
  rewrite Hc1, Hc2, Hx1, Hx2, Hy1, Hy2, X1, X2, Y1, Y2.
  split; apply MergeVarStd2_app; assumption.
Qed.

(** X8. [MergeVarStd2] has no branch for an empty side: when exactly one
    of the two counts is zero, the merged sum of squared deviations is, in
    exact arithmetic, the sum of the two, whatever the empty side holds. *)
Theorem MergeVarStd2_one_side_empty (count1 count2 : Z) (mean1 mean2 m22 out_m2 : Qc) :
  (0 <= count1 <= INT64_MAX)%Z -> (0 <= count2 <= INT64_MAX)%Z ->
  (count1 = 0%Z /\ count2 <> 0%Z) \/ (count1 <> 0%Z /\ count2 = 0%Z) ->
  CorrelationState.MergeVarStd2 count1 mean1 count2 mean2 m22 out_m2
  = out_m2 + m22.
Proof.
  intros H1 H2 Hz. unfold CorrelationState.MergeVarStd2. cbv zeta.
  change (@dadd Qc _) with Qcplus. change (@dsub Qc _) with Qcminus.
  change (@dmul Qc _) with Qcmult. change (@ddiv Qc _) with Qcdiv.
  destruct Hz as [[-> Hn]|[Hn ->]].
  - rewrite Z.add_0_l, wrap64_id by (unfold INT64_MAX in *; lia).
    change (of_int (D := Qc) 0) with 0.
    field. apply of_int_neq0. exact Hn.
  - rewrite Z.add_0_r, wrap64_id by (unfold INT64_MAX in *; lia).
    change (of_int (D := Qc) 0) with 0.
    field. apply of_int_neq0. exact Hn.
Qed.

End CorrelationMerge.

Lemma CorrelationState_MergeFrom_app_witness :
  [(of_int 1, of_int 2)] <> []
  /\ [(of_int 3, of_int 4)] <> []
  /\ Z.of_nat (List.length ([(of_int (D := Qc) 1, of_int (D := Qc) 2)]
                            ++ [(of_int 3, of_int 4)])) <= INT64_MAX
  /\ CorrMoments.summarises (sample_corr_state 1 2) [(of_int 1, of_int 2)]
  /\ CorrMoments.summarises (sample_corr_state 3 4) [(of_int 3, of_int 4)]
  /\ CorrMoments.summarises
       (CorrelationState.MergeFrom (sample_corr_state 1 2) (sample_corr_state 3 4))
       ([(of_int 1, of_int 2)] ++ [(of_int 3, of_int 4)]).
Proof.
  assert (N1 : [(of_int (D := Qc) 1, of_int (D := Qc) 2)] <> []) by discriminate.
  assert (N2 : [(of_int (D := Qc) 3, of_int (D := Qc) 4)] <> []) by discriminate.
  assert (H : Z.of_nat (List.length ([(of_int (D := Qc) 1, of_int (D := Qc) 2)]
                                      ++ [(of_int 3, of_int 4)])) <= INT64_MAX)
    by discriminate.
  assert (S1 : CorrMoments.summarises (sample_corr_state 1 2) [(of_int 1, of_int 2)]).
  { repeat split; apply Qc_is_canon; reflexivity. }
  assert (S2 : CorrMoments.summarises (sample_corr_state 3 4) [(of_int 3, of_int 4)]).
  { repeat split; apply Qc_is_canon; reflexivity. }
  split; [exact N1|]. split; [exact N2|]. split; [exact H|].
  split; [exact S1|]. split; [exact S2|].
  exact (CorrelationState_MergeFrom_app _ _ _ _ N1 N2 H S1 S2).
Defined.

Lemma MergeVarStd2_one_side_empty_witness :
  0 <= 0 <= INT64_MAX
  /\ 0 <= 2 <= INT64_MAX
  /\ ((0 = 0 /\ 2 <> 0) \/ (0 <> 0 /\ 2 = 0))
  /\ CorrelationState.MergeVarStd2 0 (of_int 9) 2 (of_int 3) (of_int 5) (of_int 7)
     = (of_int 7 + of_int 5)%Qc.
Proof.
  assert (H1 : 0 <= 0 <= INT64_MAX) by (split; discriminate).
  assert (H2 : 0 <= 2 <= INT64_MAX) by (split; discriminate).
  assert (H3 : (0 = 0 /\ 2 <> 0) \/ (0 <> 0 /\ 2 = 0))
    by (left; split; [reflexivity | discriminate]).
  split; [exact H1|]. split; [exact H2|]. split; [exact H3|].
  exact (MergeVarStd2_one_side_empty 0 2 (of_int 9) (of_int 3) (of_int 5) (of_int 7)
           H1 H2 H3).
Defined.

(** ** The cascade of [SumArray2WithCovariance] *)

(** The mask is a binary counter of the blocks. *)
Lemma lxor_1_even (g : Z) : g mod 2 = 0 -> Z.lxor g 1 = g + 1.
Proof.
  intros H. symmetry. apply Z.add_nocarry_lxor.
  change 1 with (Z.ones 1). rewrite Z.land_ones by lia. exact H.
Qed.

Lemma lxor_1_odd (g : Z) : g mod 2 = 1 -> Z.lxor g 1 = g - 1.
Proof.
  intros H. assert (E : (g - 1) mod 2 = 0).
  { rewrite Zminus_mod, H. reflexivity. }
  pose proof (lxor_1_even (g - 1) E) as E'.
  replace (g - 1 + 1) with g in E' by lia.
  rewrite <- E' at 1.
  rewrite Z.lxor_assoc, Z.lxor_nilpotent, Z.lxor_0_r. reflexivity.
Qed.

Lemma lxor_mul_pow2 (g c : Z) :
  0 <= c -> Z.lxor (g * 2 ^ c) (2 ^ c) = Z.lxor g 1 * 2 ^ c.
Proof.
  intros Hc. rewrite <- !Z.shiftl_mul_pow2 by exact Hc.
  rewrite Z.shiftl_lxor. rewrite (Z.shiftl_mul_pow2 1) by exact Hc.
  rewrite Z.mul_1_l. reflexivity.
Qed.

Lemma land_mul_pow2 (g c : Z) :
  0 <= c -> Z.land (g * 2 ^ c) (2 ^ c) = (g mod 2) * 2 ^ c.
Proof.
  intros Hc. rewrite <- !Z.shiftl_mul_pow2 by exact Hc.
  rewrite <- (Z.mul_1_l (2 ^ c)) at 1. rewrite <- (Z.shiftl_mul_pow2 1) by exact Hc.
  rewrite <- Z.shiftl_land. change 1 with (Z.ones 1) at 1.
  rewrite Z.land_ones by lia. reflexivity.
Qed.

Section Levels.
Context {D : Type} {ops : DoubleOps D}.
Import Summation.

Lemma length_set_at (i : nat) (v : D) (sum : list D) :
  List.length (set_at i v sum) = List.length sum.
Proof.
  revert i. induction sum as [|s sum IH]; intros [|i]; cbn; try reflexivity.
  f_equal. apply IH.
Qed.

Lemma get_set_same (i : nat) (v : D) (sum : list D) :
  (i < List.length sum)%nat -> get_at i (set_at i v sum) = v.
Proof.
  unfold get_at. revert i. induction sum as [|s sum IH]; intros [|i] H; cbn in *;
    try lia; try reflexivity.
  apply IH. lia.
Qed.

Lemma get_set_other (i j : nat) (v : D) (sum : list D) :
  i <> j -> get_at j (set_at i v sum) = get_at j sum.
Proof.
  unfold get_at. revert i j. induction sum as [|s sum IH]; intros [|i] [|j] H; cbn;
    try reflexivity; try congruence.
  apply IH. congruence.
Qed.

Lemma length_add_at (i : nat) (v : D) (sum : list D) :
  List.length (add_at i v sum) = List.length sum.
Proof. apply length_set_at. Qed.

Lemma get_add_other (i j : nat) (v : D) (sum : list D) :
  i <> j -> get_at j (add_at i v sum) = get_at j sum.
Proof. apply get_set_other. Qed.

(** A measure of the buffer that the carry of a pending sum into the next
    level does not change. *)
Variable X : Type.
Variable T : list D -> X.
Variable step : X -> D -> X.
Hypothesis T_add : forall (b : D) (sum : list D),
  (0 < List.length sum)%nat -> T (add_at 0 b sum) = step (T sum) b.
Hypothesis T_carry : forall (c : nat) (sum : list D),
  (S c < List.length sum)%nat ->
  T (add_at (S c) (get_at c sum) (set_at c dzero sum)) = T sum.

(** The [while] loop of [reduce] at level [c], [h] being the count of the
    blocks before this one without its [c] low bits, which are all set. *)
Lemma carry_counts (fuel : nat) : forall (c : nat) (sum : list D) (h : Z),
  0 <= h ->
  (h + 1) * 2 ^ Z.of_nat c < 2 ^ Z.of_nat (List.length sum) ->
  (List.length sum <= 64)%nat ->
  (List.length sum <= c + fuel)%nat ->
  exists (c' : nat) (sum' : list D),
    carry fuel c (2 ^ Z.of_nat c) sum (Z.lxor h 1 * 2 ^ Z.of_nat c)
      = (c', sum', (h + 1) * 2 ^ Z.of_nat c)
    /\ (c <= c' < List.length sum)%nat
    /\ List.length sum' = List.length sum
    /\ (forall j : nat, (c' < j)%nat -> get_at j sum' = get_at j sum)
    /\ T sum' = T sum.
Proof.
  induction fuel as [|fuel IH]; intros c sum h Hh Hk HL Hfuel.
  - exfalso.
    assert (2 ^ Z.of_nat c < 2 ^ Z.of_nat (List.length sum)) by nia.
    apply Z.pow_lt_mono_r_iff in H; lia.
  - assert (Hc : (c < List.length sum)%nat).
    { assert (2 ^ Z.of_nat c < 2 ^ Z.of_nat (List.length sum)) by nia.
      apply Z.pow_lt_mono_r_iff in H; lia. }
    cbn [carry]. rewrite land_mul_pow2 by lia.
    assert (P : 0 < 2 ^ Z.of_nat c) by (apply Z.pow_pos_nonneg; lia).
    destruct (Z.eq_dec (h mod 2) 0) as [Heven|Hodd].
    + rewrite (lxor_1_even h Heven).
      replace ((h + 1) mod 2) with 1
        by (rewrite Zplus_mod, Heven; reflexivity).
      destruct (Z.eqb_spec (1 * 2 ^ Z.of_nat c) 0) as [E|_]; [lia|].
      exists c, sum. repeat split; try lia; reflexivity.
    + assert (Hodd' : h mod 2 = 1) by (pose proof (Z.mod_pos_bound h 2); lia).
      rewrite (lxor_1_odd h Hodd').
      replace ((h - 1) mod 2) with 0
        by (rewrite Zminus_mod, Hodd'; reflexivity).
      rewrite Z.mul_0_l. cbn [Z.eqb].
      set (h' := h / 2).
      assert (Eh : h = 2 * h' + 1) by (subst h'; pose proof (Z.div_mod h 2); lia).
      assert (E2 : 2 ^ Z.of_nat (S c) = 2 * 2 ^ Z.of_nat c).
      { rewrite Nat2Z.inj_succ, Z.pow_succ_r by lia. reflexivity. }
      assert (Hh' : 0 <= h') by (subst h'; apply Z.div_pos; lia).
      clearbody h'. subst h.
      assert (Hc1 : (S c < List.length sum)%nat).
      { assert (2 ^ Z.of_nat (S c) < 2 ^ Z.of_nat (List.length sum))
          by (rewrite E2; nia).
        apply Z.pow_lt_mono_r_iff in H; lia. }
      assert (Em : Z.shiftl (2 ^ Z.of_nat c) 1 mod 2 ^ 64 = 2 ^ Z.of_nat (S c)).
      { rewrite Z.shiftl_mul_pow2 by lia. change (2 ^ 1) with 2.
        rewrite E2, (Z.mul_comm 2). apply Z.mod_small.
        split; [lia|]. rewrite Z.mul_comm, <- E2.
        apply Z.pow_lt_mono_r; lia. }
      rewrite Em.
      replace ((2 * h' + 1 - 1) * 2 ^ Z.of_nat c)
        with (h' * 2 ^ Z.of_nat (S c)) by (rewrite E2; ring).
      rewrite lxor_mul_pow2 by lia.
      destruct (IH (S c) (add_at (S c) (get_at c sum) (set_at c dzero sum)) h')
        as (c' & sum' & Ecarry & Hc' & Hlen & Hget & HT).
      * exact Hh'.
      * rewrite length_add_at, length_set_at, E2.
        replace ((h' + 1) * (2 * 2 ^ Z.of_nat c))
          with ((2 * h' + 1 + 1) * 2 ^ Z.of_nat c) by ring. exact Hk.
      * rewrite length_add_at, length_set_at. exact HL.
      * rewrite length_add_at, length_set_at. lia.
      * rewrite length_add_at, length_set_at in *.
        exists c', sum'. rewrite Ecarry.
        split; [f_equal; rewrite E2; ring|]. split; [lia|]. split; [exact Hlen|]. split.
        -- intros j Hj. rewrite Hget by exact Hj.
           rewrite get_add_other by lia. apply get_set_other. lia.
        -- rewrite HT. apply T_carry. exact Hc1.
Qed.

(** One call of [reduce]: the mask counts one block more, the root stays a
    level of the buffer, and the measure takes the block sum in. *)
Lemma reduce_invariant (L : nat) (k : Z) (st : levels) (b : D) :
  Cascade.invariant L k st ->
  0 <= k -> k + 1 < 2 ^ Z.of_nat L -> (L <= 64)%nat ->
  Cascade.invariant L (k + 1) (reduce st b)
  /\ T (sum (reduce st b)) = step (T (sum st)) b.
Proof.
  intros (Hm & Hlen & Hroot & Hz) Hk Hlt HL.
  destruct (carry_counts 64 0 (add_at 0 b (sum st)) k) as
    (c' & sum' & Ecarry & Hc' & Hlen' & Hget & HT).
  - exact Hk.
  - rewrite length_add_at, Hlen. cbn [Z.of_nat]. rewrite Z.pow_0_r, Z.mul_1_r. exact Hlt.
  - rewrite length_add_at, Hlen. exact HL.
  - rewrite length_add_at, Hlen. lia.
  - cbn [Z.of_nat] in Ecarry. rewrite Z.pow_0_r, !Z.mul_1_r in Ecarry.
    rewrite length_add_at, Hlen in *.
    unfold reduce. rewrite Hm, Ecarry. unfold Cascade.invariant.
    cbn [sum mask root_level].
    split; [|rewrite HT; apply T_add; lia].
    split; [reflexivity|]. split; [exact Hlen'|]. split; [lia|].
    intros j Hj. rewrite Hget by lia. rewrite get_add_other by lia.
    apply Hz. lia.
Qed.

Lemma fold_left_cons {A S : Type} (f : S -> A -> S) (a : A) (l : list A) (s : S) :
  fold_left f (a :: l) s = fold_left f l (f s a).
Proof. reflexivity. Qed.

Lemma fold_reduce_invariant (L : nat) (bs : list D) : forall (k : Z) (st : levels),
  Cascade.invariant L k st ->
  0 <= k -> k + Z.of_nat (List.length bs) < 2 ^ Z.of_nat L -> (L <= 64)%nat ->
  Cascade.invariant L (k + Z.of_nat (List.length bs)) (fold_left reduce bs st)
  /\ T (sum (fold_left reduce bs st)) = fold_left step bs (T (sum st)).
Proof.
  induction bs as [|b bs IH]; intros k st Hinv Hk Hlt HL.
  - cbn [List.length fold_left Z.of_nat]. rewrite Z.add_0_r. split; [exact Hinv|reflexivity].
  - rewrite !fold_left_cons. rewrite length_cons in *.
    destruct (reduce_invariant L k st b Hinv Hk) as [Hinv' HT']; [lia|exact HL|].
    destruct (IH (k + 1) (reduce st b) Hinv') as [Hinv2 HT2]; [lia|lia|exact HL|].
    replace (k + Z.of_nat (S (List.length bs))) with (k + 1 + Z.of_nat (List.length bs)) by lia.
    split; [exact Hinv2|]. rewrite HT2, HT'. reflexivity.
Qed.

End Levels.

Section Runs.
Context {D : Type} {ops : DoubleOps D}.
Context {CType : Type}.
Variable cnull : CType.
Variable func : CType -> CType -> D.
Variables data1 data2 : ArraySpan CType.
Import Summation.

Lemma fold_left_map_arg {A B S : Type} (f : S -> B -> S) (g : A -> B) (l : list A) :
  forall s : S, fold_left f (map g l) s = fold_left (fun s a => f s (g a)) l s.
Proof.
  induction l as [|a l IH]; intros s; [reflexivity|].
  rewrite map_cons, !fold_left_cons. apply IH.
Qed.

(** The visitor hands the block sums of the run to [reduce], one by one. *)
Lemma visit_run_block_sums (st : levels) (run : nat * nat) :
  visit_run cnull func data1 data2 st run =
  fold_left reduce (Cascade.run_block_sums cnull func data1 data2 run) st.
Proof.
  destruct run as [pos len]. unfold visit_run, Cascade.run_block_sums.
  rewrite fold_left_app, fold_left_map_arg.
  destruct (0 <? len mod kBlockSize)%nat; cbn [fold_left]; reflexivity.
Qed.

Lemma final_block_sums :
  Cascade.final cnull func data1 data2 =
  fold_left reduce
    (flat_map (Cascade.run_block_sums cnull func data1 data2) (Span.SetBitRuns data1))
    (Cascade.initial data1).
Proof.
  unfold Cascade.final. generalize (Cascade.initial (D := D) data1) as st.
  generalize (Span.SetBitRuns data1) as runs.
  induction runs as [|r runs IH]; intros st; [reflexivity|].
  rewrite fold_left_cons. cbn [flat_map]. rewrite fold_left_app, <- visit_run_block_sums. apply IH.
Qed.

Lemma run_block_sums_length (run : nat * nat) :
  (List.length (Cascade.run_block_sums cnull func data1 data2 run) <= snd run)%nat.
Proof.
  destruct run as [pos len]. unfold Cascade.run_block_sums. cbn [snd].
  rewrite length_app, length_map, length_seq. unfold kBlockSize.
  pose proof (Nat.div_mod_eq len 16) as E.
  destruct (Nat.ltb_spec 0 (len mod 16)); cbn [List.length]; lia.
Qed.

Lemma valid_count_filter :
  valid_count data1
  = Z.of_nat (List.length (filter (fun b : bool => b) (Span.validity data1))).
Proof.
  unfold valid_count, Span.length, Span.GetNullCount, Span.validity.
  induction data1 as [|[v []] d IH]; cbn [filter map List.length snd negb] in *; lia.
Qed.

Lemma block_sums_count :
  Z.of_nat (List.length
    (flat_map (Cascade.run_block_sums cnull func data1 data2) (Span.SetBitRuns data1)))
  <= valid_count data1.
Proof.
  assert (H : forall runs : list (nat * nat),
    (List.length (flat_map (Cascade.run_block_sums cnull func data1 data2) runs)
     <= list_sum (map snd runs))%nat).
  { induction runs as [|r runs IH]; [cbn; lia|].
    cbn [flat_map map]. rewrite length_app.
    change (list_sum (snd r :: map snd runs)) with (snd r + list_sum (map snd runs))%nat.
    pose proof (run_block_sums_length r). lia. }
  specialize (H (Span.SetBitRuns data1)). unfold Span.SetBitRuns in H at 2.
  rewrite set_bit_runs_total in H.
  rewrite valid_count_filter. lia.
Qed.

Lemma levels_of_bounds :
  Span.length data1 < 2 ^ 63 ->
  1 <= Cascade.levels_of data1 <= 64
  /\ valid_count data1 < 2 ^ Cascade.levels_of data1.
Proof.
  intros Hlen. pose proof (valid_count_bounds data1) as Hv.
  unfold Cascade.levels_of. fold (valid_count data1).
  pose proof (Z.log2_up_nonneg (valid_count data1)) as H0.
  destruct (Z.eq_dec (valid_count data1) 0) as [E|E].
  - rewrite E. cbn. lia.
  - assert (Hle : Z.log2_up (valid_count data1) <= 63).
    { apply Z.log2_up_le_pow2; lia. }
    split; [lia|].
    destruct (Z.eq_dec (valid_count data1) 1) as [E1|E1]; [rewrite E1; cbn; lia|].
    pose proof (Z.log2_up_spec (valid_count data1) ltac:(lia)) as [_ Hup].
    rewrite Z.pow_add_r by lia. lia.
Qed.

Lemma initial_invariant :
  Span.length data1 < 2 ^ 63 ->
  Cascade.invariant (Z.to_nat (Cascade.levels_of data1)) 0 (Cascade.initial (D := D) data1).
Proof.
  intros Hlen. destruct (levels_of_bounds Hlen) as [HL _].
  unfold Cascade.invariant, Cascade.initial. cbn [sum mask root_level].
  rewrite repeat_length. repeat split; try lia.
  intros j _. unfold get_at. apply nth_repeat.
Qed.

(** [SumArray2WithCovariance] after its early return. *)
Lemma SumArray2WithCovariance_final :
  SumArray2WithCovariance cnull data1 data2 func =
  if valid_count data1 =? 0 then dzero
  else
    get_at (root_level (Cascade.final cnull func data1 data2))
      (fold_left (fun sum i => add_at i (get_at (i - 1) sum) sum)
         (seq 1 (root_level (Cascade.final cnull func data1 data2)))
         (sum (Cascade.final cnull func data1 data2))).
Proof. reflexivity. Qed.

End Runs.

(** X9. The levels of the cascade suffice. For every carrier of the sums, binary64
    included, and every [data1] of fewer than [2^63] slots: after the last
    run the buffer of [SumArray2WithCovariance] still has its [levels]
    entries, [root_level] (the largest [cur_level] that any call of [reduce]
    reached) is below [levels], so that [DCHECK_LT(cur_level, levels)] holds
    and [sum] is never indexed past its end, the mask is the number of blocks
    reduced, and every level above the root is zero. *)
Theorem cascade_levels_suffice {D : Type} {ops : DoubleOps D} {CType : Type}
    (cnull : CType) (func : CType -> CType -> D) (data1 data2 : ArraySpan CType) :
  Span.length data1 < 2 ^ 63 ->
  List.length (Summation.sum (Cascade.final cnull func data1 data2))
    = Z.to_nat (Cascade.levels_of data1)
  /\ (Summation.root_level (Cascade.final cnull func data1 data2)
      < Z.to_nat (Cascade.levels_of data1))%nat
  /\ Summation.mask (Cascade.final cnull func data1 data2)
      = Z.of_nat (List.length
          (flat_map (Cascade.run_block_sums cnull func data1 data2)
             (Span.SetBitRuns data1)))
  /\ (forall j : nat,
        (Summation.root_level (Cascade.final cnull func data1 data2) < j)%nat ->
        Summation.get_at j (Summation.sum (Cascade.final cnull func data1 data2)) = dzero).
Proof.
  intros Hlen. destruct (levels_of_bounds data1 Hlen) as [HL Hpow].
  pose proof (block_sums_count cnull func data1 data2) as Hn.
  rewrite final_block_sums.
  destruct (fold_reduce_invariant unit (fun _ => tt) (fun _ _ => tt)
              (fun _ _ _ => eq_refl) (fun _ _ _ => eq_refl)
              (Z.to_nat (Cascade.levels_of data1))
              (flat_map (Cascade.run_block_sums cnull func data1 data2)
                 (Span.SetBitRuns data1))
              0 (Cascade.initial data1)) as [(Hm & Hl & Hr & Hz) _].
  - apply initial_invariant. exact Hlen.
  - lia.
  - rewrite Z2Nat.id by lia. lia.
  - lia.
  - repeat split; assumption.
Qed.

Lemma cascade_levels_suffice_witness :
  Nat.lt
    (Summation.root_level
       (Cascade.final (D := float) 0 (fun a b => of_int (a * b))
          [(1, true); (2, true); (0, false); (4, true)]
          [(5, true); (6, true); (7, true); (8, true)]))
    3.
Proof.
  apply (cascade_levels_suffice (D := float) 0 (fun a b => of_int (a * b))
           [(1, true); (2, true); (0, false); (4, true)]
           [(5, true); (6, true); (7, true); (8, true)]).
  vm_compute. reflexivity.
Defined.

(** ** The cascade in exact arithmetic *)

Section ExactCascade.
Import Summation Moments.
Local Open Scope Qc_scope.

Lemma total_set_at (i : nat) (v : Qc) (s : list Qc) :
  (i < List.length s)%nat -> total (set_at i v s) = total s - get_at i s + v.
Proof.
  unfold get_at. revert i. induction s as [|a s IH]; intros [|i] H; cbn [List.length] in H;
    try lia; cbn [set_at nth]; rewrite !total_cons.
  - change (@dzero Qc _) with 0. ring.
  - rewrite IH by lia. change (@dzero Qc _) with 0. ring.
Qed.

Lemma total_add_at_0 (b : Qc) (s : list Qc) :
  (0 < List.length s)%nat -> total (add_at 0 b s) = total s + b.
Proof.
  intros H. unfold add_at. rewrite total_set_at by exact H.
  change (@dadd Qc _) with Qcplus. ring.
Qed.

Lemma total_carry (c : nat) (s : list Qc) :
  (S c < List.length s)%nat ->
  total (add_at (S c) (get_at c s) (set_at c dzero s)) = total s.
Proof.
  intros H. unfold add_at.
  rewrite total_set_at by (rewrite length_set_at; exact H).
  rewrite total_set_at by lia.
  change (@dadd Qc _) with Qcplus. change (@dzero Qc _) with 0. ring.
Qed.

Lemma fold_left_total (bs : list Qc) : forall a : Qc,
  fold_left Qcplus bs a = a + total bs.
Proof.
  induction bs as [|b bs IH]; intros a.
  - cbn [fold_left]. rewrite total_nil. ring.
  - rewrite fold_left_cons, IH, total_cons. ring.
Qed.

Lemma total_repeat_zero (n : nat) : total (repeat (@dzero Qc _) n) = 0.
Proof.
  induction n as [|n IH]; [reflexivity|].
  cbn [repeat]. rewrite total_cons, IH. change (@dzero Qc _) with 0. ring.
Qed.

Lemma total_firstn_S (s : list Qc) : forall n : nat,
  (n < List.length s)%nat ->
  total (firstn (S n) s) = total (firstn n s) + get_at n s.
Proof.
  unfold get_at. induction s as [|a s IH]; intros n H; cbn [List.length] in H; [lia|].
  destruct n as [|n].
  - cbn [firstn nth]. rewrite total_cons, !total_nil. ring.
  - change (firstn (S (S n)) (a :: s)) with (a :: firstn (S n) s).
    change (firstn (S n) (a :: s)) with (a :: firstn n s).
    cbn [nth]. rewrite !total_cons, IH by lia. ring.
Qed.

Lemma total_zero_above (s : list Qc) : forall n : nat,
  (forall j : nat, (n <= j)%nat -> get_at j s = 0) ->
  total s = total (firstn n s).
Proof.
  unfold get_at. induction s as [|a s IH]; intros n H.
  - rewrite firstn_nil. reflexivity.
  - destruct n as [|n].
    + cbn [firstn]. rewrite total_cons, total_nil.
      rewrite (IH 0%nat) by (intros j _; apply (H (S j)); lia).
      cbn [firstn]. rewrite total_nil.
      pose proof (H 0%nat ltac:(lia)) as H0. cbn [nth] in H0. rewrite H0. ring.
    + cbn [firstn]. rewrite !total_cons. f_equal. apply IH.
      intros j Hj. apply (H (S j)). lia.
Qed.

(** The final loop [for (i = 1; i <= root_level; i++) sum[i] += sum[i - 1]]
    leaves at the root the sum of the levels up to it. *)
Lemma final_loop_prefix (s : list Qc) : forall r : nat,
  (r < List.length s)%nat ->
  List.length (fold_left (fun sum i => add_at i (get_at (i - 1) sum) sum) (seq 1 r) s)
    = List.length s
  /\ get_at r (fold_left (fun sum i => add_at i (get_at (i - 1) sum) sum) (seq 1 r) s)
     = total (firstn (S r) s)
  /\ (forall j : nat, (r < j)%nat ->
        get_at j (fold_left (fun sum i => add_at i (get_at (i - 1) sum) sum) (seq 1 r) s)
        = get_at j s).
Proof.
  induction r as [|r IH]; intros Hr.
  - cbn [seq fold_left]. split; [reflexivity|]. split; [|reflexivity].
    rewrite total_firstn_S by exact Hr. cbn [firstn]. rewrite total_nil. ring.
  - rewrite seq_S, fold_left_app. cbn [fold_left].
    destruct (IH ltac:(lia)) as (Hlen & Hget & Hother).
    set (s1 := fold_left (fun sum i => add_at i (get_at (i - 1) sum) sum) (seq 1 r) s) in *.
    replace (1 + r)%nat with (S r) by lia.
    replace (S r - 1)%nat with r by lia.
    split; [rewrite length_add_at; exact Hlen|]. split.
    + unfold add_at. rewrite get_set_same by lia.
      rewrite Hget, Hother by lia.
      rewrite (total_firstn_S s (S r)) by exact Hr.
      change (@dadd Qc _) with Qcplus. ring.
    + intros j Hj. rewrite get_add_other by lia. apply Hother. lia.
Qed.

Context {CType : Type}.
Variable cnull : CType.
Variable func : CType -> CType -> Qc.
Variables data1 data2 : ArraySpan CType.


Lemma map_seq_from {B : Type} (g : nat -> B) (start n : nat) :
  map (fun j => g (start + j)%nat) (seq 0 n) = map g (seq start n).
Proof.
  induction n as [|n IH]; [reflexivity|].
  rewrite !seq_S, !map_app, IH. reflexivity.
Qed.

Lemma block_sum_total (start n : nat) :
  block_sum cnull func data1 data2 start n = total (map (Cascade.term cnull func data1 data2) (seq start n)).
Proof.
  unfold block_sum. rewrite <- (map_seq_from (Cascade.term cnull func data1 data2)).
  change (fun acc j => (acc + func (Span.value_at cnull data1 (start + j))
                                   (Span.value_at cnull data2 (start + j)))%dbl)
    with (fun acc j => (acc + Cascade.term cnull func data1 data2 (start + j))%dbl).
  change (@dadd Qc _) with Qcplus.
  rewrite <- (fold_left_map_arg Qcplus (fun j => Cascade.term cnull func data1 data2 (start + j))).
  rewrite fold_left_total. change (@dzero Qc _) with 0. ring.
Qed.

Lemma whole_blocks_total (pos B : nat) : forall n : nat,
  total (map (fun i => block_sum cnull func data1 data2 (pos + i * B) B) (seq 0 n))
  = total (map (Cascade.term cnull func data1 data2) (seq pos (n * B))).
Proof.
  induction n as [|n IH]; [reflexivity|].
  rewrite seq_S, map_app, total_app, IH. cbn [map]. rewrite total_cons, total_nil.
  rewrite block_sum_total, Nat.mul_succ_l, seq_app, map_app, total_app.
  cbn [Nat.add]. ring.
Qed.

Lemma run_block_sums_total (run : nat * nat) :
  total (Cascade.run_block_sums cnull func data1 data2 run)
  = total (map (Cascade.term cnull func data1 data2) (seq (fst run) (snd run))).
Proof.
  destruct run as [pos len]. unfold Cascade.run_block_sums. cbn [fst snd].
  assert (E : len = (len / kBlockSize * kBlockSize + len mod kBlockSize)%nat).
  { pose proof (Nat.div_mod_eq len kBlockSize). lia. }
  rewrite E at 5. rewrite seq_app, map_app, !total_app, whole_blocks_total.
  f_equal. destruct (Nat.ltb_spec 0 (len mod kBlockSize)) as [H|H].
  - rewrite total_cons, total_nil, block_sum_total. ring.
  - replace (len mod kBlockSize)%nat with 0%nat by lia. reflexivity.
Qed.

Lemma set_bit_runs_positions (bits : list bool) : forall pos cur : nat,
  (cur <= pos)%nat ->
  flat_map (fun run => seq (fst run) (snd run)) (Span.set_bit_runs_from pos cur bits)
  = seq (pos - cur) cur ++ Cascade.true_positions pos bits.
Proof.
  induction bits as [|b bits IH]; intros pos cur H.
  - cbn [Span.set_bit_runs_from Cascade.true_positions].
    destruct (Nat.eqb_spec cur 0) as [-> | _]; cbn [flat_map fst snd seq];
      rewrite ?app_nil_r; reflexivity.
  - destruct b; cbn [Span.set_bit_runs_from Cascade.true_positions].
    + rewrite IH by lia. replace (S pos - S cur)%nat with (pos - cur)%nat by lia.
      rewrite seq_S, <- app_assoc. replace (pos - cur + cur)%nat with pos by lia.
      reflexivity.
    + rewrite flat_map_app, IH by lia. cbn [seq app].
      destruct (Nat.eqb_spec cur 0) as [-> | _]; cbn [flat_map fst snd seq];
        rewrite ?app_nil_r; reflexivity.
Qed.

Lemma block_sums_total :
  total (flat_map (Cascade.run_block_sums cnull func data1 data2) (Span.SetBitRuns data1))
  = total (Cascade.terms cnull func data1 data2).
Proof.
  unfold Cascade.terms, Span.SetBitRuns.
  rewrite <- (app_nil_l (Cascade.true_positions 0 (Span.validity data1))).
  change (@nil nat) with (seq (0 - 0) 0).
  rewrite <- set_bit_runs_positions by lia.
  generalize (Span.set_bit_runs_from 0 0 (Span.validity data1)) as runs.
  induction runs as [|r runs IH]; [reflexivity|].
  cbn [flat_map]. rewrite map_app, !total_app, IH, run_block_sums_total. reflexivity.
Qed.

Lemma true_positions_length (bits : list bool) : forall pos : nat,
  List.length (Cascade.true_positions pos bits)
  = List.length (filter (fun b : bool => b) bits).
Proof.
  induction bits as [|[] bits IH]; intros pos; cbn [Cascade.true_positions filter List.length];
    [reflexivity|f_equal|]; apply IH.
Qed.

Lemma true_positions_S (bits : list bool) : forall pos : nat,
  Cascade.true_positions (S pos) bits = map S (Cascade.true_positions pos bits).
Proof.
  induction bits as [|[] bits IH]; intros pos; cbn [Cascade.true_positions map];
    [reflexivity|f_equal|]; apply IH.
Qed.

End ExactCascade.

(** When the second array has a slot for every slot of the first, reading
    both value buffers at the valid positions of the first gives the pairs
    of slots whose first component is valid. *)
Lemma positions_where_valid {CType B : Type} (cnull : CType) (g : CType -> CType -> B)
    (data1 : ArraySpan CType) : forall data2 : ArraySpan CType,
  (List.length data1 <= List.length data2)%nat ->
  map (fun i => g (Span.value_at cnull data1 i) (Span.value_at cnull data2 i))
    (Cascade.true_positions 0 (Span.validity data1))
  = map (fun s => g (fst (fst s)) (fst (snd s)))
      (filter (fun s => snd (fst s)) (combine data1 data2)).
Proof.
  induction data1 as [|[v b] data1 IH]; intros [|[w c] data2] Hlen;
    cbn [List.length] in Hlen; try lia; [reflexivity|reflexivity|].
  cbn [Span.validity map snd Cascade.true_positions combine filter fst].
  assert (E : map (fun i => g (Span.value_at cnull ((v, b) :: data1) i)
                               (Span.value_at cnull ((w, c) :: data2) i))
                (Cascade.true_positions 1 (Span.validity data1))
              = map (fun i => g (Span.value_at cnull data1 i) (Span.value_at cnull data2 i))
                  (Cascade.true_positions 0 (Span.validity data1))).
  { rewrite true_positions_S, map_map. reflexivity. }
  fold (Span.validity data1).
  destruct b; cbn [map]; rewrite E, IH by lia; reflexivity.
Qed.

Lemma SumArray2WithCovariance_total {CType : Type} (cnull : CType)
    (func : CType -> CType -> Qc) (data1 data2 : ArraySpan CType) :
  Span.length data1 < 2 ^ 63 ->
  Summation.SumArray2WithCovariance cnull data1 data2 func
    = Moments.total (Cascade.terms cnull func data1 data2).
Proof.
  intros Hlen. rewrite SumArray2WithCovariance_final.
  destruct (Z.eqb_spec (valid_count data1) 0) as [E0|E0].
  - unfold Cascade.terms. rewrite valid_count_filter in E0.
    rewrite <- (true_positions_length _ 0%nat) in E0.
    destruct (Cascade.true_positions 0 (Span.validity data1));
      [reflexivity|cbn [List.length] in E0; lia].
  - destruct (levels_of_bounds data1 Hlen) as [HL Hpow].
    pose proof (block_sums_count cnull func data1 data2) as Hn.
    rewrite final_block_sums.
    destruct (fold_reduce_invariant Qc Moments.total Qcplus
                total_add_at_0 total_carry
                (Z.to_nat (Cascade.levels_of data1))
                (flat_map (Cascade.run_block_sums cnull func data1 data2)
                   (Span.SetBitRuns data1))
                0 (Cascade.initial data1)) as [(Hm & Hl & Hr & Hz) HT].
    + apply initial_invariant. exact Hlen.
    + lia.
    + rewrite Z2Nat.id by lia. lia.
    + lia.
    + set (st := fold_left Summation.reduce _ _) in *.
      destruct (final_loop_prefix (Summation.sum st) (Summation.root_level st))
        as (_ & Hroot & _); [lia|].
      rewrite Hroot.
      rewrite <- (total_zero_above (Summation.sum st) (S (Summation.root_level st)))
        by (intros j Hj; apply Hz; lia).
      rewrite HT, fold_left_total, block_sums_total.
      unfold Cascade.initial. cbn [Summation.sum]. rewrite total_repeat_zero.
      apply Qcplus_0_l.
Qed.

Lemma SumArray2WithCovariance_where_valid {CType : Type} (cnull : CType)
    (func : CType -> CType -> Qc) (data1 data2 : ArraySpan CType) :
  Span.length data1 < 2 ^ 63 ->
  (List.length data1 <= List.length data2)%nat ->
  Summation.SumArray2WithCovariance cnull data1 data2 func
    = sum_where_valid func data1 data2.
Proof.
  intros Hlen Hle. rewrite SumArray2WithCovariance_total by exact Hlen.
  unfold sum_where_valid, Cascade.terms, Cascade.term.
  rewrite (positions_where_valid cnull func data1 data2 Hle). reflexivity.
Qed.

(** X10. The cascade is a sum. In exact arithmetic, for [data1] of fewer
    than [2^63] slots, [SumArray2WithCovariance(data1, data2, func)] is the
    plain sum of [func(values1[i], values2[i])] over the positions [i] at
    which [data1] is valid: the blocks of 16, the levels and the final loop
    only change the order of the additions. The validity bitmap of [data2] is
    never read; when [data2] is at least as long as [data1] this is the sum
    over the pairs of slots whose first component is valid. *)
Theorem SumArray2WithCovariance_exact {CType : Type} (cnull : CType)
    (func : CType -> CType -> Qc) (data1 data2 : ArraySpan CType) :
  Span.length data1 < 2 ^ 63 ->
  Summation.SumArray2WithCovariance cnull data1 data2 func
    = Moments.total (Cascade.terms cnull func data1 data2)
  /\ ((List.length data1 <= List.length data2)%nat ->
      Summation.SumArray2WithCovariance cnull data1 data2 func
        = sum_where_valid func data1 data2).
Proof.
  intros Hlen. split.
  - apply SumArray2WithCovariance_total. exact Hlen.
  - intros Hle. apply SumArray2WithCovariance_where_valid; assumption.
Qed.

Lemma SumArray2WithCovariance_exact_witness :
  Summation.SumArray2WithCovariance 0%Qc
    [(Q2Qc 1, true); (Q2Qc 2, false); (Q2Qc 3, true)]
    [(Q2Qc 4, true); (Q2Qc 5, true); (Q2Qc 6, false)]
    Qcmult
  = Q2Qc 22.
Proof.
  destruct (SumArray2WithCovariance_exact 0%Qc Qcmult
              [(Q2Qc 1, true); (Q2Qc 2, false); (Q2Qc 3, true)]
              [(Q2Qc 4, true); (Q2Qc 5, true); (Q2Qc 6, false)]) as [_ H].
  - vm_compute. reflexivity.
  - rewrite H by (cbn; lia). apply Qc_is_canon. reflexivity.
Defined.

(** ** [Consume] on the floating-point path, in exact arithmetic *)

Section ValidPairs.
Context {CType : Type}.

Lemma validity_length (x y : ArraySpan CType) :
  Span.validity x = Span.validity y -> List.length x = List.length y.
Proof.
  intros H. apply (f_equal (@List.length bool)) in H.
  unfold Span.validity in H. rewrite !length_map in H. exact H.
Qed.

Lemma GetNullCount_validity (x : ArraySpan CType) :
  Span.GetNullCount x = Z.of_nat (List.length (filter negb (Span.validity x))).
Proof.
  unfold Span.GetNullCount, Span.validity. f_equal.
  induction x as [|[v b] x IH]; [reflexivity|].
  cbn [filter map snd]. destruct b; cbn [negb List.length]; rewrite IH; reflexivity.
Qed.

Lemma validity_GetNullCount (x y : ArraySpan CType) :
  Span.validity x = Span.validity y -> Span.GetNullCount x = Span.GetNullCount y.
Proof. intros H. rewrite !GetNullCount_validity, H. reflexivity. Qed.

Lemma validity_valid_count (x y : ArraySpan CType) :
  Span.validity x = Span.validity y -> valid_count x = valid_count y.
Proof.
  intros H. unfold valid_count, Span.length.
  rewrite (validity_length x y H), (validity_GetNullCount x y H). reflexivity.
Qed.

Lemma first_of_pairs {B : Type} (h : CType * bool -> B) (x : ArraySpan CType) :
  forall y : ArraySpan CType,
  (List.length x <= List.length y)%nat ->
  map (fun s => h (fst s)) (filter (fun s => snd (fst s)) (combine x y))
  = map h (filter snd x).
Proof.
  induction x as [|[v b] x IH]; intros [|[w c] y] Hlen; cbn [List.length] in Hlen;
    try lia; [reflexivity|reflexivity|].
  cbn [combine filter fst snd]. destruct b; cbn [map fst]; rewrite IH by lia; reflexivity.
Qed.

Lemma second_of_pairs {B : Type} (h : CType * bool -> B) (x : ArraySpan CType) :
  forall y : ArraySpan CType,
  Span.validity x = Span.validity y ->
  map (fun s => h (snd s)) (filter (fun s => snd (fst s)) (combine x y))
  = map h (filter snd y).
Proof.
  unfold Span.validity.
  induction x as [|[v b] x IH]; intros [|[w c] y] H; cbn [map snd] in H;
    try discriminate; [reflexivity|].
  injection H as -> H. cbn [combine filter fst snd].
  destruct c; cbn [map snd]; rewrite IH by exact H; reflexivity.
Qed.

Lemma valid_pairs_fst (x y : ArraySpan CType) :
  (List.length x <= List.length y)%nat ->
  map fst (valid_pairs x y) = map fst (filter snd x).
Proof.
  intros H. unfold valid_pairs. rewrite map_map. cbn [fst].
  apply (first_of_pairs fst x y H).
Qed.

Lemma valid_pairs_snd (x y : ArraySpan CType) :
  Span.validity x = Span.validity y ->
  map snd (valid_pairs x y) = map fst (filter snd y).
Proof.
  intros H. unfold valid_pairs. rewrite map_map. cbn [snd].
  apply (second_of_pairs fst x y H).
Qed.

Lemma valid_pairs_length (x y : ArraySpan CType) :
  (List.length x <= List.length y)%nat ->
  Z.of_nat (List.length (valid_pairs x y)) = valid_count x.
Proof.
  intros H. rewrite <- (length_map fst), valid_pairs_fst, length_map by exact H.
  rewrite valid_count_filter. f_equal. unfold Span.validity.
  induction x as [|[v b] x' IH] in |- *; [reflexivity|].
  cbn [filter map snd]. destruct b; cbn [List.length]; rewrite IH; reflexivity.
Qed.

Lemma valid_pairs_app (x1 x2 y1 y2 : ArraySpan CType) :
  List.length x1 = List.length y1 ->
  valid_pairs (x1 ++ x2) (y1 ++ y2) = valid_pairs x1 y1 ++ valid_pairs x2 y2.
Proof.
  intros H. unfold valid_pairs.
  rewrite combine_app_same by exact H. rewrite filter_app, map_app. reflexivity.
Qed.

End ValidPairs.

Section ExactFloatPath.
Import Moments.
Local Open Scope Qc_scope.

(** [SumArray] of the values, and of a function of them, as sums over the
    valid slots. *)
Lemma SumArray_where_valid (func : Qc -> Qc) (x : ArraySpan Qc) :
  (Span.length x < 2 ^ 63)%Z ->
  Summation.SumArray 0 x func = total (map func (map fst (filter snd x))).
Proof.
  intros Hlen. unfold Summation.SumArray.
  rewrite SumArray2WithCovariance_where_valid by (exact Hlen || lia).
  unfold sum_where_valid. rewrite map_map.
  rewrite (first_of_pairs (fun s => func (fst s)) x x) by lia. reflexivity.
Qed.

Lemma sum_where_valid_pairs {CType : Type} (func : CType -> CType -> Qc)
    (x y : ArraySpan CType) :
  sum_where_valid func x y
  = total (map (fun p => func (fst p) (snd p)) (valid_pairs x y)).
Proof. unfold sum_where_valid, valid_pairs. rewrite map_map. reflexivity. Qed.

Lemma size_valid_pairs (x y : ArraySpan Qc) :
  (List.length x <= List.length y)%nat ->
  size (valid_pairs x y) = of_int (valid_count x).
Proof. intros H. unfold size. rewrite valid_pairs_length by exact H. reflexivity. Qed.

(** The two passes of the floating-point [Consume] on arrays whose nulls are
    at the same positions. *)
Lemma Double_Consume_moments (this : CovarianceState.t Qc) (x y : ArraySpan Qc) :
  Span.validity x = Span.validity y ->
  (0 < valid_count x)%Z ->
  (Span.length x < 2 ^ 63)%Z ->
  Span.GetNullCount x = 0%Z \/ skip_nulls (CovarianceState.options this) = true ->
  Double_Consume this x y =
  Normal
    (CovarianceState.mk (valid_count x)
       (mean_of fst (valid_pairs x y)) (mean_of snd (valid_pairs x y))
       (co_moment (mean_of fst (valid_pairs x y)) (mean_of snd (valid_pairs x y))
          (valid_pairs x y))
       (Span.GetNullCount x =? 0)%Z
       (CovarianceState.decimal_scale this) (CovarianceState.options this)).
Proof.
  intros Hv Hpos Hlen Hnull.
  pose proof (validity_length x y Hv) as Hl.
  pose proof (validity_GetNullCount x y Hv) as Hn.
  pose proof (validity_valid_count x y Hv) as Hc.
  assert (Hleny : (Span.length y < 2 ^ 63)%Z) by (unfold Span.length in *; lia).
  unfold Double_Consume, FloatPath.Consume.
  fold (valid_count x). fold (valid_count y). rewrite <- Hc, Z.eqb_refl.
  cbn [negb].
  destruct this as [c0 mx0 my0 mxy0 av0 sc0 opt0].
  cbn [CovarianceState.set_all_valid CovarianceState.all_valid CovarianceState.options
       CovarianceState.decimal_scale] in *.
  rewrite <- Hn, andb_diag.
  destruct (Z.eqb_spec (valid_count x) 0) as [E|_]; [lia|]. cbn [orb].
  assert (G : negb (Span.GetNullCount x =? 0)%Z && negb (skip_nulls opt0) = false).
  { destruct Hnull as [-> | ->]; [reflexivity|apply andb_false_r]. }
  rewrite G. rewrite !SumArray_where_valid by assumption.
  rewrite !map_id.
  rewrite <- (valid_pairs_fst x y) by lia.
  rewrite <- (valid_pairs_snd x y) by exact Hv.
  rewrite <- (size_valid_pairs x y) by lia.
  change (@ddiv Qc _) with Qcdiv.
  fold (mean_of fst (valid_pairs x y)). fold (mean_of snd (valid_pairs x y)).
  rewrite SumArray2WithCovariance_where_valid by (exact Hlen || lia).
  rewrite sum_where_valid_pairs. reflexivity.
Qed.

End ExactFloatPath.

(** X11. The floating-point [Consume] computes the moments. In exact
    arithmetic, on two [double] arrays of fewer than [2^63] slots whose nulls
    are at the same positions, with at least one valid pair, and with no
    null or under [skip_nulls]: [Consume] returns, and the state holds the
    number of valid pairs, their two means and the sum of the products of
    their deviations from the means, whatever the state held before;
    [all_valid] is "no null", scale and options are kept. *)
Theorem Double_Consume_summarises (this : CovarianceState.t Qc) (x y : ArraySpan Qc) :
  Span.validity x = Span.validity y ->
  0 < valid_count x ->
  Span.length x < 2 ^ 63 ->
  Span.GetNullCount x = 0 \/ skip_nulls (CovarianceState.options this) = true ->
  exists s' : CovarianceState.t Qc,
    Double_Consume this x y = Normal s'
    /\ Moments.summarises s' (valid_pairs x y)
    /\ CovarianceState.all_valid s' = (Span.GetNullCount x =? 0)
    /\ CovarianceState.decimal_scale s' = CovarianceState.decimal_scale this
    /\ CovarianceState.options s' = CovarianceState.options this.
Proof.
  intros Hv Hpos Hlen Hnull. eexists. split.
  - apply Double_Consume_moments; assumption.
  - unfold Moments.summarises.
    cbn [CovarianceState.count CovarianceState.mean_x CovarianceState.mean_y
         CovarianceState.m_xy CovarianceState.all_valid CovarianceState.decimal_scale
         CovarianceState.options].
    rewrite valid_pairs_length by (rewrite (validity_length x y Hv); lia).
    repeat split; reflexivity.
Qed.

Lemma Double_Consume_summarises_witness :
  exists s' : CovarianceState.t Qc,
    Double_Consume (CovarianceState.init 0 strict_options)
      [(Q2Qc 1, true); (Q2Qc 2, true); (Q2Qc 6, true)]
      [(Q2Qc 2, true); (Q2Qc 4, true); (Q2Qc 3, true)] = Normal s'
    /\ CovarianceState.count s' = 3
    /\ CovarianceState.mean_x s' = Q2Qc 3
    /\ CovarianceState.m_xy s' = Q2Qc 1.
Proof.
  destruct (Double_Consume_summarises (CovarianceState.init 0 strict_options)
              [(Q2Qc 1, true); (Q2Qc 2, true); (Q2Qc 6, true)]
              [(Q2Qc 2, true); (Q2Qc 4, true); (Q2Qc 3, true)])
    as (s' & E & (Hc & Hx & _ & Hm) & _).
  - reflexivity.
  - reflexivity.
  - reflexivity.
  - left. reflexivity.
  - exists s'. split; [exact E|]. split; [exact Hc|].
    split; [rewrite Hx|rewrite Hm]; apply Qc_is_canon; reflexivity.
Defined.

(** X12. [CorrelationState::Consume] computes the three moments. In exact
    arithmetic and under the conditions of X11, [CorrelationState::Consume]
    on [double] arrays returns a state whose covariance state holds the
    moments of the valid pairs and whose [mx2] and [my2] are the sums of the
    squared deviations of the two operands from their means. *)
Theorem Correlation_Consume_summarises (this : CorrelationState.t Qc)
    (x y : ArraySpan Qc) :
  Span.validity x = Span.validity y ->
  0 < valid_count x ->
  Span.length x < 2 ^ 63 ->
  Span.GetNullCount x = 0
  \/ skip_nulls (CovarianceState.options (CorrelationState.covarianceState this)) = true ->
  exists cs : CorrelationState.t Qc,
    CorrelationConsume.Consume 0%Qc (fun v : Qc => v) Double_Consume this x y = Normal cs
    /\ CorrMoments.summarises cs (valid_pairs x y).
Proof.
  intros Hv Hpos Hlen Hnull.
  pose proof (validity_length x y Hv) as Hl.
  assert (Hleny : Span.length y < 2 ^ 63) by (unfold Span.length in *; lia).
  unfold CorrelationConsume.Consume.
  rewrite Double_Consume_moments by assumption.
  eexists. split; [reflexivity|].
  unfold CorrMoments.summarises.
  cbn [CorrelationState.covarianceState CorrelationState.mx2 CorrelationState.my2
       CovarianceState.mean_x CovarianceState.mean_y].
  split; [|split].
  - unfold Moments.summarises.
    cbn [CovarianceState.count CovarianceState.mean_x CovarianceState.mean_y
         CovarianceState.m_xy].
    rewrite valid_pairs_length by lia. repeat split; reflexivity.
  - rewrite SumArray_where_valid by exact Hlen.
    rewrite <- (valid_pairs_fst x y) by lia. reflexivity.
  - rewrite SumArray_where_valid by exact Hleny.
    rewrite <- (valid_pairs_snd x y) by exact Hv. reflexivity.
Qed.

Lemma Correlation_Consume_summarises_witness :
  exists cs : CorrelationState.t Qc,
    CorrelationConsume.Consume 0%Qc (fun v : Qc => v) Double_Consume
      (CorrelationState.mk 0%Qc 0%Qc (CovarianceState.init 0 strict_options))
      [(Q2Qc 1, true); (Q2Qc 2, true); (Q2Qc 6, true)]
      [(Q2Qc 2, true); (Q2Qc 4, true); (Q2Qc 3, true)] = Normal cs
    /\ CorrelationState.mx2 cs = Q2Qc 14
    /\ CorrelationState.my2 cs = Q2Qc 2.
Proof.
  destruct (Correlation_Consume_summarises
              (CorrelationState.mk 0%Qc 0%Qc (CovarianceState.init 0 strict_options))
              [(Q2Qc 1, true); (Q2Qc 2, true); (Q2Qc 6, true)]
              [(Q2Qc 2, true); (Q2Qc 4, true); (Q2Qc 3, true)])
    as (cs & E & _ & Hx & Hy).
  - reflexivity.
  - reflexivity.
  - reflexivity.
  - left. reflexivity.
  - exists cs. split; [exact E|].
    split; [rewrite Hx|rewrite Hy]; apply Qc_is_canon; reflexivity.
Defined.

(** ** [Consume] on the narrow integer path, in exact arithmetic *)

(** The pairs that the visitor of a slice reads are the pairs of slots at
    which the first slice is valid. *)
Lemma visited_valid_pairs (slice_x slice_y : ArraySpan Z) :
  (List.length slice_x <= List.length slice_y)%nat ->
  visited slice_x slice_y = valid_pairs slice_x slice_y.
Proof.
  intros Hlen. unfold visited, valid_pairs.
  rewrite <- (positions_where_valid 0 (fun a b => (a, b)) slice_x slice_y Hlen).
  rewrite <- (app_nil_l (Cascade.true_positions 0 (Span.validity slice_x))).
  change (@nil nat) with (seq (0 - 0) 0).
  rewrite <- set_bit_runs_positions by lia. fold (Span.SetBitRuns slice_x).
  generalize (Span.SetBitRuns slice_x) as runs.
  induction runs as [|r runs IH]; [reflexivity|].
  cbn [flat_map]. rewrite map_app, IH. f_equal.
  unfold run_pairs.
  apply (map_seq_from
           (fun i => (Span.value_at 0 slice_x i, Span.value_at 0 slice_y i))).
Qed.

Section ExactIntegerPath.
Import Moments.
Local Open Scope Qc_scope.

Lemma exact_pairs_totals (l : list (Z * Z)) :
  total (map fst (exact_pairs l)) = of_int (ExactSums.sum_x l)
  /\ total (map snd (exact_pairs l)) = of_int (ExactSums.sum_y l)
  /\ total (map (fun p => fst p * snd p) (exact_pairs l)) = of_int (ExactSums.sum_xy l).
Proof.
  unfold exact_pairs, ExactSums.sum_x, ExactSums.sum_y, ExactSums.sum_xy.
  induction l as [|[a b] l (IHx & IHy & IHxy)]; [repeat split; reflexivity|].
  cbn [map fold_right fst snd]. rewrite !total_cons, IHx, IHy, IHxy.
  rewrite !of_int_add, of_int_mul. repeat split; reflexivity.
Qed.

(** The state that [Consume] builds from the exact sums of a chunk. *)
Lemma chunk_state_summarises (ty : NarrowInt) (l : list (Z * Z))
    (scale : Z) (opts : VarianceOptions) :
  l <> [] ->
  (Z.of_nat (List.length l) <= IntegerPath.max_length ty)%Z ->
  Forall (fun p => in_ctype ty (fst p) /\ in_ctype ty (snd p)) l ->
  summarises
    (CovarianceState.mk
       (IntegerCovariance.count (consume_all IntegerCovariance.init l))
       (IntegerCovariance.mean_x (consume_all IntegerCovariance.init l))
       (IntegerCovariance.mean_y (consume_all IntegerCovariance.init l))
       (IntegerCovariance.m_xy (consume_all IntegerCovariance.init l))
       true scale opts)
    (exact_pairs l).
Proof.
  intros Hl Hlen Hr.
  set (n := Z.of_nat (List.length l)) in *.
  assert (Hn : (0 < n)%Z) by (subst n; destruct l; [congruence | cbn; lia]).
  destruct (consume_all_within ty l 0 IntegerCovariance.init ltac:(lia) ltac:(lia)
              (within_init ty) Hr) as (_ & E & W).
  cbn [IntegerCovariance.init IntegerCovariance.count IntegerCovariance.sum_x
       IntegerCovariance.sum_y IntegerCovariance.sum_xy Z.add] in E.
  fold n in E, W.
  assert (B : in_signed 64 (ExactSums.sum_x l) /\ in_signed 64 (ExactSums.sum_y l)
              /\ in_signed 127 (ExactSums.sum_xy l)).
  { destruct W as (_ & Wx & Wy & Wxy). rewrite E in Wx, Wy, Wxy.
    cbn [IntegerCovariance.sum_x IntegerCovariance.sum_y IntegerCovariance.sum_xy] in *.
    unfold IntegerPath.max_length in Hlen. rewrite Z.shiftl_1_l in Hlen.
    rewrite Z.add_0_l in *.
    unfold in_signed, ctype_min, ctype_max in *.
    clearbody n.
    destruct ty; cbn in *; lia. }
  destruct B as (Bx & By & Bxy).
  rewrite E. unfold summarises.
  cbn [CovarianceState.count CovarianceState.mean_x CovarianceState.mean_y
       CovarianceState.m_xy IntegerCovariance.count].
  destruct (exact_pairs_totals l) as (Tx & Ty & Txy).
  assert (Sz : size (exact_pairs l) = of_int n).
  { unfold size, exact_pairs. rewrite length_map. reflexivity. }
  assert (N0 : of_int (D := Qc) n <> 0) by (apply of_int_neq0; lia).
  split; [unfold exact_pairs; rewrite length_map; reflexivity|].
  assert (Mx : IntegerCovariance.mean_x
                 (IntegerCovariance.mk n (ExactSums.sum_x l) (ExactSums.sum_y l)
                    (ExactSums.sum_xy l))
               = mean_of fst (exact_pairs l)).
  { unfold mean_of. rewrite Tx, Sz. reflexivity. }
  assert (My : IntegerCovariance.mean_y
                 (IntegerCovariance.mk n (ExactSums.sum_x l) (ExactSums.sum_y l)
                    (ExactSums.sum_xy l))
               = mean_of snd (exact_pairs l)).
  { unfold mean_of. rewrite Ty, Sz. reflexivity. }
  split; [exact Mx|]. split; [exact My|].
  rewrite m_xy_of_sums by assumption.
  rewrite co_moment_expand, Txy, Tx, Ty, Sz. unfold mean_of. rewrite Tx, Ty, Sz.
  change (@dsub Qc _) with Qcminus. change (@ddiv Qc _) with Qcdiv.
  assert (QR : (ExactSums.sum_x l * ExactSums.sum_y l
                = n * Z.quot (ExactSums.sum_x l * ExactSums.sum_y l) n
                  + Z.rem (ExactSums.sum_x l * ExactSums.sum_y l) n)%Z)
    by (apply Z.quot_rem'; lia).
  assert (QR' : of_int (D := Qc) (ExactSums.sum_x l) * of_int (ExactSums.sum_y l)
                = of_int n * of_int (Z.quot (ExactSums.sum_x l * ExactSums.sum_y l) n)
                  + of_int (Z.rem (ExactSums.sum_x l * ExactSums.sum_y l) n)).
  { rewrite <- !of_int_mul, <- of_int_add. f_equal. exact QR. }
  rewrite of_int_sub.
  generalize dependent (of_int (D := Qc) (Z.quot (ExactSums.sum_x l * ExactSums.sum_y l) n)).
  generalize dependent (of_int (D := Qc) (Z.rem (ExactSums.sum_x l * ExactSums.sum_y l) n)).
  intros r q QR'.
  assert (Er : r = of_int (ExactSums.sum_x l) * of_int (ExactSums.sum_y l) - of_int n * q)
    by (rewrite QR'; ring).
  rewrite Er. field. exact N0.
Qed.

Lemma summarises_set_all_valid (b : bool) (s : CovarianceState.t Qc) (l : list (Qc * Qc)) :
  summarises s l -> summarises (CovarianceState.set_all_valid b s) l.
Proof. destruct s. exact (fun H => H). Qed.

Lemma exact_pairs_app (l1 l2 : list (Z * Z)) :
  exact_pairs (l1 ++ l2) = exact_pairs l1 ++ exact_pairs l2.
Proof. apply map_app. Qed.

Lemma merge_chunk_summarises (ty : NarrowInt) (this : CovarianceState.t Qc)
    (l0 : list (Qc * Qc)) (slice_x slice_y : ArraySpan Z) :
  summarises this l0 ->
  slots_in ty slice_x -> slots_in ty slice_y ->
  List.length slice_x = List.length slice_y ->
  (0 < valid_count slice_x)%Z ->
  (Span.length slice_x <= IntegerPath.max_length ty)%Z ->
  (Z.of_nat (List.length l0) + valid_count slice_x <= INT64_MAX)%Z ->
  summarises (IntegerPath.merge_chunk this slice_x slice_y)
    (l0 ++ exact_pairs (valid_pairs slice_x slice_y)).
Proof.
  intros S0 Hx Hy Hlen Hpos HM Hfit.
  pose proof (valid_pairs_length slice_x slice_y ltac:(lia)) as Hn.
  pose proof (valid_count_bounds slice_x) as Hb.
  unfold IntegerPath.merge_chunk. apply MergeFrom_summarises_app.
  - exact S0.
  - rewrite accumulate_visited, visited_valid_pairs by lia.
    apply (chunk_state_summarises ty).
    + intros E. rewrite E in Hn. cbn in Hn. lia.
    + lia.
    + rewrite <- visited_valid_pairs by lia. apply visited_in; assumption.
  - rewrite length_app. unfold exact_pairs. rewrite length_map. lia.
Qed.

Lemma firstn_add {A : Type} (l : list A) : forall s n : nat,
  firstn (s + n) l = firstn s l ++ firstn n (skipn s l).
Proof.
  induction l as [|a l IH]; intros [|s] n; cbn [Nat.add firstn skipn app];
    rewrite ?firstn_nil; try reflexivity.
  f_equal. apply IH.
Qed.

Lemma validity_slice (x y : ArraySpan Z) (s n : nat) :
  Span.validity x = Span.validity y ->
  Span.validity (firstn n (skipn s x)) = Span.validity (firstn n (skipn s y)).
Proof.
  unfold Span.validity. intros H.
  rewrite <- !firstn_map, <- !skipn_map, H. reflexivity.
Qed.

Lemma valid_pairs_none (x y : ArraySpan Z) :
  valid_count x = 0%Z -> valid_pairs x y = [].
Proof.
  intros H. unfold valid_pairs.
  assert (E : filter snd x = []).
  { rewrite valid_count_filter in H. unfold Span.validity in H.
    induction x as [|[v []] x IH]; cbn [filter map snd List.length] in *;
      [reflexivity|lia|apply IH; exact H]. }
  assert (G : forall y', filter (fun s : (Z * bool) * (Z * bool) => snd (fst s))
                           (combine x y') = []).
  { clear H. induction x as [|[v b] x IH]; intros [|w y']; try reflexivity.
    cbn [combine filter fst snd] in *. destruct b; [discriminate E|]. apply IH. exact E. }
  rewrite G. reflexivity.
Qed.

(** The [while] loop of [Consume] on arrays whose nulls are at the same
    positions: after the slices up to [s] the state holds [l0] and the valid
    pairs before [s]. *)
Lemma chunk_loop_summarises (ty : NarrowInt) (x y : ArraySpan Z) (l0 : list (Qc * Qc)) :
  Span.validity x = Span.validity y ->
  slots_in ty x -> slots_in ty y ->
  (Z.of_nat (List.length l0) + valid_count x <= INT64_MAX)%Z ->
  forall (fuel s : nat) (vx vy : Z) (this : CovarianceState.t Qc),
  (s <= List.length x)%nat ->
  (List.length x - s < fuel)%nat ->
  vx = valid_count (skipn s x) -> vy = vx ->
  summarises this (l0 ++ exact_pairs (valid_pairs (firstn s x) (firstn s y))) ->
  summarises
    (IntegerPath.chunk_loop ty IntegerPath.merge_chunk fuel x y
       (Z.of_nat s) (Z.of_nat s) vx vy this)
    (l0 ++ exact_pairs (valid_pairs x y)).
Proof.
  intros Hv Hx Hy Hfit.
  pose proof (validity_length x y Hv) as Hl.
  induction fuel as [|fuel IH]; intros s vx vy this Hs Hfuel -> -> S0; [lia|].
  cbn [IntegerPath.chunk_loop].
  pose proof (valid_count_bounds (skipn s x)) as Hb.
  destruct (Z.ltb_spec 0 (valid_count (skipn s x))) as [Hpos|Hzero]; cbn [andb].
  - unfold Span.length in Hb. rewrite length_skipn in Hb.
    pose proof (max_length_pos ty) as HM.
    set (n := Z.to_nat (Z.min (IntegerPath.max_length ty)
                          (Z.of_nat (List.length x) - Z.of_nat s))).
    assert (Hn : (1 <= n <= List.length x - s)%nat) by (subst n; lia).
    assert (Ex : Span.SetSlice x (Z.of_nat s)
                   (Z.min (IntegerPath.max_length ty) (Span.length x - Z.of_nat s))
                 = firstn n (skipn s x)).
    { unfold Span.SetSlice, Span.length. rewrite Nat2Z.id. reflexivity. }
    assert (Ey : Span.SetSlice y (Z.of_nat s)
                   (Z.min (IntegerPath.max_length ty) (Span.length y - Z.of_nat s))
                 = firstn n (skipn s y)).
    { unfold Span.SetSlice, Span.length. rewrite Nat2Z.id, <- Hl. reflexivity. }
    rewrite Ex, Ey.
    set (sx := firstn n (skipn s x)) in *. set (sy := firstn n (skipn s y)) in *.
    assert (Lx : List.length sx = n) by (subst sx; rewrite length_firstn, length_skipn; lia).
    assert (Ly : List.length sy = n) by (subst sy; rewrite length_firstn, length_skipn; lia).
    assert (Vs : valid_count sy = valid_count sx).
    { symmetry. apply validity_valid_count. apply validity_slice. exact Hv. }
    fold (valid_count sx). fold (valid_count sy). rewrite Vs.
    assert (Es : (Z.of_nat s + Span.length sx = Z.of_nat (s + n))%Z)
      by (unfold Span.length; lia).
    assert (Es' : (Z.of_nat s + Span.length sy = Z.of_nat (s + n))%Z)
      by (unfold Span.length; lia).
    rewrite Es, Es'.
    assert (Sk : (valid_count (skipn s x) - valid_count sx
                  = valid_count (skipn (s + n) x))%Z).
    { subst sx. rewrite (valid_count_split n (skipn s x)), skipn_skipn.
      replace (n + s)%nat with (s + n)%nat by lia. lia. }
    pose proof (valid_count_split s x) as Hsplit.
    pose proof (valid_count_split n (skipn s x)) as Hsplit2. fold sx in Hsplit2.
    pose proof (valid_count_bounds (firstn s x)) as Hb1.
    pose proof (valid_count_bounds sx) as Hb2.
    pose proof (valid_count_bounds (skipn n (skipn s x))) as Hb3.
    assert (Lf : List.length (firstn s x) = List.length (firstn s y))
      by (rewrite !length_firstn; lia).
    apply IH; [lia|lia|exact Sk|reflexivity|].
    rewrite !firstn_add. fold sx sy.
    rewrite valid_pairs_app, exact_pairs_app, app_assoc by exact Lf.
    destruct (Z.ltb_spec 0 (valid_count sx)) as [Hc|Hc]; cbn [andb].
    + apply (merge_chunk_summarises ty).
      * exact S0.
      * apply Forall_forall. intros p Hp. unfold slots_in in Hx.
        rewrite Forall_forall in Hx. apply Hx.
        subst sx. apply In_firstn in Hp. apply In_skipn in Hp. exact Hp.
      * apply Forall_forall. intros p Hp. unfold slots_in in Hy.
        rewrite Forall_forall in Hy. apply Hy.
        subst sy. apply In_firstn in Hp. apply In_skipn in Hp. exact Hp.
      * lia.
      * exact Hc.
      * unfold Span.length. rewrite Lx. subst n. lia.
      * rewrite length_app. unfold exact_pairs at 1. rewrite length_map.
        rewrite Nat2Z.inj_add, valid_pairs_length by lia. lia.
    + rewrite (valid_pairs_none sx sy) by lia.
      cbn [exact_pairs map]. rewrite app_nil_r. exact S0.
  - rewrite <- (firstn_skipn s x), <- (firstn_skipn s y) at 1.
    rewrite valid_pairs_app by (rewrite !length_firstn; lia).
    rewrite (valid_pairs_none (skipn s x)) by lia.
    rewrite app_nil_r. exact S0.
Qed.

End ExactIntegerPath.

Lemma IntegerPath_Consume_summarises (ty : NarrowInt) (this : CovarianceState.t Qc)
    (l0 : list (Qc * Qc)) (x y : ArraySpan Z) :
  Moments.summarises this l0 ->
  Span.validity x = Span.validity y ->
  slots_in ty x -> slots_in ty y ->
  Z.of_nat (List.length l0) + valid_count x <= INT64_MAX ->
  Span.GetNullCount x = 0 \/ skip_nulls (CovarianceState.options this) = true ->
  Moments.summarises (IntegerPath.Consume ty this x y)
    (l0 ++ exact_pairs (valid_pairs x y)).
Proof.
  intros S0 Hv Hx Hy Hfit Hnull.
  unfold IntegerPath.Consume.
  rewrite <- (validity_GetNullCount x y Hv), andb_diag.
  assert (E : negb (CovarianceState.all_valid
                      (CovarianceState.set_all_valid (Span.GetNullCount x =? 0) this))
              && negb (skip_nulls (CovarianceState.options
                      (CovarianceState.set_all_valid (Span.GetNullCount x =? 0) this)))
              = false).
  { destruct this. cbn [CovarianceState.set_all_valid CovarianceState.all_valid
                        CovarianceState.options] in *.
    destruct Hnull as [-> | ->]; [reflexivity|apply andb_false_r]. }
  rewrite E.
  apply (chunk_loop_summarises ty x y l0 Hv Hx Hy Hfit
           (IntegerPath.loop_fuel x) 0%nat).
  - lia.
  - unfold IntegerPath.loop_fuel. lia.
  - reflexivity.
  - unfold Span.length. rewrite (validity_length x y Hv). reflexivity.
  - cbn [firstn valid_pairs]. unfold valid_pairs, exact_pairs. cbn [combine filter map].
    rewrite app_nil_r. apply summarises_set_all_valid. exact S0.
Qed.

Lemma exact_valid_pairs_length (x y : ArraySpan Z) :
  Span.validity x = Span.validity y ->
  Z.of_nat (List.length (exact_pairs (valid_pairs x y))) = valid_count x.
Proof.
  intros Hv. unfold exact_pairs. rewrite length_map. apply valid_pairs_length.
  rewrite (validity_length x y Hv). lia.
Qed.

(** X13. The integer [Consume] accumulates exactly. In exact arithmetic,
    for arrays of a narrow integer type whose nulls are at the same
    positions, with no null or under [skip_nulls]: if the state holds the
    moments of a sample [l0] before [Consume], it holds those of [l0]
    followed by the valid pairs of the two arrays afterwards, however many
    slices of [max_length] the loop makes. Unlike the floating-point
    overload, which assigns its fields, this one merges into what the state
    held. The counts are to fit [int64_t]. *)
Theorem Narrow_Consume_accumulates (ty : NarrowInt) (this : CovarianceState.t Qc)
    (l0 : list (Qc * Qc)) (x y : ArraySpan Z) :
  Moments.summarises this l0 ->
  Span.validity x = Span.validity y ->
  slots_in ty x -> slots_in ty y ->
  Z.of_nat (List.length l0) + valid_count x <= INT64_MAX ->
  Span.GetNullCount x = 0 \/ skip_nulls (CovarianceState.options this) = true ->
  Moments.summarises (IntegerPath.Consume ty this x y)
    (l0 ++ exact_pairs (valid_pairs x y))
  /\ CovarianceState.count (IntegerPath.Consume ty this x y)
     = CovarianceState.count this + valid_count x.
Proof.
  intros S0 Hv Hx Hy Hfit Hnull.
  pose proof (IntegerPath_Consume_summarises ty this l0 x y S0 Hv Hx Hy Hfit Hnull) as G.
  split; [exact G|].
  destruct G as (Hc & _). destruct S0 as (Hc0 & _).
  rewrite Hc, Hc0, length_app, Nat2Z.inj_add, exact_valid_pairs_length by exact Hv.
  reflexivity.
Qed.

Lemma Narrow_Consume_accumulates_witness :
  Moments.summarises
    (IntegerPath.Consume Int32 (sample_state 1 2) (ints [3; 5]) (ints [4; 6]))
    (exact_pairs [(1, 2); (3, 4); (5, 6)]).
Proof.
  apply (Narrow_Consume_accumulates Int32 (sample_state 1 2)
           (exact_pairs [(1, 2)]) (ints [3; 5]) (ints [4; 6])).
  - repeat split; apply Qc_is_canon; reflexivity.
  - reflexivity.
  - repeat constructor; discriminate.
  - repeat constructor; discriminate.
  - vm_compute. discriminate.
  - left. reflexivity.
Defined.

(** ** Consume, merge, finalize *)

Section Lifecycle.
Import Moments.

Lemma init_summarises (scale : Z) (opts : VarianceOptions) :
  summarises (CovarianceState.init scale opts) [].
Proof. repeat split; apply Qc_is_canon; reflexivity. Qed.

(** The state of the function after the state of the batch is merged into
    it. *)
Lemma MergeFrom_fresh_summarises (opts : VarianceOptions) (s : CovarianceState.t Qc)
    (l : list (Qc * Qc)) :
  summarises s l ->
  Z.of_nat (List.length l) <= INT64_MAX ->
  summarises (CovarianceState.MergeFrom (CovarianceState.init 0 opts) s) l
  /\ CovarianceState.all_valid (CovarianceState.MergeFrom (CovarianceState.init 0 opts) s)
     = CovarianceState.all_valid s
  /\ CovarianceState.options (CovarianceState.MergeFrom (CovarianceState.init 0 opts) s)
     = opts.
Proof.
  intros S Hlen. split; [|split].
  - apply (MergeFrom_summarises_app (CovarianceState.init 0 opts) s [] l).
    + apply init_summarises.
    + exact S.
    + exact Hlen.
  - rewrite MergeFrom_all_valid. reflexivity.
  - rewrite (proj1 (MergeFrom_options _ _)). reflexivity.
Qed.

Lemma Finalize_of_summary (s : CovarianceState.t Qc) (l : list (Qc * Qc)) :
  summarises s l ->
  CovarianceState.all_valid s = true
  \/ skip_nulls (CovarianceState.options s) = true ->
  0 <= ddof (CovarianceState.options s) < Z.of_nat (List.length l) ->
  min_count (CovarianceState.options s) <= Z.of_nat (List.length l) ->
  Z.of_nat (List.length l) <= INT64_MAX ->
  CovarianceImpl.Finalize s
  = Some (sample_covariance (ddof (CovarianceState.options s)) l).
Proof.
  intros (Hc & _ & _ & Hm) Hnull Hd Hmin Hlen.
  unfold CovarianceImpl.Finalize, CovarianceImpl.no_value. rewrite Hc.
  destruct (Z.leb_spec (Z.of_nat (List.length l)) (ddof (CovarianceState.options s)));
    [lia|].
  destruct (Z.ltb_spec (Z.of_nat (List.length l)) (min_count (CovarianceState.options s)));
    [lia|].
  cbn [orb].
  assert (G : negb (CovarianceState.all_valid s)
              && negb (skip_nulls (CovarianceState.options s)) = false).
  { destruct Hnull as [-> | ->]; [reflexivity|apply andb_false_r]. }
  rewrite G. unfold INT64_MAX in Hlen.
  rewrite wrap64_id by lia. rewrite Hm. reflexivity.
Qed.

Lemma IntegerPath_Consume_options {D : Type} {ops : DoubleOps D} (ty : NarrowInt)
    (s : CovarianceState.t D) (x y : ArraySpan Z) :
  CovarianceState.options (IntegerPath.Consume ty s x y) = CovarianceState.options s.
Proof.
  rewrite Consume_by_chunks. cbv zeta.
  assert (G : forall cs (s0 : CovarianceState.t D),
            CovarianceState.options
              (fold_left (fun s c => IntegerPath.merge_chunk s (fst c) (snd c)) cs s0)
            = CovarianceState.options s0).
  { induction cs as [|c cs IH]; intros s0; [reflexivity|].
    rewrite fold_left_cons, IH. unfold IntegerPath.merge_chunk.
    apply (proj1 (MergeFrom_options _ _)). }
  match goal with |- context [if ?b then _ else _] => destruct b end.
  - destruct s; reflexivity.
  - rewrite G. destruct s; reflexivity.
Qed.

End Lifecycle.

(** X14. The covariance of narrow integers. In exact arithmetic, for two
    arrays of a narrow integer type whose nulls are at the same positions,
    with no null or under [skip_nulls], and with more than [ddof] and at
    least [min_count] valid pairs: consuming the batch into a fresh state,
    merging that state into the fresh state of the function and finalizing
    gives the sample covariance of the valid pairs,
    [sum (x_i - mean_x) (y_i - mean_y) / (n - ddof)]. *)
Theorem Covariance_of_narrow_integers (ty : NarrowInt) (opts : VarianceOptions)
    (x y : ArraySpan Z) :
  Span.validity x = Span.validity y ->
  slots_in ty x -> slots_in ty y ->
  valid_count x <= INT64_MAX ->
  Span.GetNullCount x = 0 \/ skip_nulls opts = true ->
  0 <= ddof opts < valid_count x ->
  min_count opts <= valid_count x ->
  CovarianceImpl.Consume (Narrow_Consume ty) (CovarianceState.init 0 opts)
    (ArrayValue x) (ArrayValue y)
  = Normal (OK, IntegerPath.Consume ty (CovarianceState.init 0 opts) x y)
  /\ CovarianceImpl.Finalize
       (snd (CovarianceImpl.MergeFrom (CovarianceState.init 0 opts)
               (IntegerPath.Consume ty (CovarianceState.init (D := Qc) 0 opts) x y)))
     = Some (sample_covariance (ddof opts) (exact_pairs (valid_pairs x y)))
  /\ Api.CallCov (Narrow_Consume ty) opts x y
     = Normal (Ok (Some (sample_covariance (ddof opts) (exact_pairs (valid_pairs x y))))).
Proof.
  intros Hv Hx Hy Hfit Hnull Hd Hmin.
  pose proof (exact_valid_pairs_length x y Hv) as Hn.
  assert (S : Moments.summarises
                (IntegerPath.Consume ty (CovarianceState.init 0 opts) x y)
                (exact_pairs (valid_pairs x y))).
  { apply (IntegerPath_Consume_summarises ty (CovarianceState.init 0 opts) [] x y).
    - apply init_summarises.
    - exact Hv.
    - exact Hx.
    - exact Hy.
    - cbn [List.length Z.of_nat]. lia.
    - exact Hnull. }
  destruct (MergeFrom_fresh_summarises opts _ _ S ltac:(lia)) as (S' & Hav & Hopt).
  assert (F : CovarianceImpl.Finalize
                (snd (CovarianceImpl.MergeFrom (CovarianceState.init 0 opts)
                        (IntegerPath.Consume ty (CovarianceState.init (D := Qc) 0 opts) x y)))
              = Some (sample_covariance (ddof opts) (exact_pairs (valid_pairs x y)))).
  { unfold CovarianceImpl.MergeFrom. cbn [snd].
    rewrite (Finalize_of_summary _ _ S'); rewrite ?Hopt; try lia; [reflexivity|].
    rewrite Hav, IntegerPath_Consume_all_valid. unfold no_nulls.
    rewrite <- (validity_GetNullCount x y Hv), andb_diag.
    destruct Hnull as [-> | ->]; [left; reflexivity|right; reflexivity]. }
  split; [reflexivity|]. split; [exact F|].
  unfold Api.CallCov. cbn [CovarianceImpl.Consume Narrow_Consume].
  unfold CovarianceImpl.MergeFrom in *. cbn [snd] in F. rewrite F. reflexivity.
Qed.

Lemma Covariance_of_narrow_integers_witness :
  Api.CallCov (D := Qc) (Narrow_Consume Int32) VarianceOptions_Defaults
    (ints [1; 2; 6]) (ints [2; 4; 3])
  = Normal (Ok (Some (Q2Qc (1 # 3)))).
Proof.
  destruct (Covariance_of_narrow_integers Int32 VarianceOptions_Defaults
              (ints [1; 2; 6]) (ints [2; 4; 3])) as (_ & _ & H).
  - reflexivity.
  - repeat constructor; discriminate.
  - repeat constructor; discriminate.
  - vm_compute. discriminate.
  - left. reflexivity.
  - vm_compute. split; [discriminate|reflexivity].
  - vm_compute. discriminate.
  - rewrite H. do 3 f_equal; try (apply Qc_is_canon; reflexivity).
Defined.

(** X15. The covariance of [double] arrays. In exact arithmetic, for two
    [double] arrays of fewer than [2^63] slots whose nulls are at the same
    positions, with no null or under [skip_nulls], and with more than [ddof]
    and at least [min_count] valid pairs: consume, merge and finalize give
    the sample covariance of the valid pairs, and no exception is thrown. *)
Theorem Covariance_of_doubles (opts : VarianceOptions) (x y : ArraySpan Qc) :
  Span.validity x = Span.validity y ->
  Span.length x < 2 ^ 63 ->
  Span.GetNullCount x = 0 \/ skip_nulls opts = true ->
  0 <= ddof opts < valid_count x ->
  min_count opts <= valid_count x ->
  exists batch : CovarianceState.t Qc,
    CovarianceImpl.Consume Double_Consume (CovarianceState.init 0 opts)
      (ArrayValue x) (ArrayValue y) = Normal (OK, batch)
    /\ CovarianceImpl.Finalize
         (snd (CovarianceImpl.MergeFrom (CovarianceState.init 0 opts) batch))
       = Some (sample_covariance (ddof opts) (valid_pairs x y))
    /\ Api.CallCov Double_Consume opts x y
       = Normal (Ok (Some (sample_covariance (ddof opts) (valid_pairs x y)))).
Proof.
  intros Hv Hlen Hnull Hd Hmin.
  pose proof (validity_length x y Hv) as Hl.
  pose proof (valid_pairs_length x y ltac:(lia)) as Hn.
  pose proof (valid_count_bounds x) as Hb.
  pose proof (Double_Consume_moments (CovarianceState.init 0 opts) x y Hv ltac:(lia)
                Hlen Hnull) as E.
  match type of E with _ = Normal ?b => set (batch := b) in * end.
  assert (S : Moments.summarises batch (valid_pairs x y)).
  { subst batch. unfold Moments.summarises.
    cbn [CovarianceState.count CovarianceState.mean_x CovarianceState.mean_y
         CovarianceState.m_xy].
    rewrite Hn. repeat split; reflexivity. }
  assert (Hfit : Z.of_nat (List.length (valid_pairs x y)) <= INT64_MAX)
    by (unfold INT64_MAX, Span.length in *; lia).
  destruct (MergeFrom_fresh_summarises opts _ _ S Hfit) as (S' & Hav & Hopt).
  assert (F : CovarianceImpl.Finalize
                (snd (CovarianceImpl.MergeFrom (CovarianceState.init 0 opts) batch))
              = Some (sample_covariance (ddof opts) (valid_pairs x y))).
  { unfold CovarianceImpl.MergeFrom. cbn [snd].
    rewrite (Finalize_of_summary _ _ S'); rewrite ?Hopt; try lia; [reflexivity|].
    rewrite Hav. subst batch. cbn [CovarianceState.all_valid].
    destruct Hnull as [-> | ->]; [left; reflexivity|right; reflexivity]. }
  exists batch. split; [|split].
  - unfold CovarianceImpl.Consume. rewrite E. reflexivity.
  - exact F.
  - unfold Api.CallCov, CovarianceImpl.Consume. rewrite E.
    unfold CovarianceImpl.MergeFrom in *. cbn [snd] in F. rewrite F. reflexivity.
Qed.

Lemma Covariance_of_doubles_witness :
  Api.CallCov Double_Consume VarianceOptions_Defaults
    [(Q2Qc 1, true); (Q2Qc 2, true); (Q2Qc 6, true)]
    [(Q2Qc 2, true); (Q2Qc 4, true); (Q2Qc 3, true)]
  = Normal (Ok (Some (Q2Qc (1 # 3)))).
Proof.
  destruct (Covariance_of_doubles VarianceOptions_Defaults
              [(Q2Qc 1, true); (Q2Qc 2, true); (Q2Qc 6, true)]
              [(Q2Qc 2, true); (Q2Qc 4, true); (Q2Qc 3, true)]) as (b & _ & _ & H).
  - reflexivity.
  - reflexivity.
  - left. reflexivity.
  - vm_compute. split; [discriminate|reflexivity].
  - vm_compute. discriminate.
  - rewrite H. do 3 f_equal; try (apply Qc_is_canon; reflexivity).
Defined.
